(** * Attestation and indexing pipeline of the private expense tracker

    A shallow embedding of
    - the [ConfidentialExpenses] contract (the attestation ledger),
    - the backend's event listener, which reconciles ledger events into
      the [expenses] table,
    - the read routes over that table, and
    - the content-store and coprocessor services behind [/aggregate],
    together with the properties the specification states about them. *)

From Stdlib Require Import ZArith NArith Lia Ascii String.
From stdpp Require Import base option list gmap strings pretty sorting.

Open Scope string_scope.
Open Scope list_scope.

#[local] Set Warnings "-clear-no-such-hyp".

(* ================================================================== *)
(** * The attestation ledger ([ConfidentialExpenses]) *)
(* ================================================================== *)

Module Ledger.

(** Solidity value types: [address] and [bytes32] are unsigned numbers
    (160 and 256 bits); [string] and [bytes] are byte sequences;
    [uint256] values that occur here (block timestamps, array lengths)
    are far from wrapping and are kept as [N]. *)
Abbreviation address := N (only parsing).
Abbreviation bytes32 := N (only parsing).
Abbreviation uint256 := N (only parsing).
Abbreviation bytes := string (only parsing).

(** The two events of the contract. *)
Inductive Event :=
| ExpenseAttested (user : address) (submissionHash : bytes32)
                  (cid : string) (timestamp : uint256) (txMeta : bytes)
| PublicKeyRegistered (user : address) (publicKey : bytes).

(** Contract storage: the two private mappings.  A Solidity mapping reads
    its type's zero value at a key that was never written, which is what
    [userCids_at] and [attestedHashes_at] return.  [logs] is the list of
    events the contract has emitted, oldest first. *)
Record State := mkState {
  userCids : gmap N (list string);
  attestedHashes : gmap N bool;
  logs : list Event
}.

Definition initial : State :=
  {| userCids := ∅; attestedHashes := ∅; logs := [] |}.

Definition userCids_at (s : State) (user : address) : list string :=
  default [] (userCids s !! user).

Definition attestedHashes_at (s : State) (h : bytes32) : bool :=
  default false (attestedHashes s !! h).

(** ** Execution monad: state threading with revert *)

Inductive Result (A : Type) :=
| Ok (a : A)
| Revert (reason : string).
Arguments Ok {A} a.
Arguments Revert {A} reason.

Definition Exec (A : Type) : Type := State -> Result (A * State).

#[export] Instance exec_ret : MRet Exec := fun A a s => Ok (a, s).

#[export] Instance exec_bind : MBind Exec := fun A B k m s =>
  match m s with
  | Ok (a, s') => k a s'
  | Revert r => Revert r
  end.

Definition gets {A} (f : State -> A) : Exec A := fun s => Ok (f s, s).
Definition modify (f : State -> State) : Exec unit := fun s => Ok (tt, f s).

Definition require (cond : bool) (reason : string) : Exec unit :=
  if cond then mret tt else fun _ => Revert reason.

Definition emit (e : Event) : Exec unit :=
  modify (fun s => {| userCids := userCids s;
                      attestedHashes := attestedHashes s;
                      logs := logs s ++ [e] |}).

(** [userCids[user].push(cid)] *)
Definition push_cid (user : address) (cid : string) : Exec unit :=
  modify (fun s => {| userCids := <[user := userCids_at s user ++ [cid]]> (userCids s);
                      attestedHashes := attestedHashes s;
                      logs := logs s |}).

(** [attestedHashes[h] = true] *)
Definition mark_attested (h : bytes32) : Exec unit :=
  modify (fun s => {| userCids := userCids s;
                      attestedHashes := <[h := true]> (attestedHashes s);
                      logs := logs s |}).

(** The part of the transaction context the contract reads. *)
Record Ctx := mkCtx { msg_sender : address; block_timestamp : uint256 }.

(** ** The contract's functions *)

Definition attestExpense (ctx : Ctx) (submissionHash : bytes32)
    (cid : string) (txMeta : bytes) : Exec unit :=
  attested ← gets (fun s => attestedHashes_at s submissionHash);
  require (negb attested) "Already attested";;
  push_cid (msg_sender ctx) cid;;
  mark_attested submissionHash;;
  emit (ExpenseAttested (msg_sender ctx) submissionHash cid
                        (block_timestamp ctx) txMeta).

Definition registerPublicKey (ctx : Ctx) (publicKey : bytes) : Exec unit :=
  emit (PublicKeyRegistered (msg_sender ctx) publicKey).

Definition getUserCids (s : State) (user : address) : list string :=
  userCids_at s user.

Definition isAttested (s : State) (submissionHash : bytes32) : bool :=
  attestedHashes_at s submissionHash.

Definition getUserAttestationCount (s : State) (user : address) : uint256 :=
  N.of_nat (length (userCids_at s user)).

(** ** Read-only calls from outside

    A call names its function by the selector: the first four bytes of
    [keccak256] of the signature.  The contract has no fallback
    function, so a call with any other selector reverts.  The three
    view functions take one word. *)
Definition selector_getUserCids : N := 0x3c0cff70.
Definition selector_isAttested : N := 0xc13c2396.
Definition selector_getUserAttestationCount : N := 0x1f0fd1d3.
Definition selector_attestExpense : N := 0x1b1b84b9.
Definition selector_registerPublicKey : N := 0x85623594.

Inductive Returned :=
| ReturnedStrings (l : list string)
| ReturnedBool (b : bool)
| ReturnedUint (n : uint256).

(** [eth_call] with a selector and one word of call data; [None] is a
    revert.  The two functions that write take call data of another
    shape and revert on one word. *)
Definition staticcall (s : State) (selector : N) (word : N) : option Returned :=
  if bool_decide (selector = selector_getUserCids) then
    Some (ReturnedStrings (getUserCids s word))
  else if bool_decide (selector = selector_isAttested) then
    Some (ReturnedBool (isAttested s word))
  else if bool_decide (selector = selector_getUserAttestationCount) then
    Some (ReturnedUint (getUserAttestationCount s word))
  else None.

(** ** Transactions *)

Inductive Call :=
| CallAttestExpense (submissionHash : bytes32) (cid : string) (txMeta : bytes)
| CallRegisterPublicKey (publicKey : bytes).

Record Tx := mkTx { tx_ctx : Ctx; tx_call : Call }.

Definition dispatch (t : Tx) : Exec unit :=
  match tx_call t with
  | CallAttestExpense h cid meta => attestExpense (tx_ctx t) h cid meta
  | CallRegisterPublicKey pk => registerPublicKey (tx_ctx t) pk
  end.

(** A transaction either commits the state its call produced, or reverts:
    then every write of the call is discarded and the caller sees the
    revert reason. *)
Definition transact (t : Tx) (s : State) : State * option string :=
  match dispatch t s with
  | Ok (_, s') => (s', None)
  | Revert reason => (s, Some reason)
  end.

Definition step (s : State) (t : Tx) : State := fst (transact t s).

Definition run (txs : list Tx) (s : State) : State := foldl step s txs.

(** The [ExpenseAttested] events of a log, as the listener receives them. *)
Record Attested := mkAttested {
  ev_user : address;
  ev_submissionHash : bytes32;
  ev_cid : string;
  ev_timestamp : uint256;
  ev_txMeta : bytes
}.

Definition attested_of (e : Event) : option Attested :=
  match e with
  | ExpenseAttested u h c t m => Some (mkAttested u h c t m)
  | PublicKeyRegistered _ _ => None
  end.

Definition attested_events (s : State) : list Attested :=
  omap attested_of (logs s).

(** ** Vocabulary for the properties

    The fingerprints of the attestations emitted so far, and the
    invariant that they are pairwise distinct and all marked. *)
Definition hashes (s : State) : list N :=
  map ev_submissionHash (attested_events s).

Definition log_inv (s : State) : Prop :=
  NoDup (hashes s) /\ forall h, h ∈ hashes s -> isAttested s h = true.

(** The attestations of a log that [user] sent, and their content
    addresses. *)
Definition sent_by (user : address) (a : Attested) : bool :=
  bool_decide (ev_user a = user).

Definition logged_cids (s : State) (user : address) : list string :=
  map ev_cid (List.filter (sent_by user) (attested_events s)).

(** The transactions that call [attestExpense]. *)
Definition is_attest (t : Tx) : bool :=
  match tx_call t with
  | CallAttestExpense _ _ _ => true
  | CallRegisterPublicKey _ => false
  end.

(** What the three view functions and the listener can read of a
    state: the two mappings and the attestations emitted. *)
Definition observable (s : State) : gmap N (list string) * gmap N bool * list Attested :=
  (userCids s, attestedHashes s, attested_events s).

End Ledger.

(* ================================================================== *)
(** * JavaScript values and string operations used by the backend *)
(* ================================================================== *)

Module Js.

(** [String.prototype.toLowerCase] on the ASCII range (addresses and
    hashes are hexadecimal text). *)
Definition lower_char (c : ascii) : ascii :=
  let n := nat_of_ascii c in
  if (65 <=? n)%nat && (n <=? 90)%nat then ascii_of_nat (n + 32) else c.

Fixpoint toLowerCase (s : string) : string :=
  match s with
  | EmptyString => EmptyString
  | String c r => String (lower_char c) (toLowerCase r)
  end.

(** [s.includes(search)]: [search] occurs in [s] as a substring. *)
Fixpoint includes (s search : string) : bool :=
  if String.prefix search s then true
  else match s with
       | EmptyString => false
       | String _ r => includes r search
       end.

(** A string is truthy when it is not empty. *)
Definition truthy (s : string) : bool :=
  match s with EmptyString => false | String _ _ => true end.

(** ** Numbers

    A JavaScript number is a double.  The numbers that [parseInt] can
    return are [NaN], the two infinities and the doubles that are
    integers ([-0] is not told apart from [0]). *)
Inductive Number :=
| NaN
| Infinity (negative : bool)
| Finite (z : Z).

(** The double nearest to a natural number [v]: a double has 53
    significant bits, and a number half way between two doubles goes to
    the one whose last bit is zero. *)
Definition round_magnitude (v : Z) : Z :=
  let excess := (Z.log2 v + 1 - 53)%Z in
  if (excess <=? 0)%Z then v
  else
    let unit := (2 ^ excess)%Z in
    let q := (v / unit)%Z in
    let r := (v mod unit)%Z in
    let up := (unit <? 2 * r)%Z || ((unit =? 2 * r)%Z && Z.odd q) in
    ((if up then q + 1 else q) * unit)%Z.

(** The number value of an integer: what rounds to [2 ^ 1024] or more
    is infinite. *)
Definition to_double (z : Z) : Number :=
  let m := round_magnitude (Z.abs z) in
  if (2 ^ 1024 <=? m)%Z then Infinity (z <? 0)%Z else Finite (Z.sgn z * m)%Z.

(** ** [parseInt(s)] with no radix argument

    Leading white space (of the ASCII range) is skipped, one sign is
    read, a [0x] or [0X] prefix selects base sixteen, then digits are
    read up to the first character that is not a digit of the base.  No
    digit at all gives [NaN]; otherwise the result is the number value
    of the integer read.  (Beyond twenty significant decimal digits an
    engine may round from an approximation of the integer; Node's does
    not.) *)
Definition is_ws (c : ascii) : bool :=
  let n := nat_of_ascii c in
  (n =? 32)%nat || ((9 <=? n)%nat && (n <=? 13)%nat).

Fixpoint skip_ws (s : string) : string :=
  match s with
  | String c r => if is_ws c then skip_ws r else s
  | EmptyString => s
  end.

Definition digit_val (radix : Z) (c : ascii) : option Z :=
  let n := Z.of_nat (nat_of_ascii c) in
  let v := if ((48 <=? n) && (n <=? 57))%Z then Some (n - 48)%Z
           else if ((97 <=? n) && (n <=? 122))%Z then Some (n - 87)%Z
           else if ((65 <=? n) && (n <=? 90))%Z then Some (n - 55)%Z
           else None in
  match v with
  | Some d => if (d <? radix)%Z then Some d else None
  | None => None
  end.

Fixpoint read_digits (radix : Z) (acc : option Z) (s : string) : option Z :=
  match s with
  | EmptyString => acc
  | String c r =>
      match digit_val radix c with
      | Some d => read_digits radix (Some (default 0 acc * radix + d)%Z) r
      | None => acc
      end
  end.

Definition read_sign (s : string) : bool * string :=
  match s with
  | String "-" r => (true, r)
  | String "+" r => (false, r)
  | _ => (false, s)
  end.

Definition read_radix (s : string) : Z * string :=
  match s with
  | String "0" (String "x" r) => (16%Z, r)
  | String "0" (String "X" r) => (16%Z, r)
  | _ => (10%Z, s)
  end.

Definition parseInt (s : string) : Number :=
  let '(neg, s1) := read_sign (skip_ws s) in
  let '(radix, s2) := read_radix s1 in
  match read_digits radix None s2 with
  | None => NaN
  | Some v => to_double (if neg then (- v)%Z else v)
  end.

(** ** JSON values, as [res.json] sends them.  [JDate] stands for the
    ISO-8601 text of an instant given in milliseconds. *)
#[warnings="-register-all"]
Inductive JSON :=
| JNull
| JBool (b : bool)
| JNum (n : Z)
| JStr (s : string)
| JDate (ms : Z)
| JArr (items : list JSON)
| JObj (fields : list (string * JSON)).

(** The keys of an object, in order; no key for any other value. *)
Definition keys (j : JSON) : list string :=
  match j with
  | JObj fields => map fst fields
  | _ => []
  end.

(** Field access [j.k]; [None] is [undefined]. *)
Definition field (k : string) (j : JSON) : option JSON :=
  match j with
  | JObj fields => snd <$> find (fun kv => bool_decide (kv.1 = k)) fields
  | _ => None
  end.

(** Every key that occurs anywhere inside a value. *)
Fixpoint all_keys (j : JSON) : list string :=
  match j with
  | JArr items => flat_map all_keys items
  | JObj fields => flat_map (fun kv => kv.1 :: all_keys kv.2) fields
  | _ => []
  end.

Definition json_opt_str (o : option string) : JSON :=
  match o with Some s => JStr s | None => JNull end.

(** An Express response: status code and JSON body. *)
Record Response := mkResponse { res_status : Z; res_body : JSON }.

Definition failure (code : Z) (msg : string) : Response :=
  mkResponse code (JObj [("success", JBool false); ("error", JStr msg)]).

End Js.

(* ================================================================== *)
(** * The [expenses] table and the event listener *)
(* ================================================================== *)

Module Db.

(** One row of [expenses], column for column.  Instants are milliseconds
    since the epoch. *)
Record Expense := mkExpense {
  id : Z;
  userAddress : string;
  cid : string;
  submissionHash : string;
  txHash : string;
  blockNumber : option string;
  timestamp : Z;
  category : option string;
  note : option string;
  status : string;
  createdAt : Z;
  updatedAt : Z
}.

#[export] Instance Expense_eq_dec : EqDecision Expense.
Proof. solve_decision. Defined.

(** The table: its rows in insertion order. *)
Record Store := mkStore { rows : list Expense }.

(** What the database contributes to one write: the instant of the
    write, and the primary key a row inserted by it receives (the
    [AUTOINCREMENT] column; the database keeps keys apart). *)
Record Write := mkWrite { instant : Z; key : Z }.

#[export] Instance Store_eq_dec : EqDecision Store.
Proof. solve_decision. Defined.

Definition empty : Store := {| rows := [] |}.

(** What a caller passes as [create].  Columns with a database default
    may be left out: [timestamp] ([CURRENT_TIMESTAMP]), [status]
    (['pending']), and the nullable [blockNumber], [category], [note].
    A [timestamp] that is given is a [Date] object: [Some ms] stands for
    [new Date(ms)]. *)
Record CreateInput := mkCreate {
  c_userAddress : string;
  c_cid : string;
  c_submissionHash : string;
  c_txHash : string;
  c_blockNumber : option string;
  c_timestamp : option Z;
  c_category : option string;
  c_note : option string;
  c_status : option string
}.

Inductive Result (A : Type) :=
| Done (a : A)
| Failed (message : string).
Arguments Done {A} a.
Arguments Failed {A} message.

(** [new Date(ms)] is a date only when [ms] lies within 8.64e15
    milliseconds of the epoch; outside that range it is the invalid
    date. *)
Definition valid_Date (ms : Z) : bool :=
  (-8640000000000000 <=? ms)%Z && (ms <=? 8640000000000000)%Z.

(** The client checks the arguments of a query before it sends anything
    to the database, and refuses an invalid date. *)
Definition valid_create (c : CreateInput) : bool :=
  match c_timestamp c with
  | Some ms => valid_Date ms
  | None => true
  end.

Definition has_cid (c : string) (r : Expense) : bool := bool_decide (cid r = c).

Definition has_submissionHash (h : string) (r : Expense) : bool :=
  bool_decide (submissionHash r = h).

(** [findUnique({ where: { cid } })] *)
Definition findUnique (c : string) (s : Store) : option Expense :=
  find (has_cid c) (rows s).

(** The row an insert writes.  [createdAt] takes its
    [CURRENT_TIMESTAMP] default; [updatedAt] is [NOT NULL] with no
    default and no caller supplies it, so the client stamps it with the
    instant of the write. *)
Definition new_row (now : Write) (c : CreateInput) : Expense :=
  {| id := key now;
     userAddress := c_userAddress c;
     cid := c_cid c;
     submissionHash := c_submissionHash c;
     txHash := c_txHash c;
     blockNumber := c_blockNumber c;
     timestamp := default (instant now) (c_timestamp c);
     category := c_category c;
     note := c_note c;
     status := default "pending" (c_status c);
     createdAt := instant now;
     updatedAt := instant now |}.

(** An insert fails on either unique index: [expenses_cid_key] or
    [expenses_submissionHash_key].  The message is the client's; no
    caller in the source looks at it. *)
Definition insert (now : Write) (c : CreateInput) (s : Store) : Result Store :=
  if existsb (has_cid (c_cid c)) (rows s) then
    Failed "Unique constraint failed on the fields: (`cid`)"
  else if existsb (has_submissionHash (c_submissionHash c)) (rows s) then
    Failed "Unique constraint failed on the fields: (`submissionHash`)"
  else
    Done {| rows := rows s ++ [new_row now c] |}.

(** The row after a write of [status] at instant [now]: the new status,
    the refreshed [updatedAt], every other column as before. *)
Definition set_status (v : string) (now : Z) (r : Expense) : Expense :=
  {| id := id r;
     userAddress := userAddress r;
     cid := cid r;
     submissionHash := submissionHash r;
     txHash := txHash r;
     blockNumber := blockNumber r;
     timestamp := timestamp r;
     category := category r;
     note := note r;
     status := v;
     createdAt := createdAt r;
     updatedAt := now |}.

(** [update: { status: v }] on the row selected by [cid].  As at insert,
    the client stamps [updatedAt] with the instant of the write. *)
Definition update_status (now : Z) (c : string) (v : string) (s : Store) : Store :=
  {| rows := map (fun r => if has_cid c r then set_status v now r else r) (rows s) |}.

(** [upsert({ where: { cid }, create, update: { status } })].  The
    [create] argument is checked whether or not the row exists.  As for
    [insert], the message is the client's and no caller looks at it. *)
Definition upsert_status (now : Write) (c : string) (create : CreateInput)
    (v : string) (s : Store) : Result Store :=
  if negb (valid_create create) then
    Failed "Invalid value for argument `timestamp`: Provided Date object is invalid. Expected Date."
  else
    match findUnique c s with
    | Some _ => Done (update_status (instant now) c v s)
    | None => insert now create s
    end.

End Db.

Module Indexer.
Import Db.

(** The arguments the subscription callback receives for one
    [ExpenseAttested] event. *)
Record EventArgs := mkArgs {
  arg_user : string;
  arg_submissionHash : string;
  arg_cid : string;
  arg_timestamp : Z;
  arg_txMeta : string
}.

(** The [create] payload of the handler, with [new Date(Number(timestamp)
    * 1000)] for its [timestamp].  As long as the product is within the
    range of dates it is below [2 ^ 53], and [Number] and the
    multiplication are exact; a larger product is outside the range
    whatever its rounding, and the date is invalid. *)
Definition create_payload (e : EventArgs) : CreateInput :=
  {| c_userAddress := Js.toLowerCase (arg_user e);
     c_cid := arg_cid e;
     c_submissionHash := arg_submissionHash e;
     c_txHash := "pending";
     c_blockNumber := None;
     c_timestamp := Some (arg_timestamp e * 1000)%Z;
     c_category := None;
     c_note := None;
     c_status := Some "confirmed" |}.

Definition try_handle (now : Write) (e : EventArgs) (s : Store) : Result Store :=
  upsert_status now (arg_cid e) (create_payload e) "confirmed" s.

(** Whether the block time of an event makes a valid date. *)
Definition in_Date_range (e : EventArgs) : bool := valid_create (create_payload e).

(** [handleExpenseAttested]: the upsert inside [try]; a failure is logged
    and the event dropped, so the store stays as it was. *)
Definition handleExpenseAttested (now : Write) (e : EventArgs) (s : Store) : Store :=
  match try_handle now e s with
  | Done s' => s'
  | Failed _ => s
  end.

(** A delivery is an event together with what the database contributes
    when it is handled. *)
Definition deliver (s : Store) (d : Write * EventArgs) : Store :=
  handleExpenseAttested d.1 d.2 s.

Definition deliver_all (ds : list (Write * EventArgs)) (s : Store) : Store :=
  foldl deliver s ds.

(** ** Decoding of ledger events

    The chain client hands the indexed [address] and [bytes32] arguments
    and the [bytes] argument to the callback as hexadecimal text.  The
    renderings belong to the client library and are parameters here. *)
Record Abi := mkAbi {
  abi_address : N -> string;
  abi_bytes32 : N -> string;
  abi_bytes : string -> string
}.

Definition decode (abi : Abi) (e : Ledger.Attested) : EventArgs :=
  {| arg_user := abi_address abi (Ledger.ev_user e);
     arg_submissionHash := abi_bytes32 abi (Ledger.ev_submissionHash e);
     arg_cid := Ledger.ev_cid e;
     arg_timestamp := Z.of_N (Ledger.ev_timestamp e);
     arg_txMeta := abi_bytes abi (Ledger.ev_txMeta e) |}.

(** ** Vocabulary for the properties *)

(** A row with its [updatedAt] column blanked: everything else a row
    holds. *)
Definition content (r : Expense) : Expense := set_status (status r) 0 r.

(** Two stores hold the same rows up to [updatedAt]. *)
Definition same_content (s1 s2 : Store) : Prop :=
  map content (rows s1) = map content (rows s2).

(** What confirming the content address [c] does to a row. *)
Definition confirm (now : Write) (c : string) (r : Expense) : Expense :=
  if has_cid c r then set_status "confirmed" (instant now) r else r.

(** ** The four ways a delivery can end *)

Inductive handled (now : Write) (e : EventArgs) (s : Store) : Store -> Prop :=
| handled_update r :
    in_Date_range e = true ->
    findUnique (arg_cid e) s = Some r ->
    handled now e s {| rows := map (confirm now (arg_cid e)) (rows s) |}
| handled_insert :
    in_Date_range e = true ->
    findUnique (arg_cid e) s = None ->
    existsb (has_submissionHash (arg_submissionHash e)) (rows s) = false ->
    handled now e s {| rows := rows s ++ [new_row now (create_payload e)] |}
| handled_dropped :
    in_Date_range e = true ->
    findUnique (arg_cid e) s = None ->
    existsb (has_submissionHash (arg_submissionHash e)) (rows s) = true ->
    handled now e s s
| handled_refused :
    in_Date_range e = false ->
    handled now e s s.

Definition cids_of (s : Store) : list string := map cid (rows s).

(** A row stems from an attestation of the log [log], as decoded with
    [abi]. *)
Definition from_log (abi : Abi) (log : list Ledger.Attested) (r : Expense) : Prop :=
  exists a, a ∈ log /\ Db.cid r = Ledger.ev_cid a
    /\ Db.submissionHash r = abi_bytes32 abi (Ledger.ev_submissionHash a).

Definition replay_inv (abi : Abi) (log : list Ledger.Attested) (s : Store) : Prop :=
  NoDup (cids_of s) /\ forall r, r ∈ rows s -> from_log abi log r.

(** A row with [status] and [updatedAt] blanked. *)
Definition frame (r : Expense) : Expense := set_status "" 0 r.

(** [r'] is [r] later on: the same row, its status kept or confirmed. *)
Definition advances (r r' : Expense) : Prop :=
  frame r' = frame r /\ (status r' = status r \/ status r' = "confirmed").

End Indexer.

(* ================================================================== *)
(** * The read routes over the table ([routes/records.ts]) *)
(* ================================================================== *)

Module Api.
Import Db Js.

(** The query string of [GET /]: each parameter is absent or text. *)
Record Query := mkQuery {
  q_limit : option string;
  q_category : option string;
  q_userAddress : option string
}.

(** The [where] object: a filter is set only for a truthy parameter. *)
Definition where_category (q : Query) (r : Expense) : bool :=
  match q_category q with
  | Some c => if truthy c then bool_decide (category r = Some c) else true
  | None => true
  end.

Definition where_userAddress (q : Query) (r : Expense) : bool :=
  match q_userAddress q with
  | Some u => if truthy u then bool_decide (userAddress r = toLowerCase u) else true
  | None => true
  end.

Definition matches (q : Query) (r : Expense) : bool :=
  where_category q r && where_userAddress q r.

(** [orderBy: { timestamp: "desc" }] *)
Definition newer_first (r1 r2 : Expense) : Prop := (timestamp r2 <= timestamp r1)%Z.

#[export] Instance newer_first_dec r1 r2 : Decision (newer_first r1 r2).
Proof. unfold newer_first. apply _. Defined.

#[export] Instance newer_first_total : Total newer_first.
Proof. intros r1 r2. unfold newer_first. lia. Qed.

#[export] Instance newer_first_trans : Transitive newer_first.
Proof. intros r1 r2 r3. unfold newer_first. lia. Qed.

(** The opposite order, which the client asks of the database when
    [take] is negative. *)
Definition older_first (r1 r2 : Expense) : Prop := (timestamp r1 <= timestamp r2)%Z.

#[export] Instance older_first_dec r1 r2 : Decision (older_first r1 r2).
Proof. unfold older_first. apply _. Defined.

#[export] Instance older_first_total : Total older_first.
Proof. intros r1 r2. unfold older_first. lia. Qed.

#[export] Instance older_first_trans : Transitive older_first.
Proof. intros r1 r2 r3. unfold older_first. lia. Qed.

(** ** The database client

    [ORDER BY timestamp] settles the order of rows with different
    timestamps.  In which order rows with the same timestamp come back
    is left to the database, so the two orderings are parameters, known
    only to return the rows they were given, in order.

    What the client makes of the number it is given for [take] is a
    parameter as well: [Done n] when it asks the database for [n] rows,
    [Failed] with the message of its error when it refuses the query.
    It takes an integer that JavaScript holds exactly as it is, and it
    refuses what is not a number and what does not fit a signed 64-bit
    word. *)
Record Database := mkDatabase {
  order_desc : list Expense -> list Expense;
  order_asc : list Expense -> list Expense;
  read_take : Number -> Result Z;
  order_desc_Permutation : forall l, order_desc l ≡ₚ l;
  order_desc_sorted : forall l, StronglySorted newer_first (order_desc l);
  order_asc_Permutation : forall l, order_asc l ≡ₚ l;
  order_asc_sorted : forall l, StronglySorted older_first (order_asc l);
  read_take_exact : forall z, (Z.abs z < 2 ^ 53)%Z -> read_take (Finite z) = Done z;
  read_take_refused : forall n,
    (forall z, n = Finite z -> (z < - 2 ^ 63 \/ 2 ^ 63 <= z)%Z) ->
    exists message, read_take n = Failed message
}.

Section Reads.
Context (db : Database).

(** [findMany({ where, orderBy: { timestamp: "desc" }, take: n })]: the
    first [n] rows of the ordered result.  For a negative [n] the client
    asks for the first [-n] rows in the opposite order and reverses what
    it gets: the last [-n] rows of the ordering. *)
Definition findMany (q : Query) (n : Z) (s : Store) : list Expense :=
  let found := List.filter (matches q) (rows s) in
  if (0 <=? n)%Z then firstn (Z.to_nat n) (order_desc db found)
  else rev (firstn (Z.to_nat (- n)) (order_asc db found)).

End Reads.

Definition expense_json (r : Expense) : JSON :=
  JObj [("id", JNum (id r));
        ("userAddress", JStr (userAddress r));
        ("cid", JStr (cid r));
        ("submissionHash", JStr (submissionHash r));
        ("txHash", JStr (txHash r));
        ("blockNumber", json_opt_str (blockNumber r));
        ("timestamp", JDate (timestamp r));
        ("category", json_opt_str (category r));
        ("note", json_opt_str (note r));
        ("status", JStr (status r));
        ("createdAt", JDate (createdAt r));
        ("updatedAt", JDate (updatedAt r))].

(** The [take] argument of the handler: [parseInt(limit)] with [limit]
    defaulting to ["50"] when the parameter is absent. *)
Definition take_arg (q : Query) : Number := parseInt (default "50" (q_limit q)).

Section Routes.
Context (db : Database).

(** The rows the handler of [GET /] reads; [None] when the client
    refuses the query because of its [take]. *)
Definition listRecords_rows (q : Query) (s : Store) : option (list Expense) :=
  match read_take db (take_arg q) with
  | Done n => Some (findMany db q n s)
  | Failed _ => None
  end.

(** [GET /]: the error of a refused query is caught and answered 500
    with its message. *)
Definition listRecords (q : Query) (s : Store) : Response :=
  match read_take db (take_arg q) with
  | Done n =>
      let records := findMany db q n s in
      mkResponse 200 (JObj [("success", JBool true);
                            ("count", JNum (Z.of_nat (length records)));
                            ("records", JArr (map expense_json records))])
  | Failed message => failure 500 message
  end.

End Routes.

(** [GET /:cid] *)
Definition getRecord (c : string) (s : Store) : Response :=
  match findUnique c s with
  | None => failure 404 "Record not found"
  | Some record =>
      mkResponse 200 (JObj [("success", JBool true); ("record", expense_json record)])
  end.

Definition proof_json (record : Expense) : JSON :=
  JObj [("cid", JStr (cid record));
        ("submissionHash", JStr (submissionHash record));
        ("txHash", JStr (txHash record));
        ("blockNumber", json_opt_str (blockNumber record));
        ("timestamp", JDate (timestamp record));
        ("userAddress", JStr (userAddress record));
        ("category", json_opt_str (category record))].

(** The keys of a proof object. *)
Definition proof_fields : list string :=
  ["cid"; "submissionHash"; "txHash"; "blockNumber"; "timestamp"; "userAddress"; "category"].

(** [GET /proof/:cid] *)
Definition getProof (c : string) (s : Store) : Response :=
  match findUnique c s with
  | None => failure 404 "Proof not found"
  | Some record =>
      mkResponse 200 (JObj [("success", JBool true);
                            ("proof", proof_json record);
                            ("encrypted", JBool true)])
  end.

End Api.

(* ================================================================== *)
(** * Content store and coprocessor services, and [POST /aggregate] *)
(* ================================================================== *)

Module Services.
Import Js.

(** ** Configuration read from [process.env] *)

(** [a || b] on an environment variable: unset and empty are falsy. *)
Definition or_else (a : option string) (b : string) : string :=
  match a with
  | Some s => if truthy s then s else b
  | None => b
  end.

Section Config.
Variable env : gmap string string.

Definition COPROCESSOR_URL : string :=
  or_else (env !! "COPROCESSOR_URL") (or_else (env !! "VITE_COPROCESSOR_URL") "").
Definition HMAC_SECRET : string :=
  or_else (env !! "COPROC_HMAC_KEY") (or_else (env !! "VITE_COPROC_HMAC_KEY") "demo-secret").
Definition PINATA_API_KEY : string :=
  or_else (env !! "PINATA_API_KEY") (or_else (env !! "VITE_IPFS_API_KEY") "").
Definition PINATA_SECRET_API_KEY : string :=
  or_else (env !! "PINATA_SECRET_API_KEY") (or_else (env !! "IPFS_API_SECRET") "").
Definition IPFS_GATEWAY_URL : string :=
  or_else (env !! "IPFS_GATEWAY_URL") "https://gateway.pinata.cloud/ipfs".
End Config.

(** ** Promises with their network effects *)

Inductive Outcome (A : Type) :=
| Resolved (a : A)
| Rejected (message : string).
Arguments Resolved {A} a.
Arguments Rejected {A} message.

(** The requests a computation sends out. *)
Inductive Effect :=
| HttpGet (url : string)
| EnginePost (url : string) (payload : JSON) (signature : string)
| PinataPost (file : string).

(** An asynchronous computation: the requests it made, in order, and how
    it settled. *)
Definition Async (A : Type) : Type := list Effect * Outcome A.

#[export] Instance async_ret : MRet Async := fun A a => ([], Resolved a).

#[export] Instance async_bind : MBind Async := fun A B k m =>
  match m with
  | (t, Resolved a) => let '(t', o) := k a in (t ++ t', o)
  | (t, Rejected msg) => (t, Rejected msg)
  end.

Definition reject {A} (msg : string) : Async A := ([], Rejected msg).

(** [try { body } catch (error) { handler(error.message) }] *)
Definition try_catch {A} (body : Async A) (handler : string -> Async A) : Async A :=
  match body with
  | (t, Resolved a) => (t, Resolved a)
  | (t, Rejected msg) => let '(t', o) := handler msg in (t ++ t', o)
  end.

(** How a promise settled. *)
Definition rejection {A} (p : Async A) : option string :=
  match p.2 with Rejected msg => Some msg | Resolved _ => None end.

Definition resolution {A} (p : Async A) : option A :=
  match p.2 with Resolved a => Some a | Rejected _ => None end.

(** A promise that is rejected before it waits for anything. *)
Definition immediate_rejection {A} (p : Async A) : option string :=
  match p with ([], Rejected msg) => Some msg | _ => None end.

(** [Promise.all]: every promise of the list has been started, so all
    their requests are made.  It resolves with the list of values when
    all resolve, and rejects with the first rejection otherwise: a
    promise rejected at once comes before any that waited for an answer;
    among those that waited the order depends on timing, and list order
    stands in for it here. *)
Definition promise_all {A} (ps : list (Async A)) : Async (list A) :=
  (concat (map fst ps),
   match head (omap immediate_rejection ps), head (omap rejection ps) with
   | Some msg, _ => Rejected msg
   | None, Some msg => Rejected msg
   | None, None => Resolved (omap resolution ps)
   end).

Definition engine_posts (t : list Effect) : list Effect :=
  List.filter (fun e => match e with EnginePost _ _ _ => true | _ => false end) t.

(** ** What lies outside the process *)

Record CoprocessorResponse := mkCoprocResponse {
  resultCiphertext : string;
  proof : option string;
  coprocVersion : string;
  meta_op : string;
  meta_itemsCount : Z
}.

Record AggregateResult := mkAggregate {
  outputCiphertext : string;
  agg_op : string;
  agg_itemsCount : Z;
  coprocessorVersion : string
}.

(** Answers of the outside world. *)
Record World := mkWorld {
  (** [axios.get(url)]: the body, or the error message *)
  http_get : string -> Outcome string;
  (** [axios.post] to the coprocessor: [response.data], or an error *)
  engine_post : string -> JSON -> string -> Outcome CoprocessorResponse;
  (** the pinning service: [response.data.IpfsHash] if present, or an error *)
  pinata_pin : string -> Outcome (option string);
  (** [Date.now()] *)
  date_now : Z;
  (** [Math.random().toString(36).substring(2, 15)] *)
  random_suffix : string;
  (** the i-th value of [Math.floor(Math.random() * 1000)] in one mock call *)
  random_floor : nat -> Z
}.

(** Library routines the services call. *)
Record Lib := mkLib {
  base64_encode : string -> string;
  base64_decode : string -> string;
  hmac_sha256_hex : string -> string -> string;
  JSON_stringify : JSON -> string;
  (** the text a template literal makes of a value that is not text *)
  String_of : JSON -> string
}.

Section Handlers.
Context (lib : Lib) (env : gmap string string) (w : World).

(** ** [IPFSService] *)

Definition getMockCid : string :=
  "QmMockDemo" +:+ pretty (date_now w) +:+ random_suffix w.

Definition uploadToPinata (buffer : string) : Async string :=
  match pinata_pin w buffer with
  | Resolved (Some h) =>
      if truthy h then ([PinataPost buffer], Resolved h)
      else ([PinataPost buffer], Rejected "No CID returned from Pinata")
  | Resolved None => ([PinataPost buffer], Rejected "No CID returned from Pinata")
  | Rejected msg => ([PinataPost buffer], Rejected msg)
  end.

Definition upload (ciphertext : string) : Async string :=
  try_catch
    (if negb (truthy (PINATA_API_KEY env)) || negb (truthy (PINATA_SECRET_API_KEY env))
     then mret getMockCid
     else uploadToPinata (base64_decode lib ciphertext))
    (fun _ => mret getMockCid).

Definition is_mock_cid (cid : string) : bool :=
  includes cid "Mock" || bool_decide (cid = "QmYwAPJzv5CZsnAMockCID12345").

(** The [try] block of [retrieve], for the text [cid] that the
    template literal puts into the address. *)
Definition gateway_get (cid : string) : Async string :=
  let url := IPFS_GATEWAY_URL env +:+ "/" +:+ cid in
  match http_get w url with
  | Resolved data => ([HttpGet url], Resolved (base64_encode lib data))
  | Rejected msg => ([HttpGet url], Rejected ("IPFS retrieval failed: " +:+ msg))
  end.

Definition retrieve (cid : string) : Async string :=
  if is_mock_cid cid then reject "Mock CID detected - skipping"
  else gateway_get cid.

(** ** [CoprocessorService] *)

Definition mockAmounts (ciphertexts : list string) : list Z :=
  imap (fun i _ => (random_floor w i + 10)%Z) ciphertexts.

(** [amounts.reduce((a, b) => a + b, 0)] *)
Definition reduce_sum (amounts : list Z) : Z := fold_left Z.add amounts 0%Z.

(** [Math.max(...amounts)] and [Math.min(...amounts)]; [None] is the
    infinity they give for no argument. *)
Definition Math_max (amounts : list Z) : option Z :=
  match amounts with
  | [] => None
  | a :: rest => Some (fold_left Z.max rest a)
  end.

Definition Math_min (amounts : list Z) : option Z :=
  match amounts with
  | [] => None
  | a :: rest => Some (fold_left Z.min rest a)
  end.

(** The value of [result] after the [switch]; [None] is a non-finite
    number, which [JSON.stringify] writes as [null]. *)
Definition mock_result (op : string) (amounts : list Z) : option Z :=
  if bool_decide (op = "sum") then Some (reduce_sum amounts)
  else if bool_decide (op = "max") then Math_max amounts
  else if bool_decide (op = "min") then Math_min amounts
  else if bool_decide (op = "avg") then
    match amounts with
    | [] => None
    | _ => Some (reduce_sum amounts / Z.of_nat (length amounts))%Z
    end
  else Some (reduce_sum amounts).

Definition json_number (v : option Z) : JSON :=
  match v with Some n => JNum n | None => JNull end.

Definition callMockCoprocessor (ciphertexts : list string) (op : string)
    : Async CoprocessorResponse :=
  let result := mock_result op (mockAmounts ciphertexts) in
  let mockResultCiphertext :=
    base64_encode lib
      (JSON_stringify lib (JObj [("value", json_number result); ("type", JStr "euint64")])) in
  mret {| resultCiphertext := mockResultCiphertext;
          proof := None;
          coprocVersion := "v0.9-mock";
          meta_op := op;
          meta_itemsCount := Z.of_nat (length ciphertexts) |}.

Definition request_payload (ciphertexts : list string) (op : string) : JSON :=
  JObj [("ciphertexts", JArr (map JStr ciphertexts));
        ("op", JStr op);
        ("targetType", JStr "euint64");
        ("outputFormat", JStr "ciphertext")].

Definition callRealCoprocessor (ciphertexts : list string) (op : string)
    : Async CoprocessorResponse :=
  if negb (truthy (COPROCESSOR_URL env)) then callMockCoprocessor ciphertexts op
  else
    let payload := request_payload ciphertexts op in
    let signature := hmac_sha256_hex lib (HMAC_SECRET env) (JSON_stringify lib payload) in
    try_catch
      (match engine_post w (COPROCESSOR_URL env) payload signature with
       | Resolved data => ([EnginePost (COPROCESSOR_URL env) payload signature], Resolved data)
       | Rejected msg => ([EnginePost (COPROCESSOR_URL env) payload signature], Rejected msg)
       end)
      (fun _ => callMockCoprocessor ciphertexts op).

(** The body of [aggregate], for any way [fetch] of retrieving one
    element of [cids]. *)
Definition aggregate_with {X} (fetch : X -> Async string) (cids : list X) (op : string)
    : Async AggregateResult :=
  try_catch
    (ciphertexts ← promise_all (map fetch cids);
     response ← callRealCoprocessor ciphertexts op;
     mret {| outputCiphertext := resultCiphertext response;
             agg_op := op;
             agg_itemsCount := Z.of_nat (length cids);
             coprocessorVersion := coprocVersion response |})
    (fun message => reject ("Coprocessor aggregation failed: " +:+ message)).

(** [aggregate(cids: string[], op: string)] *)
Definition aggregate (cids : list string) (op : string) : Async AggregateResult :=
  aggregate_with retrieve cids op.

(** ** [POST /aggregate] *)

(** [!v] *)
Definition falsy (v : JSON) : bool :=
  match v with
  | JNull => true
  | JBool b => negb b
  | JNum n => bool_decide (n = 0%Z)
  | JStr s => negb (truthy s)
  | _ => false
  end.

Definition valid_ops : list string := ["sum"; "max"; "min"; "avg"].

(** [["sum", "max", "min", "avg"].includes(op)] *)
Definition op_allowed (op : JSON) : option string :=
  match op with
  | JStr s => if bool_decide (s ∈ valid_ops) then Some s else None
  | _ => None
  end.

(** [v === text] *)
Definition is_text (text : string) (v : JSON) : bool :=
  match v with
  | JStr s => bool_decide (s = text)
  | _ => false
  end.

(** [retrieve] on an element of the request's array, which nothing
    forces to be text.  An array has an [includes] of its own, which
    looks for an element equal to "Mock"; an array without one is
    fetched under the text the template literal makes of it.  [null]
    has no properties, and a number, a boolean or an object has no
    [includes] to call: the mock test throws, outside the [try], and
    the promise is rejected with the engine's type error. *)
Definition retrieve_item (item : JSON) : Async string :=
  match item with
  | JStr cid => retrieve cid
  | JArr items =>
      if existsb (is_text "Mock") items then reject "Mock CID detected - skipping"
      else gateway_get (String_of lib item)
  | JNull => reject "Cannot read properties of null (reading 'includes')"
  | _ => reject "cid.includes is not a function"
  end.

Definition aggregate_result_json (r : AggregateResult) : JSON :=
  JObj [("success", JBool true);
        ("outputCiphertext", JStr (outputCiphertext r));
        ("meta", JObj [("op", JStr (agg_op r));
                       ("itemsCount", JNum (agg_itemsCount r));
                       ("coprocessorVersion", JStr (coprocessorVersion r))])].

Definition bad_cids : string := "cids array is required and must not be empty".
Definition bad_op : string := "Invalid operation. Must be: sum, max, min, avg".

Definition isArray (v : JSON) : bool :=
  match v with JArr _ => true | _ => false end.

Definition items_of (v : JSON) : list JSON :=
  match v with JArr items => items | _ => [] end.

(** [!cids || !Array.isArray(cids) || cids.length === 0]; [None] is
    [undefined]. *)
Definition cids_rejected (cids : option JSON) : bool :=
  match cids with
  | None => true
  | Some v => falsy v || negb (isArray v) || bool_decide (length (items_of v) = 0%nat)
  end.

(** The handler: the requests it caused and the response it sent.
    [body] is [req.body]; [op] defaults to ["sum"] when absent. *)
Definition post_aggregate (body : JSON) : list Effect * Response :=
  let cids := field "cids" body in
  let op := default (JStr "sum") (field "op" body) in
  if cids_rejected cids then ([], failure 400 bad_cids)
  else
    match op_allowed op with
    | None => ([], failure 400 bad_op)
    | Some op_text =>
        match aggregate_with retrieve_item (items_of (default JNull cids)) op_text with
        | (t, Resolved result) => (t, mkResponse 200 (aggregate_result_json result))
        | (t, Rejected message) => (t, failure 500 message)
        end
    end.

(** ** Health checks *)

(** [CoprocessorService.healthCheck] *)
Definition coproc_healthCheck : Async JSON :=
  try_catch
    (testResponse ← callMockCoprocessor ["test"] "sum";
     mret (JObj [("success", JBool true);
                 ("status", JStr "mock");
                 ("version", JStr (coprocVersion testResponse));
                 ("message", JStr "Using mock coprocessor for demo")]))
    (fun message => mret (JObj [("success", JBool false); ("error", JStr message)])).

(** [GET /health] of the coprocessor router *)
Definition get_coproc_health : list Effect * Response :=
  match coproc_healthCheck with
  | (t, Resolved health) => (t, mkResponse 200 health)
  | (t, Rejected message) => (t, failure 500 message)
  end.

Definition health_probe : string := "QmYjtig7VJQ6XsnUjqqJvj7QaMcCAwtrgNdahSiFofrE7o".

(** [IPFSService.healthCheck] *)
Definition ipfs_healthCheck : Async bool :=
  let url := IPFS_GATEWAY_URL env +:+ "/" +:+ health_probe in
  try_catch
    (match http_get w url with
     | Resolved _ => ([HttpGet url], Resolved true)
     | Rejected msg => ([HttpGet url], Rejected msg)
     end)
    (fun _ => mret false).

(** ** The content-store routes ([routes/ipfs.ts]) *)

(** [Buffer.from(v, "base64")].  Text is decoded leniently and never
    throws.  What the runtime makes of a value of another kind (the
    bytes of an array, a type error for a number) is [from_value]. *)
Definition Buffer_from (from_value : JSON -> Outcome string) (v : JSON) : Outcome string :=
  match v with
  | JStr text => Resolved (base64_decode lib text)
  | _ => from_value v
  end.

(** [ipfsService.upload(v)] for whatever the request carried. *)
Definition upload_value (from_value : JSON -> Outcome string) (v : JSON) : Async string :=
  try_catch
    (if negb (truthy (PINATA_API_KEY env)) || negb (truthy (PINATA_SECRET_API_KEY env))
     then mret getMockCid
     else match Buffer_from from_value v with
          | Resolved buffer => uploadToPinata buffer
          | Rejected message => reject message
          end)
    (fun _ => mret getMockCid).

Definition maxSize : Z := (2 * 1024 * 1024)%Z.

Definition no_ciphertext : string := "ciphertext is required".

Definition too_large (sizeInBytes : Z) : string :=
  "Ciphertext too large: " +:+ pretty sizeInBytes +:+ " bytes (max: " +:+ pretty maxSize +:+ ")".

(** [POST /upload] *)
Definition post_upload (from_value : JSON -> Outcome string) (body : JSON)
    : list Effect * Response :=
  match field "ciphertext" body with
  | None => ([], failure 400 no_ciphertext)
  | Some ciphertext =>
      if falsy ciphertext then ([], failure 400 no_ciphertext)
      else
        match Buffer_from from_value ciphertext with
        | Rejected message => ([], failure 500 message)
        | Resolved buffer =>
            let sizeInBytes := Z.of_nat (String.length buffer) in
            if (maxSize <? sizeInBytes)%Z then ([], failure 400 (too_large sizeInBytes))
            else
              match upload_value from_value ciphertext with
              | (t, Resolved cid) =>
                  (t, mkResponse 200 (JObj [("success", JBool true); ("cid", JStr cid)]))
              | (t, Rejected message) => (t, failure 500 message)
              end
        end
  end.

(** [GET /:cid] of the content-store router *)
Definition get_content (cid : string) : list Effect * Response :=
  match retrieve cid with
  | (t, Resolved content) =>
      (t, mkResponse 200 (JObj [("success", JBool true);
                                ("cid", JStr cid);
                                ("encrypted", JBool true);
                                ("data", JStr content)]))
  | (t, Rejected message) => (t, failure 500 message)
  end.

End Handlers.

End Services.

(* ================================================================== *)
(** * The listener's life cycle and its scan of recent blocks *)
(* ================================================================== *)

Module Listener.
Import Js Db Indexer Services.

(** The chain node behind the provider, as the listener sees it during
    one call. *)
Record Node := mkNode {
  (** [provider.getBlockNumber()] *)
  getBlockNumber : Outcome Z;
  (** the contract's [ExpenseAttested] logs, oldest first, each with the
      number of its block *)
  chain_logs : list (Z * EventArgs);
  (** the error of the log query, if the node refuses it *)
  getLogs_error : option string
}.

Definition in_blocks (fromBlock toBlock : Z) (l : Z * EventArgs) : bool :=
  (fromBlock <=? l.1)%Z && (l.1 <=? toBlock)%Z.

(** [contract.queryFilter(contract.filters.ExpenseAttested(), fromBlock,
    toBlock)]: the logs of the blocks [fromBlock] to [toBlock], both
    included. *)
Definition queryFilter (node : Node) (fromBlock toBlock : Z)
    : Outcome (list (Z * EventArgs)) :=
  match getLogs_error node with
  | Some message => Rejected message
  | None => Resolved (List.filter (in_blocks fromBlock toBlock) (chain_logs node))
  end.

(** The block the scan starts from: [Math.max(0, currentBlock - 10)]. *)
Definition fromBlock_of (currentBlock : Z) : Z := Z.max 0 (currentBlock - 10).

(** [processRecentEvents]: the logs of the last blocks are handled one
    after the other; [stamp i] is what the database contributes to the
    write of the [i]-th of them.  Any failure of the node is logged and
    ends the scan. *)
Definition processRecentEvents (stamp : nat -> Write) (node : Node) (s : Store) : Store :=
  match getBlockNumber node with
  | Rejected _ => s
  | Resolved currentBlock =>
      match queryFilter node (fromBlock_of currentBlock) currentBlock with
      | Rejected _ => s
      | Resolved events => deliver_all (imap (fun i ev => (stamp i, ev.2)) events) s
      end
  end.

(** The module-level [state] object.  [provider] and [contract] hold
    what the objects were made from. *)
Record ListenerState := mkListenerState {
  running : bool;
  provider : option string;
  contract : option string
}.

Definition stopped : ListenerState :=
  {| running := false; provider := None; contract := None |}.

(** What the listener asks of a contract object. *)
Inductive Subscription :=
| On (address : string)
| RemoveAllListeners (address : string).

(** The two constructors of the chain library: [None] when the object
    is made, the message when the constructor throws. *)
Record Ethers := mkEthers {
  JsonRpcProvider : string -> option string;
  Contract : string -> option string
}.

Section Lifecycle.
Context (env : gmap string string) (ethers : Ethers).

Definition rpcUrl : string :=
  or_else (env !! "SEPOLIA_RPC_URL") (or_else (env !! "VITE_SEPOLIA_RPC_URL") "").

Definition contractAddress : string :=
  or_else (env !! "CONTRACT_ADDRESS") (or_else (env !! "VITE_CONTRACT_ADDRESS") "").

(** [start]: the state and the table afterwards, and the subscriptions
    made. *)
Definition start (stamp : nat -> Write) (node : Node) (st : ListenerState) (s : Store)
    : ListenerState * Store * list Subscription :=
  if running st then (st, s, [])
  else if negb (truthy rpcUrl) || negb (truthy contractAddress) then (st, s, [])
  else
    match JsonRpcProvider ethers rpcUrl with
    | Some _ => (st, s, [])
    | None =>
        match Contract ethers contractAddress with
        | Some _ =>
            ({| running := false; provider := Some rpcUrl; contract := contract st |}, s, [])
        | None =>
            ({| running := true; provider := Some rpcUrl; contract := Some contractAddress |},
             processRecentEvents stamp node s,
             [On contractAddress])
        end
    end.

End Lifecycle.

(** [stop] *)
Definition stop (st : ListenerState) : ListenerState * list Subscription :=
  match running st, contract st with
  | true, Some address =>
      ({| running := false; provider := provider st; contract := contract st |},
       [RemoveAllListeners address])
  | _, _ => (st, [])
  end.

(** ** Vocabulary for the properties *)

(** A table holds all an event can bring: every row under its content
    address is confirmed, and its content address or its fingerprint is
    stored. *)
Definition settled (e : EventArgs) (s : Store) : Prop :=
  (forall r, r ∈ rows s -> cid r = arg_cid e -> status r = "confirmed")
  /\ (arg_cid e ∈ cids_of s
      \/ existsb (has_submissionHash (arg_submissionHash e)) (rows s) = true).

(** The row the listener writes for an event that brings a new content
    address. *)
Definition listener_row (r : Expense) : Prop :=
  txHash r = "pending" /\ blockNumber r = None /\ category r = None /\ note r = None
  /\ status r = "confirmed" /\ toLowerCase (userAddress r) = userAddress r.

(** The row stems from one of the deliveries [ds]. *)
Definition written_for (ds : list (Write * EventArgs)) (r : Expense) : Prop :=
  exists d, d ∈ ds /\ cid r = arg_cid d.2 /\ submissionHash r = arg_submissionHash d.2
    /\ userAddress r = toLowerCase (arg_user d.2)
    /\ timestamp r = (arg_timestamp d.2 * 1000)%Z
    /\ id r = key d.1 /\ createdAt r = instant d.1.

End Listener.

(* ================================================================== *)
(** * The application: middleware and mounted routers ([app.ts]) *)
(* ================================================================== *)

Module App.
Import Js Db Api Services.

Inductive Method := GET | POST.

#[export] Instance Method_eq_dec : EqDecision Method.
Proof. solve_decision. Defined.

(** A request whose body, if it has one, is well-formed JSON. *)
Record Request := mkRequest {
  method : Method;
  (** the segments of the path, decoded; none of them empty *)
  path : list string;
  query : Query;
  (** [req.body] after the JSON parser *)
  body : JSON;
  (** the length of the body in bytes, before parsing *)
  contentLength : Z;
  (** whether the rate limiter has counted the client out *)
  limited : bool
}.

(** What goes back: a JSON response of a handler, or one of the two
    answers that are not JSON: the rate limiter's text (429) and the
    framework's page for a path that no route serves (404). *)
Inductive Reply :=
| Sent (response : Response)
| TooManyRequests
| CannotServe.

(** A literal segment of a route matches whatever the case of the
    letters (routing is not case sensitive by default). *)
Definition lit (literal segment : string) : bool :=
  bool_decide (toLowerCase segment = literal).

(** [express.json({ limit: "2mb" })] *)
Definition bodyLimit : Z := (2 * 1024 * 1024)%Z.

Definition health (now : Z) : Response :=
  mkResponse 200 (JObj [("status", JStr "ok"); ("timestamp", JDate now);
                        ("version", JStr "1.0.0")]).

Section Routers.
Context (db : Database) (lib : Lib) (env : gmap string string) (w : World)
        (from_value : JSON -> Outcome string).

(** [recordsRouter]: [/], [/:cid] and [/proof/:cid], tried in this
    order. *)
Definition recordsRouter (req : Request) (sub : list string) (s : Store)
    : option Response :=
  match method req, sub with
  | GET, [] => Some (listRecords db (query req) s)
  | GET, [cid] => Some (getRecord cid s)
  | GET, [p; cid] => if lit "proof" p then Some (getProof cid s) else None
  | _, _ => None
  end.

(** [ipfsRouter]: [POST /upload] and [GET /:cid]. *)
Definition ipfsRouter (req : Request) (sub : list string)
    : option (list Effect * Response) :=
  match method req, sub with
  | POST, [u] => if lit "upload" u then Some (post_upload lib env w from_value (body req))
                 else None
  | GET, [cid] => Some (get_content lib env w cid)
  | _, _ => None
  end.

(** [coprocRouter]: [POST /aggregate] and [GET /health]. *)
Definition coprocRouter (req : Request) (sub : list string)
    : option (list Effect * Response) :=
  match method req, sub with
  | POST, [a] => if lit "aggregate" a then Some (post_aggregate lib env w (body req))
                 else None
  | GET, [h] => if lit "health" h then Some (get_coproc_health lib w) else None
  | _, _ => None
  end.

Definition answer (r : option (list Effect * Response)) : list Effect * Reply :=
  match r with
  | Some (t, response) => (t, Sent response)
  | None => ([], CannotServe)
  end.

(** The application: the body parser with its limit (its error goes to
    the error handler, which answers with the error's status and
    message), the rate limiter on [/api/], the health route, and the
    three routers under [/api/records], [/api/ipfs] and [/api/coproc]. *)
Definition app (req : Request) (s : Store) : list Effect * Reply :=
  if (bodyLimit <? contentLength req)%Z then
    ([], Sent (mkResponse 413 (JObj [("error", JStr "request entity too large")])))
  else
    match path req with
    | a :: rest =>
        if negb (lit "api" a) then ([], CannotServe)
        else if limited req then ([], TooManyRequests)
        else
          match rest with
          | [] => ([], CannotServe)
          | r :: sub =>
              if lit "health" r && bool_decide (sub = [])
                 && bool_decide (method req = GET)
              then ([], Sent (health (date_now w)))
              else if lit "records" r then
                answer ((fun response => (@nil Effect, response)) <$> recordsRouter req sub s)
              else if lit "ipfs" r then answer (ipfsRouter req sub)
              else if lit "coproc" r then answer (coprocRouter req sub)
              else ([], CannotServe)
          end
    | [] => ([], CannotServe)
    end.

End Routers.

End App.

(* ================================================================== *)
(** * The client's calls into the ledger and the backend *)
(* ================================================================== *)

Module Client.
Import Js Db Api Services App.

(** ** Content addresses ([lib/fhe.ts]) *)

Definition in_range (lo hi : nat) (c : ascii) : bool :=
  (lo <=? nat_of_ascii c)%nat && (nat_of_ascii c <=? hi)%nat.

(** [[1-9A-HJ-NP-Za-km-z]] *)
Definition is_base58 (c : ascii) : bool :=
  in_range 49 57 c || in_range 65 72 c || in_range 74 78 c || in_range 80 90 c
  || in_range 97 107 c || in_range 109 122 c.

(** [[A-Za-z2-7]] *)
Definition is_base32 (c : ascii) : bool :=
  in_range 65 90 c || in_range 97 122 c || in_range 50 55 c.

Fixpoint all_chars (p : ascii -> bool) (s : string) : bool :=
  match s with
  | EmptyString => true
  | String c r => p c && all_chars p r
  end.

(** [/^Qm[1-9A-HJ-NP-Za-km-z]{44,}$/.test(cid) ||
     /^b[A-Za-z2-7]{58,}$/.test(cid)] *)
Definition isValidCID (cid : string) : bool :=
  match cid with
  | String "Q" (String "m" rest) => (44 <=? String.length rest)%nat && all_chars is_base58 rest
  | _ => false
  end
  || match cid with
     | String "b" rest => (58 <=? String.length rest)%nat && all_chars is_base32 rest
     | _ => false
     end.

(** The mock address [uploadToIPFS] makes up when the backend cannot be
    reached: [suffix] is [Math.random().toString(36).substring(2, 9)]. *)
Definition mockCid (now : Z) (suffix : string) : string :=
  "QmMockDemo" +:+ pretty now +:+ suffix.

(** The guard of [handleDecrypt] ([pages/Records.tsx]). *)
Definition refuses_decrypt (cid : string) : bool :=
  includes cid "Mock" || includes cid "QmMock" || includes cid "QmYwAPJzv5CZsnAMockCID".

(** ** Attesting ([components/LeftNav.tsx], [lib/contract.ts]) *)

Section Attesting.
(** [keccak256] of the bytes of a text, as a number *)
Variable keccak256 : string -> N.

Definition computeSubmissionHash (cid : string) : N := keccak256 cid.

(** The transaction the form submits for an uploaded blob: the
    fingerprint is computed from the content address alone, the
    auxiliary data is empty. *)
Definition submit (ctx : Ledger.Ctx) (cid : string) : Ledger.Tx :=
  Ledger.mkTx ctx (Ledger.CallAttestExpense (computeSubmissionHash cid) cid "").

(** A history in which every attestation comes from the form. *)
Definition from_form (t : Ledger.Tx) : Prop :=
  Ledger.is_attest t = true -> exists ctx cid, t = submit ctx cid.

End Attesting.

(** ** What [fetch] gives a page *)

(** [response.ok] and [await response.json()]; [None] when the body is
    not JSON, so that [json()] throws. *)
Definition ok (r : Reply) : bool :=
  match r with
  | Sent response => (200 <=? res_status response)%Z && (res_status response <=? 299)%Z
  | _ => false
  end.

Definition json (r : Reply) : option JSON :=
  match r with
  | Sent response => Some (res_body response)
  | _ => None
  end.

(** A value in a condition.  [None] stands for [undefined]. *)
Definition holds (v : option JSON) : bool :=
  match v with
  | None => false
  | Some x => negb (falsy x)
  end.

(** A GET without query and body, as [fetch(url)] sends it. *)
Definition get (path : list string) (limited : bool) : Request :=
  {| method := GET; path := path; query := mkQuery None None None;
     body := JObj []; contentLength := 0; limited := limited |}.

(** ** The verification page ([pages/Settings.tsx]) *)

Inductive Verdict :=
| Refused (toast : string)
| Verified (proofData : JSON)
| NotVerified (toast : string).

(** [handleVerify]; [fetched] answers the GET of a path, or is [None]
    when the request fails. *)
Definition handleVerify (fetched : list string -> option Reply) (cid : string) : Verdict :=
  if negb (truthy cid) then Refused "Please enter a CID"
  else if negb (isValidCID cid) then Refused "Invalid CID format"
  else
    match fetched ["api"; "proof"; cid] with
    | None => NotVerified "Failed to verify attestation"
    | Some reply =>
        match json reply with
        | None | Some JNull => NotVerified "Failed to verify attestation"
        | Some result =>
            if holds (field "success" result) && holds (field "proof" result)
            then Verified (default JNull (field "proof" result))
            else NotVerified "Attestation not found"
        end
    end.

(** ** The records hook ([hooks/useBackendRecords.ts]) *)

(** The request of the hook: [GET /api/records?limit=50]. *)
Definition records_request (limited : bool) : Request :=
  {| method := GET; path := ["api"; "records"];
     query := mkQuery (Some "50") None None;
     body := JObj []; contentLength := 0; limited := limited |}.

(** [queryFn]: what the hook hands to the pages. *)
Definition queryFn (fetched : option Reply) : JSON :=
  match fetched with
  | None => JArr []
  | Some reply =>
      if negb (ok reply) then JArr []
      else
        match json reply with
        | None | Some JNull => JArr []
        | Some result =>
            if holds (field "success" result) && holds (field "records" result)
            then default JNull (field "records" result)
            else JArr []
        end
  end.

(** ** The verification hook ([hooks/useEvents.ts]) *)

(** The selector of [verifyAttestation(bytes32)], the function the hook
    asks for. *)
Definition selector_verifyAttestation : N := 0x08f46957.

(** [queryFn] of [useVerifyAttestation].  [to_bytes32] is the encoding
    of the argument, which throws ([None]) on text that is not a
    32-byte hexadecimal value. *)
Definition verifyAttestation (to_bytes32 : string -> option N) (s : Ledger.State)
    (submissionHash : option string) : bool :=
  match submissionHash with
  | None => false
  | Some h =>
      if negb (truthy h) then false
      else
        match to_bytes32 h with
        | None => false
        | Some word =>
            match Ledger.staticcall s selector_verifyAttestation word with
            | Some (Ledger.ReturnedBool result) => result
            | _ => false
            end
        end
  end.

(** ** The admin page ([pages/Admin.tsx]) *)

(** The body [handleComputeAggregate] posts: the content addresses of
    all the records the hook returned, and no operation. *)
Definition aggregate_body (backendRecords : list JSON) : JSON :=
  JObj [("cids", JArr (map (fun r => default JNull (field "cid" r)) backendRecords))].

(** What the page shows for the total: [result.encryptedTotal], or the
    placeholder ([None]) when that is falsy. *)
Definition shown_total (result : JSON) : option JSON :=
  match field "encryptedTotal" result with
  | Some v => if falsy v then None else Some v
  | None => None
  end.

End Client.

(* ================================================================== *)
(** * Sample data *)
(* ================================================================== *)

Module Sample.
Import Db Indexer Api.

(** A rendering of addresses and hashes that tells distinct values
    apart. *)
Definition abi : Abi :=
  {| abi_address := fun a => "0x" +:+ pretty a;
     abi_bytes32 := fun h => "0x" +:+ pretty h;
     abi_bytes := fun b => b |}.

(** Two users attest; the second transaction repeats a fingerprint and
    reverts; the fourth reuses a content address under a new
    fingerprint. *)
Definition txs : list Ledger.Tx :=
  [ Ledger.mkTx (Ledger.mkCtx 1 1700000000) (Ledger.CallAttestExpense 11 "QmA" "");
    Ledger.mkTx (Ledger.mkCtx 2 1700000012) (Ledger.CallAttestExpense 11 "QmB" "");
    Ledger.mkTx (Ledger.mkCtx 2 1700000024) (Ledger.CallAttestExpense 22 "QmC" "");
    Ledger.mkTx (Ledger.mkCtx 1 1700000036) (Ledger.CallAttestExpense 33 "QmA" "");
    Ledger.mkTx (Ledger.mkCtx 1 1700000048) (Ledger.CallRegisterPublicKey "key") ].

Definition attested_a : Ledger.Attested := Ledger.mkAttested 1 11 "QmA" 1700000000 "".
Definition attested_c : Ledger.Attested := Ledger.mkAttested 2 22 "QmC" 1700000024 "".
Definition attested_a' : Ledger.Attested := Ledger.mkAttested 1 33 "QmA" 1700000036 "".

(** Deliveries out of order and repeated, each with its instant. *)
Definition deliveries : list (Write * Ledger.Attested) :=
  [ (mkWrite 1700000030000 1, attested_c); (mkWrite 1700000031000 2, attested_a);
    (mkWrite 1700000040000 3, attested_a'); (mkWrite 1700000050000 4, attested_c);
    (mkWrite 1700000060000 5, attested_a) ].

Definition event_a : EventArgs :=
  {| arg_user := "0xAbCd"; arg_submissionHash := "0x0b"; arg_cid := "QmA";
     arg_timestamp := 1700000000; arg_txMeta := "0x" |}.

(** An event no single ledger can emit after [event_a]: the same
    fingerprint under another content address. *)
Definition event_a_elsewhere : EventArgs :=
  {| arg_user := "0xAbCd"; arg_submissionHash := "0x0b"; arg_cid := "QmZ";
     arg_timestamp := 1700000100; arg_txMeta := "0x" |}.

Definition event_b : EventArgs :=
  {| arg_user := "0xBeEf"; arg_submissionHash := "0x16"; arg_cid := "QmB";
     arg_timestamp := 1700000500; arg_txMeta := "0x" |}.

(** The live event [event_b] is stored first; the older [event_a] is
    found by the backfill scan afterwards. *)
Definition backfilled_store : Store :=
  deliver_all [(mkWrite 1700000600000 1, event_b); (mkWrite 1700000700000 2, event_a)]
              Db.empty.

(** [event_a] with a block time one second past the last valid date. *)
Definition event_far : EventArgs :=
  {| arg_user := "0xAbCd"; arg_submissionHash := "0x0b"; arg_cid := "QmA";
     arg_timestamp := 8640000000001; arg_txMeta := "0x" |}.

(** A database that returns rows of equal timestamp in the order of
    their insertion, whichever way it sorts, and a client that takes
    every integer of the signed 64-bit range. *)
Definition read_take (n : Js.Number) : Result Z :=
  match n with
  | Js.Finite z =>
      if (- 2 ^ 63 <? z)%Z && (z <? 2 ^ 63)%Z then Done z
      else Failed "take refused"
  | _ => Failed "take refused"
  end.

Definition db : Api.Database.
Proof.
  refine {| Api.order_desc := merge_sort Api.newer_first;
            Api.order_asc := merge_sort Api.older_first;
            Api.read_take := read_take;
            Api.order_desc_Permutation := merge_sort_Permutation Api.newer_first;
            Api.order_desc_sorted := StronglySorted_merge_sort Api.newer_first;
            Api.order_asc_Permutation := merge_sort_Permutation Api.older_first;
            Api.order_asc_sorted := StronglySorted_merge_sort Api.older_first |}.
  - intros z Hz. unfold read_take.
    assert (Hlo : (- 2 ^ 63 <? z)%Z = true) by (apply Z.ltb_lt; lia).
    assert (Hhi : (z <? 2 ^ 63)%Z = true) by (apply Z.ltb_lt; lia).
    by rewrite Hlo, Hhi.
  - intros [| negative | z] Hn; simpl; [by eexists | by eexists |].
    destruct (Hn z eq_refl) as [Hz | Hz].
    + assert (Hlo : (- 2 ^ 63 <? z)%Z = false) by (apply Z.ltb_ge; lia).
      rewrite Hlo. by eexists.
    + assert (Hhi : (z <? 2 ^ 63)%Z = false) by (apply Z.ltb_ge; lia).
      rewrite Hhi, andb_false_r. by eexists.
Defined.



(** Stand-ins for the library routines. *)
Definition lib : Services.Lib :=
  {| Services.base64_encode := fun s => "b64:" +:+ s;
     Services.base64_decode := fun s => s;
     Services.hmac_sha256_hex := fun key text => key +:+ "/" +:+ text;
     Services.JSON_stringify := fun _ => "{}";
     Services.String_of := fun _ => "QmOne,QmTwo" |}.

(** The content store answers every request; the coprocessor is down. *)
Definition engine_down : Services.World :=
  {| Services.http_get := fun _ => Services.Resolved "blob";
     Services.engine_post := fun _ _ _ => Services.Rejected "connect ECONNREFUSED";
     Services.pinata_pin := fun _ => Services.Rejected "Request failed with status code 401";
     Services.date_now := 1700000000000;
     Services.random_suffix := "k3x9ab";
     Services.random_floor := fun i => Z.of_nat (7 * i + 5) |}.

(** Nothing outside answers. *)
Definition offline : Services.World :=
  {| Services.http_get := fun _ => Services.Rejected "Request failed with status code 404";
     Services.engine_post := fun _ _ _ => Services.Rejected "connect ECONNREFUSED";
     Services.pinata_pin := fun _ => Services.Rejected "connect ECONNREFUSED";
     Services.date_now := 1700000000000;
     Services.random_suffix := "k3x9ab";
     Services.random_floor := fun _ => 0%Z |}.

Definition env_with_engine : gmap string string :=
  {[ "COPROCESSOR_URL" := "http://coprocessor.test/aggregate" ]}.

(** Everything outside answers; the coprocessor reports an operation and
    a count of its own. *)
Definition engine_up : Services.World :=
  {| Services.http_get := fun _ => Services.Resolved "blob";
     Services.engine_post := fun _ _ _ =>
       Services.Resolved (Services.mkCoprocResponse "sealed" None "v1.0" "max" 7);
     Services.pinata_pin := fun _ => Services.Resolved (Some "QmPinned");
     Services.date_now := 1700000000000;
     Services.random_suffix := "k3x9ab";
     Services.random_floor := fun _ => 0%Z |}.

(** A row written ahead of its confirmation. *)
Definition pending_row : Expense :=
  {| id := 1; userAddress := "0xabcd"; cid := "QmA"; submissionHash := "0x0b";
     txHash := "pending"; blockNumber := None; timestamp := 1700000000000;
     category := Some "food"; note := Some "lunch"; status := "pending";
     createdAt := 1700000001000; updatedAt := 1700000001000 |}.

Definition pending_store : Store := {| rows := [pending_row] |}.

(** Two writes, a minute apart. *)
Definition first_write : Write := mkWrite 1700000100000 1.
Definition later_write : Write := mkWrite 1700000160000 2.

(** A decoder that makes three bytes of four characters, and a request
    that uploads four characters. *)
Definition packed_lib : Services.Lib :=
  {| Services.base64_encode := fun s => s;
     Services.base64_decode := fun text => substring 0 (3 * (String.length text / 4)) text;
     Services.hmac_sha256_hex := fun key text => key +:+ "/" +:+ text;
     Services.JSON_stringify := fun _ => "{}";
     Services.String_of := fun _ => "QmOne,QmTwo" |}.

Definition upload_request : App.Request :=
  {| App.method := App.POST; App.path := ["api"; "ipfs"; "upload"];
     App.query := Api.mkQuery None None None;
     App.body := Js.JObj [("ciphertext", Js.JStr "QUJD")];
     App.contentLength := 21; App.limited := false |}.

(** The two expenses of [db/seed.ts], and the table the seed script
    leaves when it runs on an empty one. *)
Definition sampleExpenses : list CreateInput :=
  [ {| c_userAddress := "0x742d35Cc6634C0532925a3b844Bc9e7595f0bEb";
       c_cid := "QmSample1"; c_submissionHash := "0x1234..."; c_txHash := "0xabc...";
       c_blockNumber := Some "12345"; c_timestamp := None;
       c_category := Some "food"; c_note := Some "Sample food expense";
       c_status := Some "confirmed" |};
    {| c_userAddress := "0x742d35Cc6634C0532925a3b844Bc9e7595f0bEb";
       c_cid := "QmSample2"; c_submissionHash := "0x5678..."; c_txHash := "0xdef...";
       c_blockNumber := Some "12346"; c_timestamp := None;
       c_category := Some "transport"; c_note := Some "Sample transport expense";
       c_status := Some "confirmed" |} ].

Definition seeded_store : Store :=
  {| rows := imap (fun i c => new_row (mkWrite 1700000000000 (Z.of_nat i + 1)) c)
                  sampleExpenses |}.

End Sample.

(* ================================================================== *)
(** * Properties of the ledger *)
(* ================================================================== *)

Module LedgerFacts.
Import Ledger.

Lemma attestExpense_fresh ctx h cid meta s :
  isAttested s h = false ->
  attestExpense ctx h cid meta s =
    Ok (tt, {| userCids := <[msg_sender ctx := userCids_at s (msg_sender ctx) ++ [cid]]> (userCids s);
               attestedHashes := <[h := true]> (attestedHashes s);
               logs := logs s ++ [ExpenseAttested (msg_sender ctx) h cid (block_timestamp ctx) meta] |}).
Proof.
  unfold isAttested, attestExpense. intros Hfresh.
  unfold mbind, exec_bind, gets. rewrite Hfresh. reflexivity.
Qed.

Lemma attestExpense_duplicate ctx h cid meta s :
  isAttested s h = true ->
  attestExpense ctx h cid meta s = Revert "Already attested".
Proof.
  unfold isAttested, attestExpense. intros Hdup.
  unfold mbind, exec_bind, gets. rewrite Hdup. reflexivity.
Qed.

Lemma isAttested_cases s h : isAttested s h = true \/ isAttested s h = false.
Proof. destruct (isAttested s h); auto. Qed.

Lemma transact_attest_fresh ctx h cid meta s :
  isAttested s h = false ->
  exists s', transact (mkTx ctx (CallAttestExpense h cid meta)) s = (s', None)
    /\ isAttested s' h = true
    /\ getUserCids s' (msg_sender ctx) = getUserCids s (msg_sender ctx) ++ [cid]
    /\ (forall u, u <> msg_sender ctx -> getUserCids s' u = getUserCids s u)
    /\ (forall h', h' <> h -> isAttested s' h' = isAttested s h')
    /\ logs s' = logs s ++ [ExpenseAttested (msg_sender ctx) h cid (block_timestamp ctx) meta].
Proof.
  intros Hfresh. eexists. unfold transact, dispatch. simpl.
  rewrite (attestExpense_fresh _ _ _ _ _ Hfresh).
  split; [reflexivity|].
  unfold isAttested, getUserCids, attestedHashes_at, userCids_at. simpl.
  repeat split.
  - by rewrite lookup_insert_eq.
  - by rewrite lookup_insert_eq.
  - intros u Hu. by rewrite lookup_insert_ne.
  - intros h' Hh'. by rewrite lookup_insert_ne.
Qed.

Lemma transact_attest_duplicate ctx h cid meta s :
  isAttested s h = true ->
  transact (mkTx ctx (CallAttestExpense h cid meta)) s = (s, Some "Already attested").
Proof.
  intros Hdup. unfold transact, dispatch. simpl.
  by rewrite (attestExpense_duplicate _ _ _ _ _ Hdup).
Qed.

Lemma transact_register ctx pk s :
  transact (mkTx ctx (CallRegisterPublicKey pk)) s =
    ({| userCids := userCids s; attestedHashes := attestedHashes s;
        logs := logs s ++ [PublicKeyRegistered (msg_sender ctx) pk] |}, None).
Proof. reflexivity. Qed.

(** What one transaction does to a user's list: nothing, or one entry
    added at the end. *)
Lemma step_user_cids t s u :
  getUserCids (step s t) u = getUserCids s u
  \/ exists cid, getUserCids (step s t) u = getUserCids s u ++ [cid].
Proof.
  destruct t as [ctx [h cid meta | pk]]; unfold step.
  - destruct (isAttested_cases s h) as [Hdup | Hfresh].
    + rewrite (transact_attest_duplicate _ _ _ _ _ Hdup). by left.
    + destruct (transact_attest_fresh ctx h cid meta s Hfresh)
        as (s' & -> & _ & Hmine & Hothers & _). simpl.
      destruct (decide (u = msg_sender ctx)) as [-> | Hne].
      * right. eauto.
      * left. auto.
  - rewrite transact_register. by left.
Qed.

Lemma run_snoc txs t s : run (txs ++ [t]) s = step (run txs s) t.
Proof. unfold run. by rewrite foldl_app. Qed.

Lemma run_user_cids_prefix txs s u :
  getUserCids s u `prefix_of` getUserCids (run txs s) u.
Proof.
  induction txs as [| t txs IH] using rev_ind; [done |].
  rewrite run_snoc.
  destruct (step_user_cids t (run txs s) u) as [-> | [cid ->]]; [done |].
  by apply prefix_app_r.
Qed.

(** ** The fingerprints of the emitted attestations are pairwise distinct *)

Lemma log_inv_initial : log_inv initial.
Proof. split; [constructor | intros h Hh; by apply elem_of_nil in Hh]. Qed.

Lemma hashes_snoc_attested s s' u h c ts m :
  logs s' = logs s ++ [ExpenseAttested u h c ts m] ->
  hashes s' = hashes s ++ [h].
Proof.
  intros Hlog. unfold hashes, attested_events. rewrite Hlog, omap_app, map_app.
  reflexivity.
Qed.

Lemma log_inv_step s t : log_inv s -> log_inv (step s t).
Proof.
  intros [Hnodup Hmarked].
  destruct t as [ctx [h cid meta | pk]]; unfold step.
  - destruct (isAttested_cases s h) as [Hdup | Hfresh].
    + rewrite (transact_attest_duplicate _ _ _ _ _ Hdup). by split.
    + destruct (transact_attest_fresh ctx h cid meta s Hfresh)
        as (s' & -> & Hnow & _ & _ & Hother & Hlog). simpl.
      unfold log_inv. rewrite (hashes_snoc_attested _ _ _ _ _ _ _ Hlog).
      split.
      * apply NoDup_app. split_and!; [done | | apply NoDup_singleton].
        intros h' Hin ->%list_elem_of_singleton.
        specialize (Hmarked _ Hin). congruence.
      * intros h' [Hin | ->%list_elem_of_singleton]%elem_of_app; [| done].
        destruct (decide (h' = h)) as [-> | Hne]; [done |].
        rewrite Hother; auto.
  - rewrite transact_register. split; simpl.
    + unfold hashes, attested_events in *. simpl.
      rewrite omap_app. simpl. by rewrite app_nil_r.
    + intros h. unfold hashes, attested_events, isAttested, attestedHashes_at in *. simpl.
      rewrite omap_app. simpl. rewrite app_nil_r. apply Hmarked.
Qed.

Lemma log_inv_run txs s : log_inv s -> log_inv (run txs s).
Proof.
  intros Hs. induction txs as [| t txs IH] using rev_ind; [done |].
  rewrite run_snoc. by apply log_inv_step.
Qed.

Lemma attested_hashes_NoDup txs : NoDup (hashes (run txs initial)).
Proof. apply (log_inv_run txs initial log_inv_initial). Qed.

(** ** Replay protection *)

(** C1.  Attesting a fingerprint [f] that the ledger has not recorded
    succeeds; a second attestation of the same [f], by any caller and
    with any content address and auxiliary data, reverts with
    "Already attested".  [isAttested f] is true after the first call and
    still true after the rejected one, and the rejected call leaves the
    whole ledger state (both mappings and the event log) as it was. *)
Theorem attest_twice_second_rejected (s : State) (f : N) (ctx1 ctx2 : Ctx)
    (cid1 cid2 meta1 meta2 : string) :
  isAttested s f = false ->
  let first := mkTx ctx1 (CallAttestExpense f cid1 meta1) in
  let second := mkTx ctx2 (CallAttestExpense f cid2 meta2) in
  let s1 := (transact first s).1 in
  (transact first s).2 = None
  /\ isAttested s1 f = true
  /\ transact second s1 = (s1, Some "Already attested")
  /\ isAttested (transact second s1).1 f = true.
Proof.
  intros Hfresh first second s1.
  destruct (transact_attest_fresh ctx1 f cid1 meta1 s Hfresh) as (s' & Hrun & Hnow & _).
  subst s1 first second. rewrite Hrun. simpl.
  rewrite (transact_attest_duplicate _ _ _ _ _ Hnow). auto.
Qed.

Lemma attest_twice_second_rejected_witness :
  isAttested initial 7 = false
  /\ (let first := mkTx (mkCtx 1 100) (CallAttestExpense 7 "QmA" "") in
      let second := mkTx (mkCtx 2 101) (CallAttestExpense 7 "QmB" "0x") in
      let s1 := (transact first initial).1 in
      (transact first initial).2 = None
      /\ isAttested s1 7 = true
      /\ transact second s1 = (s1, Some "Already attested")
      /\ isAttested (transact second s1).1 7 = true).
Proof.
  split; [reflexivity |].
  apply (attest_twice_second_rejected initial 7 (mkCtx 1 100) (mkCtx 2 101)
           "QmA" "QmB" "" "0x").
  reflexivity.
Defined.

(** ** The per-user lists only grow at the end *)

(** C10.  After any sequence of transactions, from any state,
    [getUserAttestationCount u] is the length of [getUserCids u], and the
    list [u] had before is a prefix of the list [u] has after: nothing is
    removed or reordered.  From the state reached, a successful
    [attestExpense] by a caller appends exactly its [cid] to the caller's
    list and leaves every other user's list as it was; a reverted
    transaction changes nothing; [registerPublicKey] changes no list. *)
Theorem user_cids_append_only (txs : list Tx) (s : State) (u : N) :
  let s' := run txs s in
  getUserAttestationCount s' u = N.of_nat (length (getUserCids s' u))
  /\ getUserCids s u `prefix_of` getUserCids s' u
  /\ (forall ctx h cid meta,
        let t := mkTx ctx (CallAttestExpense h cid meta) in
        (transact t s').2 = None ->
        getUserCids (transact t s').1 (msg_sender ctx)
          = getUserCids s' (msg_sender ctx) ++ [cid]
        /\ forall v, v <> msg_sender ctx ->
             getUserCids (transact t s').1 v = getUserCids s' v)
  /\ (forall t, (transact t s').2 <> None -> (transact t s').1 = s')
  /\ (forall ctx pk v,
        getUserCids (transact (mkTx ctx (CallRegisterPublicKey pk)) s').1 v
          = getUserCids s' v).
Proof.
  intros s'. split_and!.
  - reflexivity.
  - apply run_user_cids_prefix.
  - intros ctx h cid meta t Hok. subst t.
    destruct (isAttested_cases s' h) as [Hdup | Hfresh].
    + rewrite (transact_attest_duplicate _ _ _ _ _ Hdup) in Hok. discriminate.
    + destruct (transact_attest_fresh ctx h cid meta s' Hfresh)
        as (s'' & -> & _ & Hmine & Hothers & _). simpl. auto.
  - intros t. unfold transact. destruct (dispatch t s') as [[[] s''] | reason]; simpl; [| done].
    intros Hne. by destruct Hne.
  - intros ctx pk v. by rewrite transact_register.
Qed.

End LedgerFacts.

(* ================================================================== *)
(** * Properties of the event listener *)
(* ================================================================== *)

Module IndexerFacts.
Import Db Indexer.

Lemma has_cid_true c r : has_cid c r = true <-> cid r = c.
Proof. unfold has_cid. apply bool_decide_eq_true. Qed.

Lemma has_cid_false c r : has_cid c r = false <-> cid r <> c.
Proof. unfold has_cid. apply bool_decide_eq_false. Qed.

Lemma has_cid_set_status c v now r : has_cid c (set_status v now r) = has_cid c r.
Proof. reflexivity. Qed.

Lemma has_cid_new_row now p : has_cid (c_cid p) (new_row now p) = true.
Proof. by apply bool_decide_eq_true. Qed.

Lemma has_cid_new_event now e : has_cid (arg_cid e) (new_row now (create_payload e)) = true.
Proof. apply (has_cid_new_row now (create_payload e)). Qed.

Lemma cid_confirm now c r : cid (confirm now c r) = cid r.
Proof. unfold confirm. by destruct (has_cid c r). Qed.

Lemma submissionHash_confirm now c r : submissionHash (confirm now c r) = submissionHash r.
Proof. unfold confirm. by destruct (has_cid c r). Qed.

Lemma has_cid_confirm now c c' r : has_cid c' (confirm now c r) = has_cid c' r.
Proof. unfold has_cid. by rewrite cid_confirm. Qed.

Lemma find_none_existsb {A} (f : A -> bool) l : find f l = None -> existsb f l = false.
Proof.
  induction l as [| a l IH]; simpl; [done |].
  destruct (f a); [done | auto].
Qed.

Lemma find_map_confirm now c c' l :
  find (has_cid c') (map (confirm now c) l) = confirm now c <$> find (has_cid c') l.
Proof.
  induction l as [| r l IH]; simpl; [done |].
  rewrite has_cid_confirm. by destruct (has_cid c' r).
Qed.

Lemma handle_cases now e s : handled now e s (handleExpenseAttested now e s).
Proof.
  unfold handleExpenseAttested, try_handle, upsert_status.
  fold (in_Date_range e).
  destruct (in_Date_range e) eqn:Hdate; [| by apply handled_refused].
  cbn [negb].
  destruct (findUnique (arg_cid e) s) as [r |] eqn:Hfind.
  - by eapply handled_update.
  - unfold insert. simpl.
    rewrite (find_none_existsb _ _ Hfind).
    destruct (existsb _ (rows s)) eqn:Hhash.
    + by apply handled_dropped.
    + by apply handled_insert.
Qed.

(** An event whose block time is no valid date is dropped. *)
Lemma handle_refused now e s : in_Date_range e = false -> handleExpenseAttested now e s = s.
Proof.
  intros Hdate. unfold handleExpenseAttested, try_handle, upsert_status.
  fold (in_Date_range e). by rewrite Hdate.
Qed.

Lemma handle_update now e s r :
  in_Date_range e = true -> findUnique (arg_cid e) s = Some r ->
  handleExpenseAttested now e s = {| rows := map (confirm now (arg_cid e)) (rows s) |}.
Proof.
  intros Hdate Hfind. unfold handleExpenseAttested, try_handle, upsert_status.
  fold (in_Date_range e). by rewrite Hdate, Hfind.
Qed.

Lemma handle_insert now e s :
  in_Date_range e = true -> findUnique (arg_cid e) s = None ->
  existsb (has_submissionHash (arg_submissionHash e)) (rows s) = false ->
  handleExpenseAttested now e s = {| rows := rows s ++ [new_row now (create_payload e)] |}.
Proof.
  intros Hdate Hfind Hhash. unfold handleExpenseAttested, try_handle, upsert_status, insert.
  fold (in_Date_range e). rewrite Hdate, Hfind. simpl.
  by rewrite (find_none_existsb _ _ Hfind), Hhash.
Qed.

Lemma handle_dropped now e s :
  findUnique (arg_cid e) s = None ->
  existsb (has_submissionHash (arg_submissionHash e)) (rows s) = true ->
  handleExpenseAttested now e s = s.
Proof.
  intros Hfind Hhash. unfold handleExpenseAttested, try_handle, upsert_status, insert.
  destruct (negb (valid_create (create_payload e))); [done |]. rewrite Hfind. simpl.
  by rewrite (find_none_existsb _ _ Hfind), Hhash.
Qed.

(** ** Idempotence *)

Lemma content_confirm_confirmed now c r :
  status r = "confirmed" -> content (confirm now c r) = content r.
Proof.
  intros Hst. unfold confirm, content. destruct (has_cid c r); [| done].
  destruct r; simpl in *. by subst.
Qed.

Lemma confirm_confirm t1 t2 c r : confirm t2 c (confirm t1 c r) = confirm t2 c r.
Proof.
  unfold confirm. destruct (has_cid c r) eqn:Hc; [| by rewrite Hc].
  by rewrite has_cid_set_status, Hc.
Qed.

Lemma confirm_other now c r : cid r <> c -> confirm now c r = r.
Proof. intros Hne. unfold confirm. by rewrite (proj2 (has_cid_false c r) Hne). Qed.

Lemma find_app_none {A} (f : A -> bool) l a :
  find f l = None -> find f (l ++ [a]) = if f a then Some a else None.
Proof.
  induction l as [| b l IH]; simpl; [done |].
  destruct (f b); [done | auto].
Qed.

(** Handling an event a second time only confirms again the row the
    first handling left. *)
Lemma handle_twice t1 t2 e s :
  let s1 := handleExpenseAttested t1 e s in
  handleExpenseAttested t2 e s1 = s1
  \/ (is_Some (findUnique (arg_cid e) s1)
      /\ handleExpenseAttested t2 e s1
         = {| rows := map (confirm t2 (arg_cid e)) (rows s1) |}).
Proof.
  intros s1. subst s1.
  destruct (handle_cases t1 e s) as [r Hdate Hfind | Hdate Hfind Hhash | Hdate Hfind Hhash | Hdate].
  - right.
    assert (findUnique (arg_cid e)
              {| rows := map (confirm t1 (arg_cid e)) (rows s) |}
            = Some (confirm t1 (arg_cid e) r)) as Hfind'.
    { unfold findUnique in *. simpl. by rewrite find_map_confirm, Hfind. }
    split; [by eexists |]. by rewrite (handle_update _ _ _ _ Hdate Hfind').
  - right.
    assert (findUnique (arg_cid e)
              {| rows := rows s ++ [new_row t1 (create_payload e)] |}
            = Some (new_row t1 (create_payload e))) as Hfind'.
    { unfold findUnique in *. simpl. rewrite (find_app_none _ _ _ Hfind).
      by rewrite has_cid_new_event. }
    split; [by eexists |]. by rewrite (handle_update _ _ _ _ Hdate Hfind').
  - left. by apply handle_dropped.
  - left. by apply handle_refused.
Qed.

Lemma find_none_not_in c l r : find (has_cid c) l = None -> r ∈ l -> cid r <> c.
Proof.
  induction l as [| r' l IH]; simpl; [by intros _ ?%elem_of_nil |].
  destruct (has_cid c r') eqn:Hc; [done |].
  intros Hfind [-> | Hin]%elem_of_cons; [by apply has_cid_false | auto].
Qed.

(** After an event with a valid block time is handled, whatever row
    carries its content address is confirmed and was last written at
    that instant. *)
Lemma handled_row now e s r :
  in_Date_range e = true ->
  r ∈ rows (handleExpenseAttested now e s) -> cid r = arg_cid e ->
  status r = "confirmed" /\ updatedAt r = instant now.
Proof.
  intros Hvalid.
  destruct (handle_cases now e s) as [r0 _ Hfind | _ Hfind Hhash | _ Hfind Hhash | Hdate];
    simpl.
  - intros (r' & -> & Hin)%list_elem_of_fmap Hcid.
    rewrite cid_confirm in Hcid. unfold confirm.
    by rewrite (proj2 (has_cid_true _ _) Hcid).
  - intros [Hin | ->%list_elem_of_singleton]%elem_of_app Hcid; [| done].
    by destruct (find_none_not_in _ _ _ Hfind Hin).
  - intros Hin Hcid. by destruct (find_none_not_in _ _ _ Hfind Hin).
  - congruence.
Qed.

Lemma confirm_fixed now c r :
  (cid r = c -> status r = "confirmed" /\ updatedAt r = instant now) -> confirm now c r = r.
Proof.
  intros Hr. unfold confirm. destruct (has_cid c r) eqn:Hc; [| done].
  destruct (Hr (proj1 (has_cid_true _ _) Hc)) as [Hst Hup].
  destruct r; simpl in *. by subst.
Qed.

Lemma content_confirm now c r :
  (cid r = c -> status r = "confirmed") -> content (confirm now c r) = content r.
Proof.
  intros Hr. unfold confirm. destruct (has_cid c r) eqn:Hc; [| done].
  apply (content_confirm_confirmed now c r) in Hr; [| by apply has_cid_true].
  unfold confirm in Hr. by rewrite Hc in Hr.
Qed.

Lemma handle_idempotent_content t1 t2 e s :
  same_content (handleExpenseAttested t2 e (handleExpenseAttested t1 e s))
               (handleExpenseAttested t1 e s).
Proof.
  destruct (in_Date_range e) eqn:Hdate; [| by rewrite !handle_refused].
  destruct (handle_twice t1 t2 e s) as [-> | [_ ->]]; [done |].
  unfold same_content. simpl. rewrite map_map.
  apply map_ext_in. intros r Hin%list_elem_of_In.
  apply content_confirm. intros Hcid.
  by destruct (handled_row t1 e s r Hdate Hin Hcid).
Qed.

Lemma handle_idempotent_same_instant now e s :
  handleExpenseAttested now e (handleExpenseAttested now e s)
  = handleExpenseAttested now e s.
Proof.
  destruct (in_Date_range e) eqn:Hdate; [| by rewrite !handle_refused].
  destruct (handle_twice now now e s) as [-> | [_ ->]]; [done |].
  destruct (handleExpenseAttested now e s) as [l] eqn:Hs. simpl. f_equal.
  rewrite <- (map_id l) at 2. apply map_ext_in. intros r Hin%list_elem_of_In.
  apply confirm_fixed. intros Hcid.
  apply (handled_row now e s r); [done | by rewrite Hs | done].
Qed.

(** ** One row per content address *)

Lemma count_by_cid c l :
  NoDup (map cid l) ->
  length (List.filter (has_cid c) l) = if bool_decide (c ∈ map cid l) then 1%nat else 0%nat.
Proof.
  induction l as [| r l IH]; simpl; [done |].
  intros [Hfresh Hrest]%NoDup_cons. specialize (IH Hrest).
  destruct (has_cid c r) eqn:Hc.
  - apply has_cid_true in Hc. subst c. simpl.
    rewrite IH, (bool_decide_eq_false_2 _ Hfresh), bool_decide_eq_true_2; [done | by left].
  - apply has_cid_false in Hc. rewrite IH.
    rewrite (bool_decide_ext (c ∈ map cid l) (c ∈ cid r :: map cid l)); [done |].
    rewrite elem_of_cons. naive_solver.
Qed.

Lemma find_cid_none_iff c l : find (has_cid c) l = None <-> c ∉ map cid l.
Proof.
  induction l as [| r l IH]; simpl.
  - split; [intros _ ?%elem_of_nil | ]; done.
  - rewrite not_elem_of_cons. destruct (has_cid c r) eqn:Hc.
    + apply has_cid_true in Hc. split; [done | by intros [? _]].
    + apply has_cid_false in Hc. rewrite IH. naive_solver.
Qed.

Lemma map_cid_confirm now c l : map cid (map (confirm now c) l) = map cid l.
Proof. rewrite map_map. apply map_ext. intros r. apply cid_confirm. Qed.

Section Replay.
Variable abi : Abi.
Hypothesis abi_bytes32_inj :
  forall h1 h2, abi_bytes32 abi h1 = abi_bytes32 abi h2 -> h1 = h2.

(** The ledger's attestation log. *)
Variable log : list Ledger.Attested.
Hypothesis log_hashes_NoDup : NoDup (map Ledger.ev_submissionHash log).

Lemma same_hash_same_event a1 a2 :
  a1 ∈ log -> a2 ∈ log ->
  Ledger.ev_submissionHash a1 = Ledger.ev_submissionHash a2 -> a1 = a2.
Proof.
  intros H1 H2 Heq. induction log as [| a l IH]; [by apply elem_of_nil in H1 |].
  simpl in log_hashes_NoDup. apply NoDup_cons in log_hashes_NoDup as [Hfresh Hrest].
  apply elem_of_cons in H1 as [-> | H1]; apply elem_of_cons in H2 as [-> | H2].
  - done.
  - destruct Hfresh. rewrite Heq. by apply list_elem_of_fmap_2.
  - destruct Hfresh. rewrite <- Heq. by apply list_elem_of_fmap_2.
  - auto.
Qed.

(** An event of the log is never dropped for its fingerprint: a stored
    row with its fingerprint is the row of that very event.  It is
    dropped only when its block time is no valid date. *)
Lemma log_event_stored now a s :
  a ∈ log -> replay_inv abi log s ->
  let s' := handleExpenseAttested now (decode abi a) s in
  replay_inv abi log s'
  /\ forall c, c ∈ cids_of s' <->
        c ∈ cids_of s \/ (in_Date_range (decode abi a) = true /\ c = Ledger.ev_cid a).
Proof.
  intros Ha [Hnodup Hrows] s'. subst s'.
  destruct (handle_cases now (decode abi a) s)
    as [r Hdate Hfind | Hdate Hfind Hhash | Hdate Hfind Hhash | Hdate]; simpl in *.
  4:{ split; [done |]. intros c. rewrite Hdate. naive_solver. }
  - assert (Ledger.ev_cid a ∈ cids_of s) as Hin.
    { unfold findUnique in Hfind. destruct (decide (Ledger.ev_cid a ∈ cids_of s)); [done |].
      apply find_cid_none_iff in n. congruence. }
    split; [split |].
    + unfold cids_of. simpl. by rewrite map_cid_confirm.
    + intros r' (r0 & -> & Hr0)%list_elem_of_fmap.
      destruct (Hrows r0 Hr0) as (a0 & ? & ? & ?). exists a0.
      by rewrite cid_confirm, submissionHash_confirm.
    + intros c. unfold cids_of. simpl. rewrite map_cid_confirm. naive_solver.
  - apply find_cid_none_iff in Hfind.
    split; [split |].
    + unfold cids_of. simpl. rewrite map_app. apply NoDup_app. split_and!; [done | | ].
      * intros c Hc ->%list_elem_of_singleton. done.
      * apply NoDup_singleton.
    + intros r' [Hr' | ->%list_elem_of_singleton]%elem_of_app; [auto |].
      by exists a.
    + intros c. unfold cids_of. simpl. rewrite map_app, elem_of_app. simpl.
      rewrite list_elem_of_singleton. naive_solver.
  - exfalso. apply existsb_exists in Hhash as (r & Hr%list_elem_of_In & Hh).
    apply bool_decide_eq_true in Hh.
    destruct (Hrows r Hr) as (a0 & Ha0 & Hcid & Hhash0).
    rewrite Hhash0 in Hh. apply abi_bytes32_inj in Hh.
    apply (same_hash_same_event a0 a Ha0 Ha) in Hh. subst a0.
    eapply find_none_not_in; [exact Hfind | exact Hr | exact Hcid].
Qed.

Lemma replay_stored (ds : list (Write * Ledger.Attested)) s :
  (forall d, d ∈ ds -> d.2 ∈ log) -> replay_inv abi log s ->
  let s' := deliver_all (map (fun d => (d.1, decode abi d.2)) ds) s in
  replay_inv abi log s'
  /\ forall c, c ∈ cids_of s' <->
        c ∈ cids_of s
        \/ c ∈ map (fun d => Ledger.ev_cid d.2)
                   (List.filter (fun d => in_Date_range (decode abi d.2)) ds).
Proof.
  intros Hds Hs. simpl.
  induction ds as [| d ds IH] using rev_ind.
  - simpl. split; [done |]. intros c. rewrite elem_of_nil. naive_solver.
  - rewrite !map_app. unfold deliver_all in *. rewrite foldl_app. simpl.
    destruct IH as [Hinv Hcids].
    { intros d' Hd'. apply Hds. apply elem_of_app. by left. }
    unfold deliver at 1 3. simpl.
    destruct (log_event_stored d.1 d.2 _ (Hds d ltac:(apply elem_of_app; right; by left)) Hinv)
      as [Hinv' Hcids'].
    split; [done |]. intros c. rewrite Hcids', Hcids, List.filter_app, map_app, elem_of_app.
    simpl. destruct (in_Date_range (decode abi d.2)); simpl.
    + rewrite list_elem_of_singleton. naive_solver.
    + rewrite elem_of_nil. naive_solver.
Qed.
End Replay.

Lemma replay_inv_empty abi log : replay_inv abi log Db.empty.
Proof. split; [constructor | by intros r ?%elem_of_nil]. Qed.

(** ** What a delivery keeps *)

Lemma advances_refl r : advances r r.
Proof. split; auto. Qed.

Lemma advances_trans r1 r2 r3 : advances r1 r2 -> advances r2 r3 -> advances r1 r3.
Proof.
  intros [Hf1 Hs1] [Hf2 Hs2]. split; [congruence |].
  destruct Hs2 as [Hs2 | Hs2]; [rewrite Hs2 | ]; auto.
Qed.

Lemma advances_confirm now c r : advances r (confirm now c r).
Proof.
  unfold confirm. destruct (has_cid c r); [| apply advances_refl].
  split; [done | by right].
Qed.

Lemma handled_row_kept now e s r :
  r ∈ rows s -> exists r', r' ∈ rows (handleExpenseAttested now e s) /\ advances r r'.
Proof.
  intros Hin.
  destruct (handle_cases now e s) as [r0 _ Hfind | _ Hfind Hhash | _ Hfind Hhash | _]; simpl.
  - exists (confirm now (arg_cid e) r). split; [| apply advances_confirm].
    by apply list_elem_of_fmap_2.
  - exists r. split; [| apply advances_refl]. apply elem_of_app. by left.
  - exists r. split; [done | apply advances_refl].
  - exists r. split; [done | apply advances_refl].
Qed.

Lemma delivered_row_kept ds s r :
  r ∈ rows s -> exists r', r' ∈ rows (deliver_all ds s) /\ advances r r'.
Proof.
  revert s r. induction ds as [| d ds IH]; intros s r Hin; simpl.
  - exists r. split; [done | apply advances_refl].
  - destruct (handled_row_kept d.1 d.2 s r Hin) as (r1 & Hin1 & Hadv1).
    destruct (IH _ r1 Hin1) as (r2 & Hin2 & Hadv2).
    exists r2. split; [done | by eapply advances_trans].
Qed.

Lemma handled_existing now e s r :
  in_Date_range e = true ->
  r ∈ rows s -> cid r = arg_cid e ->
  handleExpenseAttested now e s
  = {| rows := map (confirm now (arg_cid e)) (rows s) |}.
Proof.
  intros Hvalid Hin Hcid.
  destruct (handle_cases now e s) as [r0 _ Hfind | _ Hfind Hhash | _ Hfind Hhash | Hdate];
    [done | | | congruence];
    by destruct (find_none_not_in _ _ _ Hfind Hin).
Qed.

(** ** Statements about replay *)

(** The block times that make a valid date: up to 8 640 000 000 000
    seconds either side of the epoch. *)
Lemma in_Date_range_spec e :
  in_Date_range e = true <-> (-8640000000000 <= arg_timestamp e <= 8640000000000)%Z.
Proof.
  unfold in_Date_range, valid_create, create_payload, valid_Date. cbn [c_timestamp].
  rewrite andb_true_iff, !Z.leb_le. lia.
Qed.

(** C2, amended.  Take any run of the ledger and deliver attestation
    events of its log to the listener, starting from the empty table: any
    number of times each, in any order, at any instants.  An event whose
    block time is no valid date (more than 8 640 000 000 000 seconds
    after the epoch) is refused by the database client and dropped.  For
    every content address [c] the table then holds exactly one row with
    [cid = c] if [c] is the address of a delivered event with a valid
    block time, and none otherwise; when all block times are valid that
    is one row per delivered content address.  Handling the same event a
    second time leaves the table as the first handling left it in every
    column except [updatedAt]; the row of the event then holds the
    instant of the second handling there; if both happen at the same
    instant the two tables are equal. *)
Theorem replay_one_record_per_cid (abi : Abi) (txs : list Ledger.Tx)
    (ds : list (Write * Ledger.Attested)) :
  (forall h1 h2, abi_bytes32 abi h1 = abi_bytes32 abi h2 -> h1 = h2) ->
  (forall d, d ∈ ds -> d.2 ∈ Ledger.attested_events (Ledger.run txs Ledger.initial)) ->
  let s := deliver_all (map (fun d => (d.1, decode abi d.2)) ds) Db.empty in
  let dated := List.filter (fun d => in_Date_range (decode abi d.2)) ds in
  (forall c, length (List.filter (has_cid c) (rows s))
             = if bool_decide (c ∈ map (fun d => Ledger.ev_cid d.2) dated)
               then 1%nat else 0%nat)
  /\ ((forall d, d ∈ ds -> (Ledger.ev_timestamp d.2 <= 8640000000000)%N) -> dated = ds)
  /\ (forall now1 now2 e s0,
        same_content (handleExpenseAttested now2 e (handleExpenseAttested now1 e s0))
                     (handleExpenseAttested now1 e s0))
  /\ (forall now1 now2 e s0 r,
        in_Date_range e = true ->
        r ∈ rows (handleExpenseAttested now2 e (handleExpenseAttested now1 e s0)) ->
        cid r = arg_cid e ->
        status r = "confirmed" /\ updatedAt r = instant now2)
  /\ (forall now e s0,
        handleExpenseAttested now e (handleExpenseAttested now e s0)
        = handleExpenseAttested now e s0).
Proof.
  intros Hinj Hds s dated. split_and!.
  - intros c.
    destruct (replay_stored abi Hinj _ (LedgerFacts.attested_hashes_NoDup txs) ds Db.empty Hds
                (replay_inv_empty _ _)) as [[Hnodup _] Hcids].
    fold s in Hnodup, Hcids. fold dated in Hcids. rewrite (count_by_cid c _ Hnodup).
    rewrite (bool_decide_ext (c ∈ map cid (rows s))
               (c ∈ map (fun d => Ledger.ev_cid d.2) dated)); [done |].
    fold (cids_of s). rewrite Hcids.
    unfold cids_of. simpl. rewrite elem_of_nil. naive_solver.
  - intros Hdated. subst dated. apply forallb_filter_id, forallb_forall.
    intros d Hd%list_elem_of_In. apply in_Date_range_spec. simpl.
    specialize (Hdated d Hd). lia.
  - intros. apply handle_idempotent_content.
  - intros now1 now2 e s0 r Hdate. by apply handled_row.
  - intros. apply handle_idempotent_same_instant.
Qed.

Lemma replay_one_record_per_cid_witness :
  (forall h1 h2, abi_bytes32 Sample.abi h1 = abi_bytes32 Sample.abi h2 -> h1 = h2)
  /\ (forall d, d ∈ Sample.deliveries ->
        d.2 ∈ Ledger.attested_events (Ledger.run Sample.txs Ledger.initial))
  /\ (forall c,
        length (List.filter (has_cid c)
                  (rows (deliver_all (map (fun d => (d.1, decode Sample.abi d.2))
                                          Sample.deliveries) Db.empty)))
        = if bool_decide
               (c ∈ map (fun d => Ledger.ev_cid d.2)
                        (List.filter (fun d => in_Date_range (decode Sample.abi d.2))
                                     Sample.deliveries))
          then 1%nat else 0%nat).
Proof.
  assert (forall h1 h2, abi_bytes32 Sample.abi h1 = abi_bytes32 Sample.abi h2 -> h1 = h2)
    as Hinj.
  { intros h1 h2 Heq. simpl in Heq. injection Heq as Heq. by apply (inj pretty). }
  assert (forall d, d ∈ Sample.deliveries ->
            d.2 ∈ Ledger.attested_events (Ledger.run Sample.txs Ledger.initial)) as Hds.
  { apply Forall_forall. vm_compute. repeat constructor. }
  split_and!; [exact Hinj | exact Hds |].
  exact (proj1 (replay_one_record_per_cid Sample.abi Sample.txs Sample.deliveries Hinj Hds)).
Defined.

(** Why the events must stem from one ledger: an event that repeats a
    stored fingerprint under a new content address violates the unique
    index on [submissionHash]; the handler logs the failure and drops
    it, and no row for its address appears. *)
Remark foreign_fingerprint_dropped :
  let s := handleExpenseAttested Sample.first_write Sample.event_a Db.empty in
  handleExpenseAttested Sample.later_write Sample.event_a_elsewhere s = s
  /\ findUnique "QmZ" (handleExpenseAttested Sample.later_write Sample.event_a_elsewhere s)
     = None.
Proof. split; reflexivity. Qed.

(** An event whose block time is no valid date is dropped as well,
    whether or not its content address is stored: the pending row of
    [Sample.pending_store] stays pending. *)
Remark far_event_dropped :
  handleExpenseAttested Sample.first_write Sample.event_far Db.empty = Db.empty
  /\ handleExpenseAttested Sample.later_write Sample.event_far Sample.pending_store
     = Sample.pending_store.
Proof. split; reflexivity. Qed.

(** The exact form of idempotence fails: the second handling of an event
    rewrites [updatedAt]. *)
Lemma second_delivery_rewrites_updatedAt :
  handleExpenseAttested Sample.later_write Sample.event_a
    (handleExpenseAttested Sample.first_write Sample.event_a Db.empty)
  <> handleExpenseAttested Sample.first_write Sample.event_a Db.empty.
Proof. vm_compute. discriminate. Qed.

(** C3, amended.  When the listener handles an event whose content
    address already has a stored row [r], and the block time of the
    event is a valid date, that row becomes [r] with [status] set to
    "confirmed" and [updatedAt] set to the instant of the write; its
    [id], [userAddress], [cid], [submissionHash], [txHash],
    [blockNumber], [timestamp], [category], [note] and [createdAt] stay
    as the first writer left them, every other row is untouched and no
    row is added.  When the block time is no valid date (more than
    8 640 000 000 000 seconds from the epoch) the event is dropped and
    the table stays as it was.  Over any sequence of deliveries, from
    any table, every row stays in the table with those columns unchanged
    and with its status either as it was or "confirmed": a confirmed row
    is never pending again. *)
Theorem reobserved_record_confirmed (s : Store) (e : EventArgs) (now : Write)
    (r : Expense) :
  r ∈ rows s -> cid r = arg_cid e ->
  let s' := handleExpenseAttested now e s in
  let r' := set_status "confirmed" (instant now) r in
  ((-8640000000000 <= arg_timestamp e <= 8640000000000)%Z ->
     rows s' = map (fun x => if has_cid (arg_cid e) x
                             then set_status "confirmed" (instant now) x else x)
                   (rows s)
     /\ r' ∈ rows s')
  /\ (~ (-8640000000000 <= arg_timestamp e <= 8640000000000)%Z -> s' = s)
  /\ (status r' = "confirmed" /\ updatedAt r' = instant now
      /\ id r' = id r /\ userAddress r' = userAddress r /\ cid r' = cid r
      /\ submissionHash r' = submissionHash r /\ txHash r' = txHash r
      /\ blockNumber r' = blockNumber r /\ timestamp r' = timestamp r
      /\ category r' = category r /\ note r' = note r /\ createdAt r' = createdAt r)
  /\ (forall ds s0 x, x ∈ rows s0 ->
        exists x', x' ∈ rows (deliver_all ds s0)
          /\ frame x' = frame x
          /\ (status x' = status x \/ status x' = "confirmed")
          /\ (status x = "confirmed" -> status x' = "confirmed")).
Proof.
  intros Hin Hcid s' r'. subst s' r'. split_and!; try done.
  - intros Hdate%in_Date_range_spec.
    rewrite (handled_existing now e s r Hdate Hin Hcid). simpl. split; [done |].
    apply (list_elem_of_fmap_2 (confirm now (arg_cid e))) in Hin.
    unfold confirm in Hin at 1. by rewrite (proj2 (has_cid_true _ _) Hcid) in Hin.
  - intros Hdate. apply handle_refused.
    destruct (in_Date_range e) eqn:Hrange; [| done].
    by apply in_Date_range_spec in Hrange.
  - intros ds s0 x Hx.
    destruct (delivered_row_kept ds s0 x Hx) as (x' & Hx' & Hframe & Hstatus).
    exists x'. split_and!; try done.
    intros Hconf. destruct Hstatus; congruence.
Qed.

Lemma reobserved_record_confirmed_witness :
  Sample.pending_row ∈ rows Sample.pending_store
  /\ cid Sample.pending_row = arg_cid Sample.event_a
  /\ rows (handleExpenseAttested Sample.later_write Sample.event_a Sample.pending_store)
     = [set_status "confirmed" (instant Sample.later_write) Sample.pending_row].
Proof.
  assert (Sample.pending_row ∈ rows Sample.pending_store) as Hin by (simpl; by left).
  assert (cid Sample.pending_row = arg_cid Sample.event_a) as Hcid by reflexivity.
  split_and!; [exact Hin | exact Hcid |].
  refine (proj1 (proj1 (reobserved_record_confirmed Sample.pending_store Sample.event_a
                          Sample.later_write Sample.pending_row Hin Hcid) _)).
  simpl. lia.
Defined.

(** Status is not the only column a re-observation writes: the row of
    [Sample.pending_store] comes back with a new [updatedAt]. *)
Lemma reobservation_rewrites_updatedAt :
  findUnique "QmA" Sample.pending_store = Some Sample.pending_row
  /\ findUnique "QmA" (handleExpenseAttested Sample.later_write Sample.event_a
                         Sample.pending_store)
     <> Some (set_status "confirmed" (updatedAt Sample.pending_row) Sample.pending_row).
Proof. split; [reflexivity |]. vm_compute. discriminate. Qed.

End IndexerFacts.

(* ================================================================== *)
(** * Properties of the read routes *)
(* ================================================================== *)

Module ApiFacts.
Import Db Js Api.

Lemma StronglySorted_sublist {A} (R : relation A) l1 l2 :
  l1 `sublist_of` l2 -> StronglySorted R l2 -> StronglySorted R l1.
Proof.
  induction 1 as [| x l1 l2 Hsub IH | x l1 l2 Hsub IH]; intros Hsorted.
  - constructor.
  - apply StronglySorted_inv in Hsorted as [Hrest Hall].
    constructor; [auto |].
    apply Forall_forall. intros y Hy.
    apply (proj1 (Forall_forall _ _) Hall).
    by eapply sublist_subseteq.
  - apply StronglySorted_inv in Hsorted as [Hrest _]. auto.
Qed.

Lemma StronglySorted_rev {A} (R : relation A) l :
  StronglySorted R l -> StronglySorted (flip R) (rev l).
Proof.
  induction 1 as [| x l Hl IH Hx]; simpl; [constructor |].
  apply StronglySorted_app. split_and!; [| done | repeat constructor].
  intros y z Hy%list_elem_of_In%in_rev%list_elem_of_In ->%list_elem_of_singleton.
  by apply (proj1 (Forall_forall _ _) Hx).
Qed.

Section Reads.
Context (db : Database).

(** What [take] selects of the ordered rows: the rows listed, and the
    rows left out, in the order the database gave them. *)
Lemma findMany_split q n s :
  let found := List.filter (matches q) (rows s) in
  exists ordered rest,
    ordered ≡ₚ found
    /\ (if (0 <=? n)%Z
        then StronglySorted newer_first ordered /\ findMany db q n s ++ rest = ordered
        else StronglySorted older_first ordered /\ rev (findMany db q n s) ++ rest = ordered)
    /\ length (findMany db q n s) = Nat.min (Z.to_nat (Z.abs n)) (length found).
Proof.
  intros found. unfold findMany. fold found. destruct (Z.leb_spec 0 n) as [Hn | Hn].
  - exists (order_desc db found), (skipn (Z.to_nat n) (order_desc db found)).
    split_and!; [apply order_desc_Permutation | apply order_desc_sorted | apply take_drop |].
    rewrite length_take, (Permutation_length (order_desc_Permutation db found)). lia.
  - exists (order_asc db found), (skipn (Z.to_nat (- n)) (order_asc db found)).
    split_and!; [apply order_asc_Permutation | apply order_asc_sorted | |].
    + rewrite rev_involutive. apply take_drop.
    + rewrite length_rev, length_take, (Permutation_length (order_asc_Permutation db found)).
      lia.
Qed.

Lemma findMany_sorted q n s : StronglySorted newer_first (findMany db q n s).
Proof.
  unfold findMany. destruct (0 <=? n)%Z.
  - eapply StronglySorted_sublist; [apply sublist_take | apply order_desc_sorted].
  - apply (StronglySorted_rev older_first).
    eapply StronglySorted_sublist; [apply sublist_take | apply order_asc_sorted].
Qed.

Lemma findMany_rest q n s :
  exists rest,
    findMany db q n s ++ rest ≡ₚ List.filter (matches q) (rows s)
    /\ forall r r', r ∈ findMany db q n s -> r' ∈ rest ->
         if (0 <=? n)%Z then (timestamp r' <= timestamp r)%Z
         else (timestamp r <= timestamp r')%Z.
Proof.
  destruct (findMany_split q n s) as (ordered & rest & Hperm & Hsplit & _).
  exists rest. destruct (0 <=? n)%Z; destruct Hsplit as [Hsorted Heq].
  - split; [by rewrite Heq |]. intros r r' Hr Hr'.
    rewrite <- Heq in Hsorted.
    apply (StronglySorted_app_1_elem_of _ _ _ r r' Hsorted Hr Hr').
  - split.
    + rewrite <- Hperm, <- Heq. apply Permutation_app_tail, Permutation_rev.
    + intros r r' Hr Hr'. rewrite <- Heq in Hsorted.
      apply (StronglySorted_app_1_elem_of _ _ _ r r' Hsorted); [| done].
      by apply list_elem_of_In, in_rev, list_elem_of_In; rewrite rev_involutive.
Qed.

Lemma findMany_submseteq q n s : findMany db q n s ⊆+ rows s.
Proof.
  destruct (findMany_rest q n s) as (rest & Hperm & _).
  transitivity (List.filter (matches q) (rows s)).
  - rewrite <- Hperm. by apply submseteq_inserts_r.
  - apply sublist_submseteq. clear. induction (rows s) as [| x l IH]; [done |]. simpl.
    destruct (matches q x); [by apply sublist_skip | by apply sublist_cons].
Qed.

Lemma findMany_elem q n s r : r ∈ findMany db q n s -> r ∈ rows s /\ matches q r = true.
Proof.
  intros Hin. destruct (findMany_rest q n s) as (rest & Hperm & _).
  assert (Hfound : r ∈ List.filter (matches q) (rows s)).
  { rewrite <- Hperm. apply elem_of_app. by left. }
  apply list_elem_of_In, filter_In in Hfound as [Hrow Hm].
  by apply list_elem_of_In in Hrow.
Qed.

Lemma findMany_length q n s :
  length (findMany db q n s)
  = Nat.min (Z.to_nat (Z.abs n)) (length (List.filter (matches q) (rows s))).
Proof. by destruct (findMany_split q n s) as (ordered & rest & _ & _ & Hlen). Qed.

Lemma findMany_all q n s :
  (Z.of_nat (length (List.filter (matches q) (rows s))) <= Z.abs n)%Z ->
  findMany db q n s ≡ₚ List.filter (matches q) (rows s).
Proof.
  intros Hn. destruct (findMany_rest q n s) as (rest & Hperm & _).
  pose proof (findMany_length q n s) as Hlen.
  pose proof (Permutation_length Hperm) as Hsum. rewrite length_app in Hsum.
  assert (rest = []) as -> by (apply length_zero_iff_nil; lia).
  by rewrite app_nil_r in Hperm.
Qed.

End Reads.

(** ** The proof route *)

(** C6.  For a content address with no row, [GET /proof/:cid] answers
    404 "Proof not found".  For any stored row, whatever its status, the
    answer is 200 and its [proof] object has exactly the keys [cid],
    [submissionHash], [txHash], [blockNumber], [timestamp],
    [userAddress] and [category], each holding that column of the row;
    besides [success], [proof] and [encrypted] the response has no other
    key anywhere, so no [amount] and no [note]. *)
Theorem proof_is_metadata_only (c : string) (s : Store) :
  (c ∉ map cid (rows s) -> getProof c s = failure 404 "Proof not found")
  /\ (c ∈ map cid (rows s) ->
        exists record, findUnique c s = Some record /\ (record ∈ rows s) /\ cid record = c)
  /\ (forall record, findUnique c s = Some record ->
        res_status (getProof c s) = 200%Z
        /\ field "proof" (res_body (getProof c s))
           = Some (JObj [("cid", JStr (cid record));
                         ("submissionHash", JStr (submissionHash record));
                         ("txHash", JStr (txHash record));
                         ("blockNumber", json_opt_str (blockNumber record));
                         ("timestamp", JDate (timestamp record));
                         ("userAddress", JStr (userAddress record));
                         ("category", json_opt_str (category record))])
        /\ (forall p, field "proof" (res_body (getProof c s)) = Some p -> keys p = proof_fields)
        /\ all_keys (res_body (getProof c s))
           = "success" :: "proof" :: (proof_fields ++ ["encrypted"])
        /\ ("amount" ∉ all_keys (res_body (getProof c s)))
        /\ ("note" ∉ all_keys (res_body (getProof c s)))).
Proof.
  split_and!.
  - intros Hc%IndexerFacts.find_cid_none_iff. unfold getProof, findUnique. by rewrite Hc.
  - intros Hc. destruct (findUnique c s) as [record |] eqn:Hfind.
    + exists record. unfold findUnique in Hfind.
      apply find_some in Hfind as [Hin Hcid].
      split_and!; [done | by apply list_elem_of_In | by apply IndexerFacts.has_cid_true].
    + by apply IndexerFacts.find_cid_none_iff in Hfind.
  - intros record Hfind. unfold getProof. rewrite Hfind. cbn [res_body res_status].
    assert (all_keys (JObj [("success", JBool true); ("proof", proof_json record);
                            ("encrypted", JBool true)])
            = "success" :: "proof" :: (proof_fields ++ ["encrypted"])) as Hkeys.
    { destruct record as [? ? ? ? ? [?|] ? [?|] ? ? ? ?]; reflexivity. }
    split_and!.
    + reflexivity.
    + reflexivity.
    + intros p. cbn. intros [= <-]. reflexivity.
    + exact Hkeys.
    + rewrite Hkeys. cbn. set_solver.
    + rewrite Hkeys. cbn. set_solver.
Qed.

(** ** The list route *)

(** [parseInt] reads back the decimal numeral of a natural number. *)












(** A limit is read as a double: "9007199254740993" reads as [2 ^ 53],
    and "9223372036854775807" as [2 ^ 63], which the client refuses. *)
Remark limit_read_as_double (db : Database) (s : Store) :
  parseInt "9007199254740993" = Finite (2 ^ 53)
  /\ take_arg (mkQuery (Some "9223372036854775807") None None) = Finite (2 ^ 63)
  /\ res_status (listRecords db (mkQuery (Some "9223372036854775807") None None) s) = 500%Z.
Proof.
  split_and!; [reflexivity | reflexivity |].
  unfold listRecords.
  change (take_arg (mkQuery (Some "9223372036854775807") None None)) with (Finite (2 ^ 63)).
  destruct (read_take_refused db (Finite (2 ^ 63))) as [message ->]; [| done].
  intros z [= <-]. by right.
Qed.

End ApiFacts.

(* ================================================================== *)
(** * Properties of the services *)
(* ================================================================== *)

Module ServicesFacts.
Import Js Services.

(** ** Substrings *)

Lemma append_cons c s t : String c s +:+ t = String c (s +:+ t).
Proof. reflexivity. Qed.

Lemma prefix_spec t s : String.prefix t s = true <-> exists b, s = t +:+ b.
Proof.
  revert s. induction t as [| c t IH]; intros s.
  - destruct s; simpl; (split; [intros _; by eexists | done]).
  - destruct s as [| d s]; simpl.
    { split; [done | intros [b Hb]; by rewrite append_cons in Hb]. }
    destruct (ascii_dec c d) as [-> | Hne].
    + rewrite IH. split; intros [b Hb]; exists b; rewrite append_cons in *; congruence.
    + split; [done | intros [b Hb]; rewrite append_cons in Hb; congruence].
Qed.

Lemma includes_unfold s t :
  includes s t = if String.prefix t s then true
                 else match s with "" => false | String _ r => includes r t end.
Proof. by destruct s. Qed.

Lemma includes_spec s t : includes s t = true <-> exists a b, s = a +:+ t +:+ b.
Proof.
  induction s as [| c s IH]; rewrite includes_unfold.
  - destruct (String.prefix t "") eqn:Hp.
    + split; [intros _ | done]. apply prefix_spec in Hp as [b Hb]. by exists "", b.
    + split; [done |]. intros (a & b & Hab).
      assert (String.prefix t "" = true) as Hp'; [| congruence].
      apply prefix_spec. destruct a; [by exists b | by rewrite append_cons in Hab].
  - destruct (String.prefix t (String c s)) eqn:Hp.
    + split; [intros _ | done]. apply prefix_spec in Hp as [b Hb]. by exists "", b.
    + rewrite IH. split.
      * intros (a & b & ->). by exists (String c a), b.
      * intros (a & b & Hab). destruct a as [| c' a].
        -- assert (String.prefix t (String c s) = true) as Hp'; [| congruence].
           apply prefix_spec. by exists b.
        -- rewrite append_cons in Hab. injection Hab as -> ->. by exists a, b.
Qed.

(** ** Promises *)

Lemma head_omap_elem {A B} (f : A -> option B) (l : list A) b :
  head (omap f l) = Some b -> exists a, a ∈ l /\ f a = Some b.
Proof.
  induction l as [| a l IH]; simpl; [done |].
  destruct (f a) as [b' |] eqn:Hfa; simpl.
  - intros [= ->]. exists a. split; [by left | done].
  - intros (a' & Ha' & Hfa')%IH. exists a'. split; [by right | done].
Qed.

Lemma head_omap_none {A B} (f : A -> option B) (l : list A) a :
  head (omap f l) = None -> a ∈ l -> f a = None.
Proof.
  induction l as [| a' l IH]; simpl; [by intros _ ?%elem_of_nil |].
  destruct (f a') as [b |] eqn:Hfa; simpl; [done |].
  intros Hnone [-> | Hin]%elem_of_cons; auto.
Qed.

Lemma head_omap_some {A B} (f : A -> option B) (l : list A) a b :
  a ∈ l -> f a = Some b -> is_Some (head (omap f l)).
Proof.
  intros Hin Hfa. destruct (head (omap f l)) as [b' |] eqn:Hhead; [by eexists |].
  rewrite (head_omap_none f l a Hhead Hin) in Hfa. discriminate.
Qed.

Lemma immediate_is_rejection {A} (p : Async A) m :
  immediate_rejection p = Some m -> p.2 = Rejected m.
Proof. destruct p as [[| e t] [a | m']]; simpl; congruence. Qed.

Lemma rejection_spec {A} (p : Async A) m : rejection p = Some m <-> p.2 = Rejected m.
Proof. unfold rejection. destruct p.2; split; congruence. Qed.

Lemma promise_all_rejected {A} (ps : list (Async A)) m :
  (promise_all ps).2 = Rejected m -> exists p, p ∈ ps /\ p.2 = Rejected m.
Proof.
  unfold promise_all. simpl.
  destruct (head (omap immediate_rejection ps)) as [m1 |] eqn:Hfirst.
  - intros [= <-]. apply head_omap_elem in Hfirst as (p & Hp & Hm).
    exists p. split; [done | by apply immediate_is_rejection].
  - destruct (head (omap rejection ps)) as [m2 |] eqn:Hsecond; [| done].
    intros [= <-]. apply head_omap_elem in Hsecond as (p & Hp & Hm).
    exists p. split; [done | by apply rejection_spec].
Qed.

Lemma promise_all_some_rejected {A} (ps : list (Async A)) p m :
  p ∈ ps -> p.2 = Rejected m -> exists m', (promise_all ps).2 = Rejected m'.
Proof.
  intros Hin Hm. unfold promise_all. simpl.
  destruct (head (omap immediate_rejection ps)) as [m1 |]; [by eexists |].
  destruct (head (omap rejection ps)) as [m2 |] eqn:Hsecond; [by eexists |].
  apply (head_omap_none _ _ p Hsecond) in Hin.
  apply rejection_spec in Hm. congruence.
Qed.

Lemma promise_all_effects {A} (ps : list (Async A)) :
  (promise_all ps).1 = concat (map fst ps).
Proof. reflexivity. Qed.

Lemma engine_posts_app t1 t2 : engine_posts (t1 ++ t2) = engine_posts t1 ++ engine_posts t2.
Proof. unfold engine_posts. apply List.filter_app. Qed.

Section Facts.
Context (lib : Lib) (env : gmap string string) (w : World).

Lemma retrieve_effects cid : engine_posts (retrieve lib env w cid).1 = [].
Proof.
  unfold retrieve, gateway_get. destruct (is_mock_cid cid); [done |].
  by destruct (http_get w _).
Qed.

Lemma fetches_no_engine_post {X} (fetch : X -> Async string) (cids : list X) :
  (forall x, engine_posts (fetch x).1 = []) ->
  engine_posts (promise_all (map fetch cids)).1 = [].
Proof.
  intros Hfetch. rewrite promise_all_effects.
  induction cids as [| x cids IH]; simpl; [done |].
  by rewrite engine_posts_app, Hfetch, IH.
Qed.

(** The mock always answers, without any request. *)
Lemma callMock_resolves cts op :
  exists mock, callMockCoprocessor lib w cts op = ([], Resolved mock)
    /\ coprocVersion mock = "v0.9-mock"
    /\ meta_op mock = op
    /\ meta_itemsCount mock = Z.of_nat (length cts)
    /\ resultCiphertext mock
       = base64_encode lib
           (JSON_stringify lib (JObj [("value", json_number (mock_result op (mockAmounts w cts)));
                                      ("type", JStr "euint64")])).
Proof. eexists. split; [reflexivity |]. by split_and!. Qed.

(** [callRealCoprocessor] never rejects, and posts at most once. *)
Lemma callReal_cases cts op :
  let url := COPROCESSOR_URL env in
  let payload := request_payload cts op in
  let signature := hmac_sha256_hex lib (HMAC_SECRET env) (JSON_stringify lib payload) in
  (truthy url = false
   /\ callRealCoprocessor lib env w cts op = callMockCoprocessor lib w cts op)
  \/ (truthy url = true /\ exists resp,
        callRealCoprocessor lib env w cts op
          = ([EnginePost url payload signature], Resolved resp)
        /\ match engine_post w url payload signature with
           | Resolved data => resp = data
           | Rejected _ => callMockCoprocessor lib w cts op = ([], Resolved resp)
           end).
Proof.
  intros url payload signature. unfold callRealCoprocessor. fold url payload signature.
  destruct (truthy url); [right | left; done].
  split; [done |].
  destruct (engine_post w url payload signature) as [data | m]; simpl.
  - by exists data.
  - eexists. split; reflexivity.
Qed.

(** How [aggregate] ends, by how the retrievals end. *)
Lemma aggregate_with_rejected {X} (fetch : X -> Async string) cids op t m :
  promise_all (map fetch cids) = (t, Rejected m) ->
  aggregate_with lib env w fetch cids op
    = (t, Rejected ("Coprocessor aggregation failed: " +:+ m)).
Proof.
  intros Hall. unfold aggregate_with, mbind, async_bind. rewrite Hall. simpl.
  by rewrite app_nil_r.
Qed.

Lemma aggregate_with_resolved {X} (fetch : X -> Async string) cids op t cts :
  promise_all (map fetch cids) = (t, Resolved cts) ->
  exists t' resp,
    callRealCoprocessor lib env w cts op = (t', Resolved resp)
    /\ aggregate_with lib env w fetch cids op
       = (t ++ t', Resolved {| outputCiphertext := resultCiphertext resp;
                               agg_op := op;
                               agg_itemsCount := Z.of_nat (length cids);
                               coprocessorVersion := coprocVersion resp |}).
Proof.
  intros Hall. unfold aggregate_with, mbind, async_bind. rewrite Hall.
  destruct (callReal_cases cts op) as [[_ Hmock] | [_ (resp & Hreal & _)]].
  - destruct (callMock_resolves cts op) as (mock & Hm & _).
    exists [], mock. rewrite Hmock, Hm. simpl. split; [done |]. by rewrite ?app_nil_r.
  - eexists _, resp. rewrite Hreal. simpl. split; [done |]. by rewrite ?app_nil_r.
Qed.

Lemma aggregate_with_rejection {X} (fetch : X -> Async string) cids op m :
  (aggregate_with lib env w fetch cids op).2 = Rejected m ->
  exists x m', x ∈ cids /\ (fetch x).2 = Rejected m'
    /\ m = "Coprocessor aggregation failed: " +:+ m'.
Proof.
  destruct (promise_all (map fetch cids)) as [t [cts | m']] eqn:Hall.
  - destruct (aggregate_with_resolved fetch cids op t cts Hall) as (t' & resp & _ & ->).
    done.
  - rewrite (aggregate_with_rejected fetch cids op t m' Hall). simpl. intros [= <-].
    destruct (promise_all_rejected (map fetch cids) m') as (p & Hp & Hm); [by rewrite Hall |].
    apply list_elem_of_fmap in Hp as (x & -> & Hx). eauto.
Qed.

Lemma aggregate_with_failing_fetch {X} (fetch : X -> Async string) cids op x m :
  (forall y, engine_posts (fetch y).1 = []) ->
  x ∈ cids -> (fetch x).2 = Rejected m ->
  exists y m', y ∈ cids /\ (fetch y).2 = Rejected m'
    /\ (aggregate_with lib env w fetch cids op).2
       = Rejected ("Coprocessor aggregation failed: " +:+ m')
    /\ engine_posts (aggregate_with lib env w fetch cids op).1 = [].
Proof.
  intros Hfetch Hx Hm.
  destruct (promise_all_some_rejected (map fetch cids) (fetch x) m) as [m1 Hm1];
    [by apply list_elem_of_fmap_2 | done |].
  destruct (promise_all (map fetch cids)) as [t o] eqn:Hall. simpl in Hm1. subst o.
  rewrite (aggregate_with_rejected fetch cids op t m1 Hall). simpl.
  destruct (promise_all_rejected (map fetch cids) m1) as (p & Hp & Hpm); [by rewrite Hall |].
  apply list_elem_of_fmap in Hp as (y & -> & Hy).
  exists y, m1. split_and!; try done.
  pose proof (fetches_no_engine_post fetch cids Hfetch) as Hposts.
  by rewrite Hall in Hposts.
Qed.

Lemma aggregate_items_texts cids op :
  aggregate_with lib env w (retrieve_item lib env w) (map JStr cids) op
  = aggregate lib env w cids op.
Proof.
  unfold aggregate, aggregate_with. by rewrite map_map, length_map.
Qed.

End Facts.

(** ** Statements about aggregation *)

(** C4.  If retrieving any one address of the batch fails, [aggregate]
    rejects with "Coprocessor aggregation failed: " followed by the
    message of a failed retrieval of the batch; it returns no result and
    never reaches the coprocessor.  The route then answers 500 with
    [success: false] and that error, and no aggregate. *)
Theorem fetch_failure_fails_batch (lib : Lib) (env : gmap string string) (w : World)
    (cids : list string) (op : string) (c m : string) :
  c ∈ cids -> (retrieve lib env w c).2 = Rejected m ->
  let run := aggregate lib env w cids op in
  (exists c' m', c' ∈ cids /\ (retrieve lib env w c').2 = Rejected m'
      /\ run.2 = Rejected ("Coprocessor aggregation failed: " +:+ m'))
  /\ engine_posts run.1 = []
  /\ (op ∈ valid_ops ->
      exists t m',
        post_aggregate lib env w (JObj [("cids", JArr (map JStr cids)); ("op", JStr op)])
          = (t, failure 500 ("Coprocessor aggregation failed: " +:+ m'))
        /\ engine_posts t = []).
Proof.
  intros Hc Hm run. subst run.
  destruct (aggregate_with_failing_fetch lib env w (retrieve lib env w) cids op c m
              (retrieve_effects lib env w) Hc Hm) as (c' & m' & Hc' & Hm' & Hrun & Hposts).
  split_and!; [by exists c', m' | done |].
  intros Hop. unfold post_aggregate.
  change (field "cids" (JObj [("cids", JArr (map JStr cids)); ("op", JStr op)]))
    with (Some (JArr (map JStr cids))).
  change (field "op" (JObj [("cids", JArr (map JStr cids)); ("op", JStr op)]))
    with (Some (JStr op)).
  destruct cids as [| c0 cids]; [by apply elem_of_nil in Hc |].
  cbn [cids_rejected falsy isArray items_of negb orb map length default].
  unfold Datatypes.id, op_allowed. rewrite (bool_decide_eq_true_2 _ Hop).
  cbn [items_of].
  change (JStr c0 :: map JStr cids) with (map JStr (c0 :: cids)).
  rewrite aggregate_items_texts. unfold aggregate.
  destruct (aggregate_with lib env w (retrieve lib env w) (c0 :: cids) op) as [t o].
  simpl in Hrun, Hposts. subst o.
  by exists t, m'.
Qed.

Lemma fetch_failure_fails_batch_witness :
  "QmGone" ∈ ["QmHere"; "QmGone"]
  /\ (retrieve Sample.lib ∅ Sample.offline "QmGone").2
     = Rejected "IPFS retrieval failed: Request failed with status code 404"
  /\ engine_posts (aggregate Sample.lib ∅ Sample.offline ["QmHere"; "QmGone"] "sum").1 = [].
Proof.
  assert ("QmGone" ∈ ["QmHere"; "QmGone"]) as Hin by (right; left).
  assert ((retrieve Sample.lib ∅ Sample.offline "QmGone").2
          = Rejected "IPFS retrieval failed: Request failed with status code 404") as Hm
    by reflexivity.
  split_and!; [exact Hin | exact Hm |].
  exact (proj1 (proj2 (fetch_failure_fails_batch Sample.lib ∅ Sample.offline
                         ["QmHere"; "QmGone"] "sum" "QmGone" _ Hin Hm))).
Defined.

(** C5.  A request whose [cids] is missing, is not an array, or is the
    empty array is answered 400 "cids array is required and must not be
    empty", whatever its [op].  A request with a non-empty [cids] array
    whose [op] is present and is not one of the texts "sum", "max",
    "min", "avg" is answered 400 "Invalid operation. Must be: sum, max,
    min, avg".  In both cases the handler makes no request at all: no
    content-store fetch and no coprocessor call. *)
Theorem invalid_request_rejected (lib : Lib) (env : gmap string string) (w : World)
    (body : JSON) :
  ((field "cids" body = None
    \/ (exists v, field "cids" body = Some v /\ isArray v = false)
    \/ field "cids" body = Some (JArr [])) ->
   post_aggregate lib env w body = ([], failure 400 bad_cids))
  /\ (forall item items v,
        field "cids" body = Some (JArr (item :: items)) ->
        field "op" body = Some v ->
        (forall s, s ∈ valid_ops -> v <> JStr s) ->
        post_aggregate lib env w body = ([], failure 400 bad_op))
  /\ res_status (failure 400 bad_cids) = 400%Z
  /\ res_status (failure 400 bad_op) = 400%Z.
Proof.
  split_and!; [| | done | done].
  - intros Hcids. unfold post_aggregate.
    destruct Hcids as [-> | [(v & -> & Hv) | ->]]; [done | | done].
    unfold cids_rejected. rewrite Hv. simpl. by rewrite orb_true_r.
  - intros item items v Hcids Hop Hv. unfold post_aggregate. rewrite Hcids, Hop.
    cbn [cids_rejected falsy isArray items_of negb orb length default].
    unfold Datatypes.id.
    assert (op_allowed v = None) as ->; [| done].
    unfold op_allowed. destruct v as [| | | s | | |]; try done.
    rewrite bool_decide_eq_false_2; [done |]. intros Hs. by apply (Hv s).
Qed.

(** C8, amended.  Suppose the coprocessor URL is unset, or every post
    to it fails.  Then [aggregate] never rejects because of the
    coprocessor: it rejects only when a retrieval failed.  It posts to
    the coprocessor at most once.  When all retrievals succeed, the
    requests it makes after them are those of one single pass through
    [callRealCoprocessor]: one post when a URL is set, none when it is
    unset, and never a second post; and it resolves with the answer of
    the local mock: version "v0.9-mock" and the encoded mock value as
    ciphertext. *)
Theorem engine_failure_falls_back (lib : Lib) (env : gmap string string) (w : World)
    (cids : list string) (op : string) :
  (COPROCESSOR_URL env = ""
   \/ forall payload signature,
        exists m, engine_post w (COPROCESSOR_URL env) payload signature = Rejected m) ->
  let run := aggregate lib env w cids op in
  length (engine_posts run.1) <= 1
  /\ (forall m, run.2 = Rejected m ->
        exists c m', c ∈ cids /\ (retrieve lib env w c).2 = Rejected m'
          /\ m = "Coprocessor aggregation failed: " +:+ m')
  /\ (forall t ciphertexts,
        promise_all (map (retrieve lib env w) cids) = (t, Resolved ciphertexts) ->
        exists mock,
          callMockCoprocessor lib w ciphertexts op = ([], Resolved mock)
          /\ coprocVersion mock = "v0.9-mock"
          /\ resultCiphertext mock
             = base64_encode lib
                 (JSON_stringify lib
                    (JObj [("value", json_number (mock_result op (mockAmounts w ciphertexts)));
                           ("type", JStr "euint64")]))
          /\ run.2 = Resolved {| outputCiphertext := resultCiphertext mock;
                                 agg_op := op;
                                 agg_itemsCount := Z.of_nat (length cids);
                                 coprocessorVersion := "v0.9-mock" |}
          /\ run.1 = t ++ (callRealCoprocessor lib env w ciphertexts op).1
          /\ engine_posts run.1
             = if truthy (COPROCESSOR_URL env)
               then [EnginePost (COPROCESSOR_URL env) (request_payload ciphertexts op)
                       (hmac_sha256_hex lib (HMAC_SECRET env)
                          (JSON_stringify lib (request_payload ciphertexts op)))]
               else []).
Proof.
  intros Hdown run. subst run. unfold aggregate.
  assert (forall t ciphertexts,
            promise_all (map (retrieve lib env w) cids) = (t, Resolved ciphertexts) ->
            exists mock,
              callMockCoprocessor lib w ciphertexts op = ([], Resolved mock)
              /\ aggregate_with lib env w (retrieve lib env w) cids op
                 = (t ++ (if truthy (COPROCESSOR_URL env)
                          then [EnginePost (COPROCESSOR_URL env) (request_payload ciphertexts op)
                                  (hmac_sha256_hex lib (HMAC_SECRET env)
                                     (JSON_stringify lib (request_payload ciphertexts op)))]
                          else []),
                    Resolved {| outputCiphertext := resultCiphertext mock;
                                agg_op := op;
                                agg_itemsCount := Z.of_nat (length cids);
                                coprocessorVersion := coprocVersion mock |})
              /\ engine_posts t = []) as Hresolved.
  { intros t cts Hall.
    destruct (callMock_resolves lib w cts op) as (mock & Hmock & _).
    exists mock. split; [done |].
    pose proof (fetches_no_engine_post (retrieve lib env w) cids (retrieve_effects lib env w))
      as Hposts. rewrite Hall in Hposts. split; [| done].
    destruct (aggregate_with_resolved lib env w (retrieve lib env w) cids op t cts Hall)
      as (t' & resp & Hreal & ->).
    destruct (callReal_cases lib env w cts op) as [[Hurl Heq] | [Hurl (resp' & Hreal' & Hpost)]].
    - rewrite Hurl. rewrite Heq, Hmock in Hreal. by injection Hreal as <- <-.
    - rewrite Hurl. rewrite Hreal' in Hreal. injection Hreal as <- <-.
      destruct Hdown as [Hunset | Hfails]; [by rewrite Hunset in Hurl |].
      destruct (Hfails (request_payload cts op)
                  (hmac_sha256_hex lib (HMAC_SECRET env)
                     (JSON_stringify lib (request_payload cts op)))) as [m Hm].
      rewrite Hm, Hmock in Hpost. by injection Hpost as <-. }
  split_and!.
  - destruct (promise_all (map (retrieve lib env w) cids)) as [t [cts | m]] eqn:Hall.
    + destruct (Hresolved t cts eq_refl) as (mock & _ & -> & Hposts). simpl.
      rewrite engine_posts_app, Hposts. destruct (truthy _); simpl; lia.
    + rewrite (aggregate_with_rejected lib env w _ cids op t m Hall). simpl.
      pose proof (fetches_no_engine_post (retrieve lib env w) cids (retrieve_effects lib env w))
        as Hposts. rewrite Hall in Hposts. simpl in Hposts. rewrite Hposts. simpl. lia.
  - intros m. apply aggregate_with_rejection.
  - intros t cts Hall. destruct (Hresolved t cts Hall) as (mock & Hmock & Hrun & Hposts).
    destruct (callMock_resolves lib w cts op) as (mock' & Hmock' & Hversion & _ & _ & Hcipher).
    rewrite Hmock in Hmock'. injection Hmock' as <-.
    destruct (aggregate_with_resolved lib env w (retrieve lib env w) cids op t cts Hall)
      as (t' & resp & Hreal & Hrun').
    assert ((aggregate_with lib env w (retrieve lib env w) cids op).1 = t ++ t') as Htrace
      by (by rewrite Hrun').
    rewrite Hreal. rewrite Hrun in Htrace |- *.
    exists mock. simpl. rewrite engine_posts_app, Hposts, Hversion. simpl.
    split_and!; try done. by destruct (truthy _).
Qed.

Lemma engine_failure_falls_back_witness :
  (COPROCESSOR_URL Sample.env_with_engine = ""
   \/ forall payload signature,
        exists m, engine_post Sample.engine_down (COPROCESSOR_URL Sample.env_with_engine)
                    payload signature = Rejected m)
  /\ length (engine_posts
               (aggregate Sample.lib Sample.env_with_engine Sample.engine_down
                  ["QmOne"; "QmTwo"] "max").1) <= 1.
Proof.
  assert (COPROCESSOR_URL Sample.env_with_engine = ""
          \/ forall payload signature,
               exists m, engine_post Sample.engine_down (COPROCESSOR_URL Sample.env_with_engine)
                           payload signature = Rejected m) as Hdown.
  { right. intros payload signature. by eexists. }
  split; [exact Hdown |].
  exact (proj1 (engine_failure_falls_back Sample.lib Sample.env_with_engine Sample.engine_down
                  ["QmOne"; "QmTwo"] "max" Hdown)).
Defined.

(** With no URL configured there is not one attempt but none: the
    only requests of the call are the two retrievals, and the result is
    the mock's. *)
Lemma unset_url_makes_no_attempt :
  COPROCESSOR_URL ∅ = ""
  /\ (aggregate Sample.lib ∅ Sample.engine_down ["QmOne"; "QmTwo"] "max").1
     = [HttpGet "https://gateway.pinata.cloud/ipfs/QmOne";
        HttpGet "https://gateway.pinata.cloud/ipfs/QmTwo"]
  /\ engine_posts (aggregate Sample.lib ∅ Sample.engine_down ["QmOne"; "QmTwo"] "max").1 = []
  /\ (exists result,
        (aggregate Sample.lib ∅ Sample.engine_down ["QmOne"; "QmTwo"] "max").2
        = Resolved result
        /\ coprocessorVersion result = "v0.9-mock").
Proof.
  split_and!; [reflexivity | reflexivity | reflexivity |].
  eexists. split; reflexivity.
Qed.

(** ** Mock content addresses *)

Lemma mock_cid_is_mock w : is_mock_cid (getMockCid w) = true.
Proof.
  unfold is_mock_cid. apply orb_true_intro. left.
  apply includes_spec. by exists "Qm", ("Demo" +:+ pretty (date_now w) +:+ random_suffix w).
Qed.

Lemma retrieve_mock lib env w cid :
  is_mock_cid cid = true ->
  retrieve lib env w cid = ([], Rejected "Mock CID detected - skipping").
Proof. intros Hmock. unfold retrieve. by rewrite Hmock. Qed.

Lemma retrieve_immediate lib env w cid m :
  immediate_rejection (retrieve lib env w cid) = Some m ->
  m = "Mock CID detected - skipping".
Proof.
  unfold retrieve, gateway_get. destruct (is_mock_cid cid); [by intros [= <-] |].
  by destruct (http_get w _).
Qed.

(** A batch with a mock address is rejected with the message of the
    mock check, which comes before any answer of the content store. *)
Lemma aggregate_mock_batch lib env w cid cids op :
  is_mock_cid cid = true -> cid ∈ cids ->
  (aggregate lib env w cids op).2
    = Rejected "Coprocessor aggregation failed: Mock CID detected - skipping"
  /\ engine_posts (aggregate lib env w cids op).1 = [].
Proof.
  intros Hmock Hin.
  assert (is_Some (head (omap immediate_rejection (map (retrieve lib env w) cids))))
    as [m Hhead].
  { apply (head_omap_some _ _ (retrieve lib env w cid) "Mock CID detected - skipping").
    - by apply list_elem_of_fmap_2.
    - by rewrite (retrieve_mock lib env w cid Hmock). }
  assert (m = "Mock CID detected - skipping") as ->.
  { apply head_omap_elem in Hhead as (p & (c & -> & _)%list_elem_of_fmap & Hp).
    by apply retrieve_immediate in Hp. }
  assert (promise_all (map (retrieve lib env w) cids)
          = (concat (map fst (map (retrieve lib env w) cids)),
             Rejected "Mock CID detected - skipping")) as Hall.
  { unfold promise_all. by rewrite Hhead. }
  unfold aggregate. rewrite (aggregate_with_rejected lib env w _ cids op _ _ Hall). simpl.
  split; [done |].
  pose proof (fetches_no_engine_post (retrieve lib env w) cids (retrieve_effects lib env w))
    as Hposts. by rewrite Hall in Hposts.
Qed.

Lemma upload_falls_back lib env w ciphertext :
  (PINATA_API_KEY env = "" \/ PINATA_SECRET_API_KEY env = ""
   \/ exists m, (uploadToPinata w (base64_decode lib ciphertext)).2 = Rejected m) ->
  (upload lib env w ciphertext).2 = Resolved (getMockCid w).
Proof.
  intros Hcase. unfold upload.
  destruct (truthy (PINATA_API_KEY env)) eqn:Hkey; [| done].
  destruct (truthy (PINATA_SECRET_API_KEY env)) eqn:Hsecret; [| done].
  destruct Hcase as [Hk | [Hs | [m Hm]]].
  - by rewrite Hk in Hkey.
  - by rewrite Hs in Hsecret.
  - simpl. destruct (uploadToPinata w (base64_decode lib ciphertext)) as [t o].
    simpl in Hm. by subst o.
Qed.

(** C9.  [retrieve] rejects, without any request, every address that
    contains "Mock" or equals "QmYwAPJzv5CZsnAMockCID12345", so every
    batch that includes such an address makes [aggregate] reject, before
    the coprocessor is reached.  [upload] resolves with the address
    "QmMockDemo" followed by the clock reading and a random suffix
    whenever a pinning credential is missing or the pinning call fails;
    that address contains "Mock", so it can never be retrieved or
    aggregated. *)
Theorem mock_addresses_never_aggregate (lib : Lib) (env : gmap string string) (w : World)
    (cid : string) :
  ((exists a b, cid = a +:+ "Mock" +:+ b) \/ cid = "QmYwAPJzv5CZsnAMockCID12345") ->
  retrieve lib env w cid = ([], Rejected "Mock CID detected - skipping")
  /\ (forall cids op, cid ∈ cids ->
        (aggregate lib env w cids op).2
          = Rejected "Coprocessor aggregation failed: Mock CID detected - skipping"
        /\ engine_posts (aggregate lib env w cids op).1 = [])
  /\ (forall env' w' ciphertext,
        (PINATA_API_KEY env' = "" \/ PINATA_SECRET_API_KEY env' = ""
         \/ exists m, (uploadToPinata w' (base64_decode lib ciphertext)).2 = Rejected m) ->
        (upload lib env' w' ciphertext).2 = Resolved (getMockCid w'))
  /\ (forall w',
        getMockCid w' = "QmMockDemo" +:+ pretty (date_now w') +:+ random_suffix w'
        /\ retrieve lib env w (getMockCid w') = ([], Rejected "Mock CID detected - skipping")
        /\ forall cids op, getMockCid w' ∈ cids ->
             (aggregate lib env w cids op).2
               = Rejected "Coprocessor aggregation failed: Mock CID detected - skipping").
Proof.
  intros Hcid.
  assert (is_mock_cid cid = true) as Hmock.
  { unfold is_mock_cid. apply orb_true_intro.
    destruct Hcid as [Hsub | ->]; [left; by apply includes_spec | right; done]. }
  split_and!.
  - by apply retrieve_mock.
  - intros cids op Hin. by apply (aggregate_mock_batch lib env w cid).
  - intros env' w' ciphertext. apply upload_falls_back.
  - intros w'. split_and!; [done | apply retrieve_mock, mock_cid_is_mock |].
    intros cids op Hin.
    apply (aggregate_mock_batch lib env w (getMockCid w') cids op (mock_cid_is_mock w') Hin).
Qed.

Lemma mock_addresses_never_aggregate_witness :
  ((exists a b, "QmMockDemo1700000000000k3x9ab" = a +:+ "Mock" +:+ b)
   \/ "QmMockDemo1700000000000k3x9ab" = "QmYwAPJzv5CZsnAMockCID12345")
  /\ retrieve Sample.lib ∅ Sample.engine_down "QmMockDemo1700000000000k3x9ab"
     = ([], Rejected "Mock CID detected - skipping").
Proof.
  assert ((exists a b, "QmMockDemo1700000000000k3x9ab" = a +:+ "Mock" +:+ b)
          \/ "QmMockDemo1700000000000k3x9ab" = "QmYwAPJzv5CZsnAMockCID12345") as Hcid.
  { left. by exists "Qm", "Demo1700000000000k3x9ab". }
  split; [exact Hcid |].
  exact (proj1 (mock_addresses_never_aggregate Sample.lib ∅ Sample.engine_down
                  "QmMockDemo1700000000000k3x9ab" Hcid)).
Defined.

End ServicesFacts.

(* ================================================================== *)
(** * The ledger's storage and its event log *)
(* ================================================================== *)

Module LedgerLogFacts.
Import Ledger LedgerFacts.

(** The three ways a transaction can end. *)
Lemma step_cases s t :
  (exists ctx h cid meta, t = mkTx ctx (CallAttestExpense h cid meta)
      /\ isAttested s h = true /\ step s t = s)
  \/ (exists ctx h cid meta, t = mkTx ctx (CallAttestExpense h cid meta)
      /\ isAttested s h = false
      /\ step s t =
           {| userCids := <[msg_sender ctx := userCids_at s (msg_sender ctx) ++ [cid]]> (userCids s);
              attestedHashes := <[h := true]> (attestedHashes s);
              logs := logs s ++ [ExpenseAttested (msg_sender ctx) h cid (block_timestamp ctx) meta] |})
  \/ (exists ctx pk, t = mkTx ctx (CallRegisterPublicKey pk)
      /\ step s t = {| userCids := userCids s; attestedHashes := attestedHashes s;
                       logs := logs s ++ [PublicKeyRegistered (msg_sender ctx) pk] |}).
Proof.
  destruct t as [ctx [h cid meta | pk]]; unfold step.
  - destruct (isAttested_cases s h) as [Hdup | Hfresh].
    + left. exists ctx, h, cid, meta. by rewrite (transact_attest_duplicate _ _ _ _ _ Hdup).
    + right; left. exists ctx, h, cid, meta. split_and!; [done.. |].
      unfold transact, dispatch. simpl. by rewrite (attestExpense_fresh _ _ _ _ _ Hfresh).
  - right; right. exists ctx, pk. by rewrite transact_register.
Qed.

Lemma attested_events_attest s u h c ts m :
  attested_events {| userCids := <[u := userCids_at s u ++ [c]]> (userCids s);
                     attestedHashes := <[h := true]> (attestedHashes s);
                     logs := logs s ++ [ExpenseAttested u h c ts m] |}
  = attested_events s ++ [mkAttested u h c ts m].
Proof. unfold attested_events. simpl. by rewrite omap_app. Qed.

Lemma attested_events_register s u pk :
  attested_events {| userCids := userCids s; attestedHashes := attestedHashes s;
                     logs := logs s ++ [PublicKeyRegistered u pk] |}
  = attested_events s.
Proof. unfold attested_events. simpl. rewrite omap_app. simpl. by rewrite app_nil_r. Qed.

(** A fingerprint is marked only by the call that emits its event. *)
Lemma marked_is_logged txs h :
  isAttested (run txs initial) h = true -> h ∈ hashes (run txs initial).
Proof.
  induction txs as [| t txs IH] using rev_ind; [done |].
  rewrite run_snoc.
  destruct (step_cases (run txs initial) t)
    as [(ctx & h' & cid & meta & _ & _ & ->)
       | [(ctx & h' & cid & meta & _ & _ & ->) | (ctx & pk & _ & ->)]].
  - done.
  - unfold hashes. rewrite attested_events_attest, map_app. simpl.
    unfold isAttested, attestedHashes_at. simpl.
    destruct (decide (h = h')) as [-> | Hne].
    + intros _. apply elem_of_app. right. by apply list_elem_of_singleton.
    + rewrite lookup_insert_ne by done. intros Hh. apply elem_of_app. left. by apply IH.
  - unfold hashes. rewrite attested_events_register. apply IH.
Qed.

(** X1.  In every state the contract can reach from deployment,
    [isAttested h] is true exactly when an [ExpenseAttested] event with
    fingerprint [h] is in the log; no fingerprint is in the log twice;
    and [attestExpense] with fingerprint [h] goes through exactly when
    no such event is in the log yet, whatever the caller, the content
    address and the auxiliary data are: a duplicate fingerprint is the
    only thing the function refuses. *)
Theorem fingerprint_marked_iff_emitted (txs : list Tx) (h : N) :
  let s := run txs initial in
  (isAttested s h = true <-> h ∈ hashes s)
  /\ NoDup (hashes s)
  /\ (forall ctx cid meta,
        ((transact (mkTx ctx (CallAttestExpense h cid meta)) s).2 = None <-> h ∉ hashes s)
        /\ ((transact (mkTx ctx (CallAttestExpense h cid meta)) s).2 = Some "Already attested"
            <-> h ∈ hashes s)).
Proof.
  intros s.
  assert (Hiff : isAttested s h = true <-> h ∈ hashes s).
  { split; [apply marked_is_logged |].
    apply (log_inv_run txs initial log_inv_initial). }
  split_and!; [done | apply attested_hashes_NoDup |].
  intros ctx cid meta.
  destruct (isAttested_cases s h) as [Hdup | Hfresh].
  - rewrite (transact_attest_duplicate _ _ _ _ _ Hdup). simpl.
    split; split; try done.
    + intros Hnot. destruct Hnot. by apply Hiff.
    + intros _. by apply Hiff.
  - destruct (transact_attest_fresh ctx h cid meta s Hfresh) as (s' & -> & _). simpl.
    assert (Hnot : h ∉ hashes s).
    { intros Hin. apply Hiff in Hin. congruence. }
    split; split; done.
Qed.

Lemma user_cids_logged txs u :
  getUserCids (run txs initial) u = logged_cids (run txs initial) u.
Proof.
  induction txs as [| t txs IH] using rev_ind; [done |].
  rewrite run_snoc.
  destruct (step_cases (run txs initial) t)
    as [(ctx & h' & cid & meta & _ & _ & ->)
       | [(ctx & h' & cid & meta & _ & _ & ->) | (ctx & pk & _ & ->)]].
  - done.
  - unfold logged_cids. rewrite attested_events_attest, List.filter_app, map_app.
    fold (logged_cids (run txs initial) u). rewrite <- IH.
    unfold getUserCids, userCids_at, sent_by. simpl.
    destruct (decide (msg_sender ctx = u)) as [<- | Hne].
    + rewrite lookup_insert_eq. by rewrite bool_decide_eq_true_2.
    + rewrite lookup_insert_ne by done. rewrite bool_decide_eq_false_2 by done.
      simpl. by rewrite app_nil_r.
  - unfold logged_cids. rewrite attested_events_register. apply IH.
Qed.

(** X2.  In every reachable state, [getUserCids u] is the list of the
    content addresses of the [ExpenseAttested] events that [u] sent, in
    the order of the log, and [getUserAttestationCount u] is the number
    of those events: storage and log tell the same story. *)
Theorem user_cids_mirror_log (txs : list Tx) (u : N) :
  let s := run txs initial in
  getUserCids s u = map ev_cid (List.filter (sent_by u) (attested_events s))
  /\ getUserAttestationCount s u
     = N.of_nat (length (List.filter (sent_by u) (attested_events s))).
Proof.
  intros s. subst s. split.
  - apply user_cids_logged.
  - unfold getUserAttestationCount. fold (getUserCids (run txs initial) u).
    rewrite (user_cids_logged txs u). unfold logged_cids. by rewrite length_map.
Qed.

Lemma step_observable s1 s2 t :
  observable s1 = observable s2 -> observable (step s1 t) = observable (step s2 t).
Proof.
  unfold observable. intros [= Hcids Hmarks Hevents].
  assert (Hatt : forall h, isAttested s1 h = isAttested s2 h).
  { intros h. unfold isAttested, attestedHashes_at. by rewrite Hmarks. }
  destruct (step_cases s1 t)
    as [(ctx & h & cid & meta & -> & Hdup & ->)
       | [(ctx & h & cid & meta & -> & Hfresh & ->) | (ctx & pk & -> & ->)]].
  - rewrite Hatt in Hdup. unfold step.
    rewrite (transact_attest_duplicate _ _ _ _ _ Hdup). simpl. congruence.
  - rewrite Hatt in Hfresh. unfold step, transact, dispatch. simpl.
    rewrite (attestExpense_fresh _ _ _ _ _ Hfresh). simpl.
    rewrite !attested_events_attest. unfold userCids_at. by rewrite Hcids, Hmarks, Hevents.
  - unfold step. rewrite transact_register. simpl.
    rewrite !attested_events_register. congruence.
Qed.

Lemma step_register_observable s t :
  is_attest t = false -> observable (step s t) = observable s.
Proof.
  destruct t as [ctx [h cid meta | pk]]; [done |]. intros _.
  unfold step. rewrite transact_register. unfold observable. simpl.
  by rewrite attested_events_register.
Qed.

Lemma run_cons t txs s : run (t :: txs) s = run txs (step s t).
Proof. reflexivity. Qed.

Lemma run_observable txs s1 s2 :
  observable s1 = observable s2 -> observable (run txs s1) = observable (run txs s2).
Proof.
  revert s1 s2. induction txs as [| t txs IH]; intros s1 s2 Hobs; [done |].
  rewrite !run_cons. apply IH. by apply step_observable.
Qed.

Lemma run_filter_attest txs s :
  observable (run txs s) = observable (run (List.filter is_attest txs) s).
Proof.
  revert s. induction txs as [| t txs IH]; intros s; [done |].
  simpl List.filter. destruct (is_attest t) eqn:Ht.
  - rewrite !run_cons. apply IH.
  - rewrite run_cons, <- IH. apply run_observable. by apply step_register_observable.
Qed.

(** X3.  [registerPublicKey] never reverts and stores nothing: take any
    history of transactions and drop every [registerPublicKey] call from
    it; then [getUserCids], [isAttested] and [getUserAttestationCount]
    answer the same for every argument, and the same [ExpenseAttested]
    events have been emitted.  A registered key can be read from the
    event log only. *)
Theorem registerPublicKey_stores_nothing (txs : list Tx) (s : State) :
  let s1 := run txs s in
  let s2 := run (List.filter is_attest txs) s in
  (forall u, getUserCids s1 u = getUserCids s2 u)
  /\ (forall h, isAttested s1 h = isAttested s2 h)
  /\ (forall u, getUserAttestationCount s1 u = getUserAttestationCount s2 u)
  /\ attested_events s1 = attested_events s2
  /\ (forall ctx pk,
        transact (mkTx ctx (CallRegisterPublicKey pk)) s1
        = ({| userCids := userCids s1; attestedHashes := attestedHashes s1;
              logs := logs s1 ++ [PublicKeyRegistered (msg_sender ctx) pk] |}, None)).
Proof.
  intros s1 s2.
  pose proof (run_filter_attest txs s) as Hobs. fold s1 s2 in Hobs.
  unfold observable in Hobs. injection Hobs as Hcids Hmarks Hevents.
  split_and!.
  - intros u. unfold getUserCids, userCids_at. by rewrite Hcids.
  - intros h. unfold isAttested, attestedHashes_at. by rewrite Hmarks.
  - intros u. unfold getUserAttestationCount, userCids_at. by rewrite Hcids.
  - done.
  - intros ctx pk. apply transact_register.
Qed.

End LedgerLogFacts.

(* ================================================================== *)
(** * Properties of the scan of recent blocks and of the life cycle *)
(* ================================================================== *)

Module ListenerFacts.
Import Js Db Indexer Api Services Listener IndexerFacts.

Lemma toLowerCase_idemp s : toLowerCase (toLowerCase s) = toLowerCase s.
Proof.
  induction s as [| c s IH]; [done |]. simpl. f_equal; [| done].
  unfold lower_char.
  destruct ((65 <=? nat_of_ascii c)%nat && (nat_of_ascii c <=? 90)%nat) eqn:Hup.
  - apply andb_true_iff in Hup as [Hlo%Nat.leb_le Hhi%Nat.leb_le].
    rewrite nat_ascii_embedding by lia.
    replace ((nat_of_ascii c + 32 <=? 90)%nat) with false; [by rewrite andb_false_r |].
    symmetry. apply Nat.leb_gt. lia.
  - by rewrite Hup.
Qed.

Lemma deliver_all_snoc ds d s :
  deliver_all (ds ++ [d]) s = handleExpenseAttested d.1 d.2 (deliver_all ds s).
Proof. unfold deliver_all. by rewrite foldl_app. Qed.

Lemma existsb_hash_confirm now c h l :
  existsb (has_submissionHash h) (map (confirm now c) l) = existsb (has_submissionHash h) l.
Proof.
  induction l as [| r l IH]; [done |]. simpl. rewrite IH. f_equal.
  unfold has_submissionHash. by rewrite submissionHash_confirm.
Qed.

Lemma status_confirm now c r :
  status r = "confirmed" -> status (confirm now c r) = "confirmed".
Proof. intros Hr. unfold confirm. by destruct (has_cid c r). Qed.

Lemma status_confirm_same now c r : cid r = c -> status (confirm now c r) = "confirmed".
Proof. intros Hr%has_cid_true. unfold confirm. by rewrite Hr. Qed.

(** ** Settled events *)

Lemma settled_after now e s :
  in_Date_range e = true -> settled e (handleExpenseAttested now e s).
Proof.
  intros Hvalid.
  destruct (handle_cases now e s) as [r0 _ Hfind | _ Hfind Hhash | _ Hfind Hhash | Hdate];
    [| | | congruence]; split; simpl.
  - intros r (x & -> & Hx)%list_elem_of_fmap Hcid. rewrite cid_confirm in Hcid.
    by apply status_confirm_same.
  - left. unfold cids_of. simpl. rewrite map_cid_confirm.
    apply find_some in Hfind as [Hin Hcid%has_cid_true].
    apply list_elem_of_fmap. exists r0. split; [done | by apply list_elem_of_In].
  - intros r [Hin | ->%list_elem_of_singleton]%elem_of_app Hcid; [| done].
    by destruct (find_none_not_in _ _ _ Hfind Hin).
  - left. unfold cids_of. simpl. rewrite map_app. apply elem_of_app. right.
    by apply list_elem_of_singleton.
  - intros r Hin Hcid. by destruct (find_none_not_in _ _ _ Hfind Hin).
  - by right.
Qed.

Lemma settled_kept now e' e s : settled e s -> settled e (handleExpenseAttested now e' s).
Proof.
  intros [Hconfirmed Hstored].
  destruct (handle_cases now e' s) as [r0 _ Hfind | _ Hfind Hhash | _ Hfind Hhash | _];
    [| | done | done].
  - split; simpl.
    + intros r (x & -> & Hx)%list_elem_of_fmap Hcid. rewrite cid_confirm in Hcid.
      apply status_confirm. by apply Hconfirmed.
    + unfold cids_of. simpl. by rewrite map_cid_confirm, existsb_hash_confirm.
  - split; simpl.
    + intros r [Hin | ->%list_elem_of_singleton]%elem_of_app Hcid; [by apply Hconfirmed | done].
    + unfold cids_of. simpl. rewrite map_app, existsb_app.
      destruct Hstored as [Hc | Hh]; [left | right].
      * apply elem_of_app. by left.
      * by rewrite Hh.
Qed.

(** An event brings nothing new to a table in which it is settled, nor
    when its block time is no valid date. *)
Lemma settled_same_content now e s :
  in_Date_range e = false \/ settled e s -> same_content (handleExpenseAttested now e s) s.
Proof.
  intros [Hdate | [Hconfirmed Hstored]]; [by rewrite handle_refused |].
  unfold same_content.
  destruct (handle_cases now e s) as [r0 _ Hfind | _ Hfind Hhash | _ Hfind Hhash | _];
    [| | done | done]; simpl.
  - rewrite map_map. apply map_ext_in. intros r Hin%list_elem_of_In.
    apply content_confirm. by apply Hconfirmed.
  - destruct Hstored as [Hc | Hh]; [| congruence].
    by apply find_cid_none_iff in Hfind.
Qed.

Lemma deliver_all_settles ds s d :
  d ∈ ds -> in_Date_range d.2 = true -> settled d.2 (deliver_all ds s).
Proof.
  intros Hin Hdate. revert Hin.
  induction ds as [| d' ds IH] using rev_ind; [by intros ?%elem_of_nil |].
  rewrite deliver_all_snoc.
  intros [Hin | ->%list_elem_of_singleton]%elem_of_app.
  - apply settled_kept. by apply IH.
  - by apply settled_after.
Qed.

Lemma replay_settled ds s :
  (forall d, d ∈ ds -> in_Date_range d.2 = false \/ settled d.2 s) ->
  same_content (deliver_all ds s) s.
Proof.
  revert s. induction ds as [| d ds IH]; intros s Hall; [done |].
  change (deliver_all (d :: ds) s) with (deliver_all ds (handleExpenseAttested d.1 d.2 s)).
  unfold same_content in *. rewrite IH.
  - apply settled_same_content. apply Hall. by left.
  - intros d' Hin. destruct (Hall d') as [Hdate | Hsettled]; [by right | by left |].
    right. by apply settled_kept.
Qed.

Lemma replay_delivered ds1 ds2 s :
  (forall d, d ∈ ds2 -> d.2 ∈ map snd ds1) ->
  same_content (deliver_all ds2 (deliver_all ds1 s)) (deliver_all ds1 s).
Proof.
  intros Hsub. apply replay_settled. intros d Hin.
  destruct (in_Date_range d.2) eqn:Hdate; [right | by left].
  destruct (proj1 (list_elem_of_fmap _ _ _) (Hsub d Hin)) as (d1 & Heq & Hin1).
  rewrite Heq in Hdate |- *. by apply deliver_all_settles.
Qed.

(** ** What a run of deliveries stores *)

Lemma handled_cids now e s c :
  c ∈ cids_of (handleExpenseAttested now e s) -> c ∈ cids_of s \/ c = arg_cid e.
Proof.
  unfold cids_of.
  destruct (handle_cases now e s) as [r0 _ Hfind | _ Hfind Hhash | _ Hfind Hhash | _]; simpl.
  - rewrite map_cid_confirm. by left.
  - rewrite map_app. intros [Hin | ->%list_elem_of_singleton]%elem_of_app; [by left | by right].
  - by left.
  - by left.
Qed.

Lemma delivered_cids ds s c :
  c ∈ cids_of (deliver_all ds s) -> c ∈ cids_of s \/ exists d, d ∈ ds /\ arg_cid d.2 = c.
Proof.
  induction ds as [| d ds IH] using rev_ind; [by left |].
  rewrite deliver_all_snoc. intros [Hin | ->]%handled_cids.
  - destruct (IH Hin) as [Hs | (d' & Hd' & Hc)]; [by left |].
    right. exists d'. split; [| done]. apply elem_of_app. by left.
  - right. exists d. split; [| done]. apply elem_of_app. right. by apply list_elem_of_singleton.
Qed.

(** ** Redelivery *)

Lemma rescan_same_content stamp stamp' node s :
  same_content (processRecentEvents stamp' node (processRecentEvents stamp node s))
               (processRecentEvents stamp node s).
Proof.
  unfold processRecentEvents.
  destruct (getBlockNumber node) as [currentBlock | m]; [| done].
  destruct (queryFilter node (fromBlock_of currentBlock) currentBlock) as [events | m]; [| done].
  apply replay_delivered. intros d (i & l & -> & Hl)%elem_of_lookup_imap. simpl.
  apply list_elem_of_fmap. exists (stamp i, l.2). split; [done |].
  by apply (elem_of_lookup_imap_2 (fun i ev => (stamp i, ev.2)) events l i).
Qed.

(** X4.  Events that have been delivered can be delivered again, in any
    order, any number of times and at any later instants: no row is
    added or removed and no column of any row changes except
    [updatedAt].  So it does no harm that [start] subscribes to live
    events and then scans the last blocks, which hands the handler the
    same events twice, nor that a restart scans them again: a second
    [processRecentEvents] against the same node changes nothing but
    [updatedAt]. *)
Theorem redelivery_changes_only_updatedAt (s : Store) :
  (forall ds1 ds2 : list (Write * EventArgs),
      (forall d, d ∈ ds2 -> d.2 ∈ map snd ds1) ->
      let s1 := deliver_all ds1 s in
      map content (rows (deliver_all ds2 s1)) = map content (rows s1)
      /\ cids_of (deliver_all ds2 s1) = cids_of s1
      /\ map status (rows (deliver_all ds2 s1)) = map status (rows s1))
  /\ (forall stamp stamp' node,
        let s1 := processRecentEvents stamp node s in
        map content (rows (processRecentEvents stamp' node s1)) = map content (rows s1)).
Proof.
  assert (Hcontent : forall s1 s2, same_content s1 s2 ->
            cids_of s1 = cids_of s2 /\ map status (rows s1) = map status (rows s2)).
  { intros s1 s2 Hsame. unfold same_content, cids_of in *.
    assert (Hvia : forall {B} (f : Expense -> B) l,
              (forall r, f (content r) = f r) -> map f l = map f (map content l)).
    { intros B f l Hf. rewrite map_map. apply map_ext. intros r. by rewrite Hf. }
    split.
    - rewrite (Hvia _ cid (rows s1)), (Hvia _ cid (rows s2)) by done. by rewrite Hsame.
    - rewrite (Hvia _ status (rows s1)), (Hvia _ status (rows s2)) by done. by rewrite Hsame. }
  split.
  - intros ds1 ds2 Hsub s1.
    pose proof (replay_delivered ds1 ds2 s Hsub) as Hsame. fold s1 in Hsame.
    destruct (Hcontent _ _ Hsame). by split_and!.
  - intros stamp stamp' node s1. apply rescan_same_content.
Qed.

(** ** The window of the scan *)

Lemma scan_answered stamp node s head :
  getBlockNumber node = Resolved head -> getLogs_error node = None ->
  processRecentEvents stamp node s
  = deliver_all (imap (fun i ev => (stamp i, ev.2))
                   (List.filter (in_blocks (fromBlock_of head) head) (chain_logs node))) s.
Proof.
  intros Hhead Hlogs. unfold processRecentEvents, queryFilter. by rewrite Hhead, Hlogs.
Qed.

Lemma in_blocks_spec fromBlock toBlock l :
  in_blocks fromBlock toBlock l = true <-> (fromBlock <= l.1 <= toBlock)%Z.
Proof. unfold in_blocks. rewrite andb_true_iff, !Z.leb_le. tauto. Qed.

(** X5.  [processRecentEvents] reads the logs of the blocks
    [max(0, head - 10)] to [head] and nothing else.  If the node fails
    to give its head or refuses the query, the table stays as it was.
    Otherwise every content address the scan adds comes from a log of
    those blocks, and every log of those blocks whose block time is a
    valid date ends up with its content address stored, or with its
    fingerprint already stored under another content address.  A log
    more than ten blocks behind the head is not read: unless its
    content address is stored already or occurs again inside the
    window, the table has no row for it afterwards.  When the head is
    below ten, the scan starts at block zero. *)
Theorem scan_reads_last_ten_blocks (stamp : nat -> Write) (node : Node) (s : Store) :
  let s' := processRecentEvents stamp node s in
  ((exists m, getBlockNumber node = Rejected m) -> s' = s)
  /\ ((exists m, getLogs_error node = Some m) -> s' = s)
  /\ (forall head, getBlockNumber node = Resolved head -> getLogs_error node = None ->
        (forall c, c ∈ cids_of s' ->
           c ∈ cids_of s
           \/ exists l, l ∈ chain_logs node /\ arg_cid l.2 = c
                /\ (Z.max 0 (head - 10) <= l.1 <= head)%Z)
        /\ (forall l, l ∈ chain_logs node -> (Z.max 0 (head - 10) <= l.1 <= head)%Z ->
             (-8640000000000 <= arg_timestamp l.2 <= 8640000000000)%Z ->
             (forall r, r ∈ rows s' -> cid r = arg_cid l.2 -> status r = "confirmed")
             /\ (arg_cid l.2 ∈ cids_of s'
                 \/ exists r, r ∈ rows s' /\ submissionHash r = arg_submissionHash l.2))
        /\ (forall l, l ∈ chain_logs node -> (l.1 < head - 10)%Z ->
             arg_cid l.2 ∉ cids_of s ->
             (forall l', l' ∈ chain_logs node -> (Z.max 0 (head - 10) <= l'.1 <= head)%Z ->
                         arg_cid l'.2 <> arg_cid l.2) ->
             findUnique (arg_cid l.2) s' = None)
        /\ ((head < 10)%Z ->
            forall l, l ∈ chain_logs node -> (0 <= l.1 <= head)%Z ->
              (-8640000000000 <= arg_timestamp l.2 <= 8640000000000)%Z ->
              arg_cid l.2 ∈ cids_of s'
              \/ exists r, r ∈ rows s' /\ submissionHash r = arg_submissionHash l.2)).
Proof.
  intros s'. subst s'. split_and!.
  - intros [m Hm]. unfold processRecentEvents. by rewrite Hm.
  - intros [m Hm]. unfold processRecentEvents, queryFilter. rewrite Hm.
    by destruct (getBlockNumber node).
  - intros head Hhead Hlogs. rewrite (scan_answered _ _ _ _ Hhead Hlogs).
    set (events := List.filter (in_blocks (fromBlock_of head) head) (chain_logs node)).
    set (ds := imap (fun i ev => (stamp i, ev.2)) events).
    assert (Hsound : forall c, c ∈ cids_of (deliver_all ds s) ->
              c ∈ cids_of s
              \/ exists l, l ∈ chain_logs node /\ arg_cid l.2 = c
                   /\ (Z.max 0 (head - 10) <= l.1 <= head)%Z).
    { intros c [Hc | (d & Hd & Hcid)]%delivered_cids; [by left | right].
      apply elem_of_lookup_imap in Hd as (i & l & -> & Hl).
      apply list_elem_of_lookup_2, list_elem_of_In, filter_In in Hl as [Hin Hwin].
      exists l. split; [by apply list_elem_of_In |]. split; [done |].
      by apply in_blocks_spec in Hwin. }
    assert (Hcomplete : forall l, l ∈ chain_logs node ->
              (Z.max 0 (head - 10) <= l.1 <= head)%Z ->
              (-8640000000000 <= arg_timestamp l.2 <= 8640000000000)%Z ->
              settled l.2 (deliver_all ds s)).
    { intros l Hin Hwin Hdate%in_Date_range_spec.
      assert (Hev : l ∈ events).
      { apply list_elem_of_In, filter_In. split; [by apply list_elem_of_In |].
        by apply in_blocks_spec. }
      apply list_elem_of_lookup_1 in Hev as [i Hi].
      apply (deliver_all_settles ds s (stamp i, l.2)); [| done].
      by apply (elem_of_lookup_imap_2 (fun i ev => (stamp i, ev.2)) events l i). }
    assert (Hstored : forall l : Z * EventArgs, settled l.2 (deliver_all ds s) ->
              (forall r, r ∈ rows (deliver_all ds s) -> cid r = arg_cid l.2 ->
                         status r = "confirmed")
              /\ (arg_cid l.2 ∈ cids_of (deliver_all ds s)
                  \/ exists r, r ∈ rows (deliver_all ds s)
                       /\ submissionHash r = arg_submissionHash l.2)).
    { intros l [Hconfirmed [Hc | Hh]]; (split; [done |]); [by left | right].
      apply existsb_exists in Hh as (r & Hr%list_elem_of_In & Heq).
      exists r. split; [done |]. by apply bool_decide_eq_true in Heq. }
    split_and!.
    + done.
    + intros l Hin Hwin Hdate. by apply Hstored, Hcomplete.
    + intros l Hin Hold Hfresh Hnowhere. apply find_cid_none_iff.
      intros [Hc | (l' & Hin' & Hcid & Hwin)]%Hsound; [done |].
      by apply (Hnowhere l' Hin' Hwin).
    + intros Hlow l Hin Hrange Hdate. apply Hstored, Hcomplete; [done | lia | done].
Qed.

(** ** The rows the listener writes *)

Lemma listener_row_confirm now c r : listener_row r -> listener_row (confirm now c r).
Proof. unfold listener_row, confirm. destruct (has_cid c r); simpl; tauto. Qed.

Lemma written_rows ds r :
  r ∈ rows (deliver_all ds Db.empty) -> listener_row r /\ written_for ds r.
Proof.
  revert r. induction ds as [| d ds IH] using rev_ind; [by intros r ?%elem_of_nil |].
  assert (Hmore : forall r, written_for ds r -> written_for (ds ++ [d]) r).
  { intros r (d' & Hin & Hrest). exists d'. split; [| done]. apply elem_of_app. by left. }
  rewrite deliver_all_snoc. intros r.
  destruct (handle_cases d.1 d.2 (deliver_all ds Db.empty))
    as [r0 _ Hfind | _ Hfind Hhash | _ Hfind Hhash | _]; simpl.
  - intros (x & -> & Hx)%list_elem_of_fmap. destruct (IH x Hx) as [Hrow Hfor].
    split; [by apply listener_row_confirm |]. apply Hmore.
    destruct Hfor as (d' & Hin & Hrest). exists d'. split; [done |].
    unfold confirm. by destruct (has_cid _ x).
  - intros [Hin | ->%list_elem_of_singleton]%elem_of_app.
    + destruct (IH r Hin). split; [done | by apply Hmore].
    + split.
      * unfold listener_row. simpl. split_and!; try done. apply toLowerCase_idemp.
      * exists d. split; [| done]. apply elem_of_app. right. by apply list_elem_of_singleton.
  - intros Hin. destruct (IH r Hin). split; [done | by apply Hmore].
  - intros Hin. destruct (IH r Hin). split; [done | by apply Hmore].
Qed.

(** X6.  Every row of a table that only the listener has written holds
    placeholders where the chain reference should be: [txHash] is the
    text "pending" and [blockNumber] is null, whatever events arrived
    and however often; [category] and [note] are null and [status] is
    "confirmed".  The row carries the content address, the fingerprint,
    the lower-cased sender and the block time (in milliseconds) of one
    of the delivered events, and the proof route shows the same
    placeholders.  Since no such row has a category, a listing filtered
    by category returns none of them. *)
Theorem listener_rows_hold_placeholders (ds : list (Write * EventArgs)) (r : Expense) :
  r ∈ rows (deliver_all ds Db.empty) ->
  txHash r = "pending" /\ blockNumber r = None /\ category r = None /\ note r = None
  /\ status r = "confirmed"
  /\ (exists d, d ∈ ds /\ cid r = arg_cid d.2 /\ submissionHash r = arg_submissionHash d.2
         /\ userAddress r = toLowerCase (arg_user d.2)
         /\ timestamp r = (arg_timestamp d.2 * 1000)%Z
         /\ id r = key d.1 /\ createdAt r = instant d.1)
  /\ proof_json r
     = JObj [("cid", JStr (cid r));
             ("submissionHash", JStr (submissionHash r));
             ("txHash", JStr "pending");
             ("blockNumber", JNull);
             ("timestamp", JDate (timestamp r));
             ("userAddress", JStr (userAddress r));
             ("category", JNull)]
  /\ (forall db q c n, q_category q = Some c -> c <> "" ->
        findMany db q n (deliver_all ds Db.empty) = []).
Proof.
  intros Hin. destruct (written_rows ds r Hin) as [(Htx & Hblock & Hcat & Hnote & Hstatus & _) Hfor].
  split_and!; try done.
  - unfold proof_json. by rewrite Htx, Hblock, Hcat.
  - intros db q c n Hq Hc.
    destruct (findMany db q n (deliver_all ds Db.empty)) as [| x l] eqn:Hfound; [done |].
    assert (Hx : x ∈ findMany db q n (deliver_all ds Db.empty)) by (rewrite Hfound; by left).
    apply ApiFacts.findMany_elem in Hx as [Hrow Hmatch].
    destruct (written_rows ds x Hrow) as [(_ & _ & Hnone & _) _].
    unfold matches, where_category in Hmatch. rewrite Hq, Hnone in Hmatch.
    destruct c; [done |]. simpl in Hmatch. discriminate.
Qed.

Lemma listener_rows_hold_placeholders_witness :
  new_row Sample.first_write (create_payload Sample.event_a)
    ∈ rows (deliver_all [(Sample.first_write, Sample.event_a);
                         (Sample.later_write, Sample.event_b)] Db.empty)
  /\ txHash (new_row Sample.first_write (create_payload Sample.event_a)) = "pending".
Proof.
  assert (Hin : new_row Sample.first_write (create_payload Sample.event_a)
                  ∈ rows (deliver_all [(Sample.first_write, Sample.event_a);
                                       (Sample.later_write, Sample.event_b)] Db.empty)).
  { vm_compute. constructor. }
  split; [exact Hin |].
  exact (proj1 (listener_rows_hold_placeholders _ _ Hin)).
Defined.

(** ** The two keys of the table *)

Lemma map_hash_confirm now c l :
  map submissionHash (map (confirm now c) l) = map submissionHash l.
Proof. rewrite map_map. apply map_ext. intros r. apply submissionHash_confirm. Qed.

Lemma existsb_hash_false h l :
  existsb (has_submissionHash h) l = false -> h ∉ map submissionHash l.
Proof.
  intros Hnone (r & -> & Hr)%list_elem_of_fmap.
  assert (Hsome : existsb (has_submissionHash (submissionHash r)) l = true).
  { apply existsb_exists. exists r. split; [by apply list_elem_of_In |].
    by apply bool_decide_eq_true. }
  congruence.
Qed.

Lemma handled_keys now e s :
  NoDup (map cid (rows s)) -> NoDup (map submissionHash (rows s)) ->
  NoDup (map cid (rows (handleExpenseAttested now e s)))
  /\ NoDup (map submissionHash (rows (handleExpenseAttested now e s)))
  /\ length (rows s) <= length (rows (handleExpenseAttested now e s)).
Proof.
  intros Hcid Hhash.
  destruct (handle_cases now e s) as [r0 _ Hfind | _ Hfind Hnone | _ Hfind Hsome | _]; simpl.
  - rewrite map_cid_confirm, map_hash_confirm, length_map. by split_and!.
  - rewrite !map_app, length_app. simpl. split_and!; [| | lia].
    + apply NoDup_app. split_and!; [done | | apply NoDup_singleton].
      intros c Hc ->%list_elem_of_singleton. by apply find_cid_none_iff in Hfind.
    + apply NoDup_app. split_and!; [done | | apply NoDup_singleton].
      intros h Hh ->%list_elem_of_singleton. by apply existsb_hash_false in Hnone.
  - by split_and!.
  - by split_and!.
Qed.

(** X27.  The listener keeps the two unique keys of the table.  If no
    content address and no fingerprint occurs twice in the table, the
    same holds after any run of deliveries, in any order and with
    repetitions; and the listener never deletes: the table has at least
    as many rows afterwards, and every content address it held is still
    there. *)
Theorem listener_keeps_both_keys (ds : list (Write * EventArgs)) (s : Store) :
  NoDup (map cid (rows s)) -> NoDup (map submissionHash (rows s)) ->
  let s' := deliver_all ds s in
  NoDup (map cid (rows s'))
  /\ NoDup (map submissionHash (rows s'))
  /\ length (rows s) <= length (rows s')
  /\ (forall c, c ∈ cids_of s -> c ∈ cids_of s').
Proof.
  intros Hcid Hhash s'. subst s'.
  assert (Hkeys : NoDup (map cid (rows (deliver_all ds s)))
                  /\ NoDup (map submissionHash (rows (deliver_all ds s)))
                  /\ length (rows s) <= length (rows (deliver_all ds s))).
  { induction ds as [| d ds IH] using rev_ind; [by split_and! |].
    rewrite deliver_all_snoc. destruct IH as (IHcid & IHhash & IHlen).
    destruct (handled_keys d.1 d.2 (deliver_all ds s) IHcid IHhash) as (? & ? & ?).
    split_and!; [done | done | lia]. }
  destruct Hkeys as (? & ? & ?). split_and!; try done.
  intros c (r & -> & Hr)%list_elem_of_fmap.
  destruct (delivered_row_kept ds s r Hr) as (r' & Hr' & Hframe & _).
  unfold cids_of. replace (cid r) with (cid r'); [by apply list_elem_of_fmap_2 |].
  change (cid (frame r') = cid (frame r)). by rewrite Hframe.
Qed.

Lemma listener_keeps_both_keys_witness :
  NoDup (map cid (rows Sample.pending_store))
  /\ NoDup (map submissionHash (rows Sample.pending_store))
  /\ NoDup (map cid (rows (deliver_all [(Sample.first_write, Sample.event_a);
                                        (Sample.later_write, Sample.event_b);
                                        (Sample.later_write, Sample.event_a_elsewhere)]
                                       Sample.pending_store))).
Proof.
  assert (Hcid : NoDup (map cid (rows Sample.pending_store))).
  { vm_compute. apply NoDup_singleton. }
  assert (Hhash : NoDup (map submissionHash (rows Sample.pending_store))).
  { vm_compute. apply NoDup_singleton. }
  split; [exact Hcid |]. split; [exact Hhash |].
  exact (proj1 (listener_keeps_both_keys _ _ Hcid Hhash)).
Defined.

(** ** The life cycle *)

Lemma truthy_empty x : truthy x = false <-> x = "".
Proof. destruct x; simpl; split; congruence. Qed.

(** X7.  [start] does nothing when the listener is running already: no
    second subscription, no second scan.  It does nothing either when
    the node address or the contract address is not configured.
    Otherwise, once the two objects are made, the listener subscribes
    once, is marked running and scans the last blocks; it stays running
    even if the scan fails.  [stop] unsubscribes a running listener and
    does nothing to a stopped one.  After [stop], [start] subscribes and
    scans again, and against the same node that scan changes nothing
    but [updatedAt]. *)
Theorem listener_life_cycle (env : gmap string string) (ethers : Ethers)
    (stamp : nat -> Write) (node : Node) (st : ListenerState) (s : Store) :
  (running st = true -> start env ethers stamp node st s = (st, s, []))
  /\ (rpcUrl env = "" \/ contractAddress env = "" ->
      start env ethers stamp node st s = (st, s, []))
  /\ (running st = false -> stop st = (st, []))
  /\ (running st = false -> rpcUrl env <> "" -> contractAddress env <> "" ->
      JsonRpcProvider ethers (rpcUrl env) = None ->
      Contract ethers (contractAddress env) = None ->
      let started := {| running := true; provider := Some (rpcUrl env);
                        contract := Some (contractAddress env) |} in
      let halted := {| running := false; provider := Some (rpcUrl env);
                       contract := Some (contractAddress env) |} in
      let s1 := processRecentEvents stamp node s in
      start env ethers stamp node st s = (started, s1, [On (contractAddress env)])
      /\ ((exists m, getBlockNumber node = Rejected m) -> s1 = s)
      /\ (forall stamp' node' s', start env ethers stamp' node' started s' = (started, s', []))
      /\ stop started = (halted, [RemoveAllListeners (contractAddress env)])
      /\ (forall stamp',
            exists s2,
              start env ethers stamp' node halted s1 = (started, s2, [On (contractAddress env)])
              /\ map content (rows s2) = map content (rows s1))).
Proof.
  split_and!.
  - intros Hrun. unfold start. by rewrite Hrun.
  - intros Hmissing. unfold start. destruct (running st); [done |].
    replace (negb (truthy (rpcUrl env)) || negb (truthy (contractAddress env))) with true; [done |].
    symmetry. apply orb_true_iff.
    destruct Hmissing as [H%truthy_empty | H%truthy_empty]; rewrite H; auto.
  - intros Hrun. unfold stop. by rewrite Hrun.
  - intros Hrun Hurl Haddr Hprovider Hcontract started halted s1.
    assert (Hconfigured : negb (truthy (rpcUrl env)) || negb (truthy (contractAddress env)) = false).
    { apply orb_false_iff. split; apply negb_false_iff.
      - destruct (truthy (rpcUrl env)) eqn:H; [done |]. by apply truthy_empty in H.
      - destruct (truthy (contractAddress env)) eqn:H; [done |]. by apply truthy_empty in H. }
    assert (Hstart : forall stamp0 st0 s0, running st0 = false ->
              start env ethers stamp0 node st0 s0
              = (started, processRecentEvents stamp0 node s0, [On (contractAddress env)])).
    { intros stamp0 st0 s0 Hst0. unfold start.
      by rewrite Hst0, Hconfigured, Hprovider, Hcontract. }
    split_and!.
    + by apply Hstart.
    + intros [m Hm]. subst s1. unfold processRecentEvents. by rewrite Hm.
    + done.
    + done.
    + intros stamp'. eexists. split; [by apply Hstart |].
      apply rescan_same_content.
Qed.

End ListenerFacts.

(* ================================================================== *)
(** * Properties of the record routes *)
(* ================================================================== *)

Module RecordsFacts.
Import Js Db Indexer Api Listener IndexerFacts ApiFacts ListenerFacts.

Lemma findUnique_some c s r : findUnique c s = Some r -> (r ∈ rows s) /\ cid r = c.
Proof.
  unfold findUnique. intros [Hin Hcid%has_cid_true]%find_some.
  split; [by apply list_elem_of_In | done].
Qed.

Lemma findUnique_stored c s : is_Some (findUnique c s) <-> c ∈ cids_of s.
Proof.
  unfold cids_of. split.
  - intros [r [Hin <-]%findUnique_some]. by apply list_elem_of_fmap_2.
  - intros Hc. destruct (findUnique c s) eqn:Hfind; [done |].
    by apply find_cid_none_iff in Hfind.
Qed.

Lemma find_by_cid l r : NoDup (map cid l) -> r ∈ l -> find (has_cid (cid r)) l = Some r.
Proof.
  induction l as [| x l IH]; [by intros _ ?%elem_of_nil |].
  intros [Hx Hl]%NoDup_cons [-> | Hin]%elem_of_cons; simpl.
  - by rewrite (proj2 (has_cid_true (cid x) x)).
  - destruct (has_cid (cid r) x) eqn:Hsame; [| by apply IH].
    apply has_cid_true in Hsame. destruct Hx. rewrite Hsame. by apply list_elem_of_fmap_2.
Qed.

Lemma filter_sublist {A} (f : A -> bool) l : List.filter f l `sublist_of` l.
Proof.
  induction l as [| x l IH]; [done |]. simpl.
  destruct (f x); [by apply sublist_skip | by apply sublist_cons].
Qed.

Lemma findMany_NoDup db q n s :
  NoDup (map cid (rows s)) -> NoDup (map cid (findMany db q n s)).
Proof.
  intros Hs.
  destruct (submseteq_Permutation _ _ (findMany_submseteq db q n s)) as [k Hk].
  change (NoDup (cid <$> rows s)) in Hs. rewrite Hk, fmap_app in Hs.
  by apply NoDup_app in Hs as [? _].
Qed.

(** X8.  [GET /:cid] answers 404 "Record not found" exactly when no row
    has the content address, as [GET /proof/:cid] answers 404 "Proof
    not found"; otherwise both answer 200 for the same row.  The record
    carries all twelve columns of the row, [note] included; every field
    of the proof is the field of that name of the record, so the two
    routes never contradict each other, and the proof has no [note]. *)
Theorem record_and_proof_agree (c : string) (s : Store) :
  (findUnique c s = None ->
     getRecord c s = failure 404 "Record not found"
     /\ getProof c s = failure 404 "Proof not found")
  /\ (forall r, findUnique c s = Some r ->
        cid r = c /\ (r ∈ rows s)
        /\ getRecord c s
           = mkResponse 200 (JObj [("success", JBool true); ("record", expense_json r)])
        /\ field "proof" (res_body (getProof c s)) = Some (proof_json r)
        /\ keys (expense_json r)
           = ["id"; "userAddress"; "cid"; "submissionHash"; "txHash"; "blockNumber";
              "timestamp"; "category"; "note"; "status"; "createdAt"; "updatedAt"]
        /\ (forall k, k ∈ proof_fields ->
              field k (proof_json r) = field k (expense_json r)
              /\ is_Some (field k (expense_json r)))
        /\ field "note" (expense_json r) = Some (json_opt_str (note r))
        /\ field "note" (proof_json r) = None)
  /\ (res_status (getRecord c s) = 200%Z <-> c ∈ cids_of s)
  /\ (res_status (getProof c s) = 200%Z <-> c ∈ cids_of s).
Proof.
  split_and!.
  - intros Hnone. unfold getRecord, getProof. by rewrite Hnone.
  - intros r Hfind. destruct (findUnique_some _ _ _ Hfind) as [Hin Hcid].
    unfold getRecord, getProof. rewrite Hfind. split_and!; try done.
    intros k Hk. unfold proof_fields in Hk.
    repeat (apply elem_of_cons in Hk as [-> | Hk]; [by split |]).
    by apply elem_of_nil in Hk.
  - rewrite <- findUnique_stored. unfold getRecord.
    destruct (findUnique c s); simpl; split; first [done | by intros [? ?]].
  - rewrite <- findUnique_stored. unfold getProof.
    destruct (findUnique c s); simpl; split; first [done | by intros [? ?]].
Qed.

(** X9.  The content address is a key of the table (it has a unique
    index), and then the routes fit together: every record that
    [GET /] lists can be fetched under its own content address from
    [GET /:cid], which returns that very record, and from
    [GET /proof/:cid]; and no content address is listed twice. *)
Theorem listed_records_are_retrievable (db : Database) (q : Query) (s : Store)
    (records : list Expense) (r : Expense) :
  NoDup (map cid (rows s)) ->
  listRecords_rows db q s = Some records ->
  r ∈ records ->
  getRecord (cid r) s
    = mkResponse 200 (JObj [("success", JBool true); ("record", expense_json r)])
  /\ getProof (cid r) s
     = mkResponse 200 (JObj [("success", JBool true); ("proof", proof_json r);
                             ("encrypted", JBool true)])
  /\ NoDup (map cid records).
Proof.
  intros Hkey Hlist Hin. unfold listRecords_rows in Hlist.
  destruct (read_take db (take_arg q)) as [n | message]; [| done].
  injection Hlist as <-.
  destruct (findMany_elem _ _ _ _ _ Hin) as [Hrow _].
  pose proof (find_by_cid _ _ Hkey Hrow) as Hfind.
  unfold getRecord, getProof, findUnique. rewrite Hfind.
  split_and!; [done | done | by apply findMany_NoDup].
Qed.

Lemma listed_records_are_retrievable_witness :
  NoDup (map cid (rows Sample.backfilled_store))
  /\ getRecord "QmA" Sample.backfilled_store
     = mkResponse 200
         (JObj [("success", JBool true);
                ("record", expense_json (new_row (mkWrite 1700000700000 2)
                                                 (create_payload Sample.event_a)))]).
Proof.
  assert (Hkey : NoDup (map cid (rows Sample.backfilled_store))).
  { vm_compute. repeat constructor; set_solver. }
  split; [exact Hkey |].
  refine (proj1 (listed_records_are_retrievable Sample.db (mkQuery None None None)
                   Sample.backfilled_store
                   [new_row (mkWrite 1700000600000 1) (create_payload Sample.event_b);
                    new_row (mkWrite 1700000700000 2) (create_payload Sample.event_a)]
                   (new_row (mkWrite 1700000700000 2) (create_payload Sample.event_a))
                   Hkey _ _)).
  - reflexivity.
  - vm_compute. apply list_elem_of_further, list_elem_of_here.
Defined.

(** X10.  The user filter of [GET /] compares the stored address with
    the lower-cased query.  The listener lower-cases the sender before
    it stores it, so a query finds a listener row whatever the case of
    its letters.  A row whose stored address holds an upper-case letter,
    as the rows of the seed script do, matches no user filter at all:
    no query by address ever lists it. *)
Theorem user_filter_compares_lower_case (q : Query) (u : string) :
  q_userAddress q = Some u -> u <> "" ->
  (forall db s n r, r ∈ findMany db q n s ->
      userAddress r = toLowerCase u /\ toLowerCase (userAddress r) = userAddress r)
  /\ (forall db s n r, toLowerCase (userAddress r) <> userAddress r -> r ∉ findMany db q n s)
  /\ (forall now e, toLowerCase (arg_user e) = toLowerCase u ->
        where_userAddress q (new_row now (create_payload e)) = true)
  /\ (forall r, where_userAddress q r = true <-> userAddress r = toLowerCase u).
Proof.
  intros Hq Hu.
  assert (Htruthy : truthy u = true).
  { destruct u; [done | reflexivity]. }
  assert (Hwhere : forall r, where_userAddress q r = true <-> userAddress r = toLowerCase u).
  { intros r. unfold where_userAddress. rewrite Hq, Htruthy. apply bool_decide_eq_true. }
  assert (Hfound : forall db s n r, r ∈ findMany db q n s ->
            userAddress r = toLowerCase u /\ toLowerCase (userAddress r) = userAddress r).
  { intros db s n r [_ Hm]%findMany_elem. unfold matches in Hm.
    apply andb_true_iff in Hm as [_ Hm%Hwhere].
    split; [done |]. rewrite Hm. apply toLowerCase_idemp. }
  split_and!; [done | | | done].
  - intros db s n r Hupper Hin. by destruct (Hfound db s n r Hin).
  - intros now e He. apply Hwhere. simpl. done.
Qed.

Lemma user_filter_compares_lower_case_witness :
  q_userAddress (mkQuery None None (Some "0x742d35Cc6634C0532925a3b844Bc9e7595f0bEb"))
    = Some "0x742d35Cc6634C0532925a3b844Bc9e7595f0bEb"
  /\ "0x742d35Cc6634C0532925a3b844Bc9e7595f0bEb" <> ""
  /\ listRecords_rows Sample.db
                      (mkQuery None None (Some "0x742d35Cc6634C0532925a3b844Bc9e7595f0bEb"))
                      Sample.seeded_store = Some []
  /\ (forall r, r ∈ rows Sample.seeded_store ->
        forall n, r ∉ findMany Sample.db
                              (mkQuery None None (Some "0x742d35Cc6634C0532925a3b844Bc9e7595f0bEb"))
                              n Sample.seeded_store).
Proof.
  split; [reflexivity |]. split; [discriminate |]. split; [reflexivity |].
  intros r Hr n.
  refine (proj1 (proj2 (user_filter_compares_lower_case
                          (mkQuery None None (Some "0x742d35Cc6634C0532925a3b844Bc9e7595f0bEb"))
                          "0x742d35Cc6634C0532925a3b844Bc9e7595f0bEb" eq_refl _))
                Sample.db Sample.seeded_store n r _).
  - discriminate.
  - vm_compute in Hr.
    apply elem_of_cons in Hr as [-> | Hr]; [vm_compute; discriminate |].
    apply elem_of_cons in Hr as [-> | Hr]; [vm_compute; discriminate |].
    by apply elem_of_nil in Hr.
Defined.

(** X11.  What [GET /:cid] answers for the content address of an event
    once the listener has handled it.  Take first an event whose block
    time is a valid date.  If the content address is new and the
    fingerprint too, the route, which answered 404 before, now returns
    the row made from the event: lower-cased sender, "pending"
    transaction hash, block time in milliseconds, status "confirmed".
    If the content address was stored, the route returns the old row
    with [status] "confirmed" and a fresh [updatedAt].  If the
    fingerprint is stored under another content address, the event is
    dropped and the route still answers 404.  Whenever the route
    answers 200 after the delivery, the record's status is "confirmed".
    An event whose block time is no valid date (more than
    8 640 000 000 000 seconds from the epoch) is dropped: the table and
    the answer of the route stay as they were. *)
Theorem delivered_event_is_served (now : Write) (e : EventArgs) (s : Store) :
  let s' := handleExpenseAttested now e s in
  ((-8640000000000 <= arg_timestamp e <= 8640000000000)%Z ->
   findUnique (arg_cid e) s = None ->
   existsb (has_submissionHash (arg_submissionHash e)) (rows s) = false ->
     getRecord (arg_cid e) s = failure 404 "Record not found"
     /\ getRecord (arg_cid e) s'
        = mkResponse 200
            (JObj [("success", JBool true);
                   ("record",
                    JObj [("id", JNum (key now));
                          ("userAddress", JStr (toLowerCase (arg_user e)));
                          ("cid", JStr (arg_cid e));
                          ("submissionHash", JStr (arg_submissionHash e));
                          ("txHash", JStr "pending");
                          ("blockNumber", JNull);
                          ("timestamp", JDate (arg_timestamp e * 1000));
                          ("category", JNull);
                          ("note", JNull);
                          ("status", JStr "confirmed");
                          ("createdAt", JDate (instant now));
                          ("updatedAt", JDate (instant now))])]))
  /\ ((-8640000000000 <= arg_timestamp e <= 8640000000000)%Z ->
      forall r, findUnique (arg_cid e) s = Some r ->
        getRecord (arg_cid e) s'
        = mkResponse 200
            (JObj [("success", JBool true);
                   ("record", expense_json (set_status "confirmed" (instant now) r))]))
  /\ (findUnique (arg_cid e) s = None ->
      existsb (has_submissionHash (arg_submissionHash e)) (rows s) = true ->
        s' = s /\ getRecord (arg_cid e) s' = failure 404 "Record not found")
  /\ ((-8640000000000 <= arg_timestamp e <= 8640000000000)%Z -> forall r, findUnique (arg_cid e) s' = Some r -> status r = "confirmed")
  /\ (~ (-8640000000000 <= arg_timestamp e <= 8640000000000)%Z -> s' = s /\ getRecord (arg_cid e) s' = getRecord (arg_cid e) s).
Proof.
  intros s'. subst s'. split_and!.
  - intros Hdate%in_Date_range_spec Hfind Hhash.
    split; [unfold getRecord; by rewrite Hfind |].
    rewrite (handle_insert _ _ _ Hdate Hfind Hhash).
    unfold getRecord, findUnique. simpl. unfold findUnique in Hfind.
    rewrite (find_app_none _ _ _ Hfind), has_cid_new_event. reflexivity.
  - intros Hdate%in_Date_range_spec r Hfind.
    destruct (findUnique_some _ _ _ Hfind) as [Hin Hcid].
    rewrite (handled_existing now e s r Hdate Hin Hcid).
    unfold getRecord, findUnique. simpl. unfold findUnique in Hfind.
    rewrite find_map_confirm, Hfind. simpl.
    unfold confirm. by rewrite (proj2 (has_cid_true _ _) Hcid).
  - intros Hfind Hhash. rewrite (handle_dropped _ _ _ Hfind Hhash).
    split; [done |]. unfold getRecord. by rewrite Hfind.
  - intros Hdate%in_Date_range_spec r [Hin Hcid]%findUnique_some.
    by destruct (handled_row now e s r Hdate Hin Hcid).
  - intros Hdate. rewrite handle_refused; [done |].
    destruct (in_Date_range e) eqn:Hrange; [| done].
    by apply in_Date_range_spec in Hrange.
Qed.

End RecordsFacts.

(* ================================================================== *)
(** * Properties of the coprocessor service and its routes *)
(* ================================================================== *)

Module CoprocFacts.
Import Js Services ServicesFacts.

(** ** The mock coprocessor *)

Lemma mockAmounts_seq w cts :
  mockAmounts w cts = (fun i => (random_floor w i + 10)%Z) <$> seq 0 (length cts).
Proof. unfold mockAmounts. apply imap_seq_0. Qed.

Lemma fold_add l a : fold_left Z.add l a = (a + fold_left Z.add l 0)%Z.
Proof.
  revert a. induction l as [| x l IH]; intros a; cbn [fold_left]; [lia |].
  rewrite (IH (a + x)%Z), (IH (0 + x)%Z). lia.
Qed.

Lemma sum_bounds lo hi l :
  Forall (fun a => (lo <= a <= hi)%Z) l ->
  (lo * Z.of_nat (length l) <= reduce_sum l <= hi * Z.of_nat (length l))%Z.
Proof.
  unfold reduce_sum. induction 1 as [| x l Hx Hl IH]; simpl fold_left; [simpl; lia |].
  rewrite fold_add. simpl length. lia.
Qed.

Lemma fold_max_spec rest a :
  (fold_left Z.max rest a ∈ a :: rest)
  /\ Forall (fun x => (x <= fold_left Z.max rest a)%Z) (a :: rest).
Proof.
  revert a. induction rest as [| x rest IH]; intros a; simpl.
  - split; [by left | by repeat constructor].
  - destruct (IH (Z.max a x)) as [Hin Hall]. split.
    + apply elem_of_cons in Hin as [Heq | Hin]; [| by do 2 right].
      rewrite Heq. destruct (Z.max_spec a x) as [[_ ->] | [_ ->]]; [right; by left | by left].
    + apply Forall_cons in Hall as [Hmax Hrest].
      repeat constructor; [lia | lia | done].
Qed.

Lemma fold_min_spec rest a :
  (fold_left Z.min rest a ∈ a :: rest)
  /\ Forall (fun x => (fold_left Z.min rest a <= x)%Z) (a :: rest).
Proof.
  revert a. induction rest as [| x rest IH]; intros a; simpl.
  - split; [by left | by repeat constructor].
  - destruct (IH (Z.min a x)) as [Hin Hall]. split.
    + apply elem_of_cons in Hin as [Heq | Hin]; [| by do 2 right].
      rewrite Heq. destruct (Z.min_spec a x) as [[_ ->] | [_ ->]]; [by left | right; by left].
    + apply Forall_cons in Hall as [Hmin Hrest].
      repeat constructor; [lia | lia | done].
Qed.

(** X12.  The mock coprocessor never looks at the ciphertexts: its
    answer depends on how many there are and on the random draws
    only.  Two batches of the same size get the same answer. *)
Theorem mock_ignores_ciphertexts (lib : Lib) (w : World) (cts cts' : list string)
    (op : string) :
  length cts = length cts' ->
  mockAmounts w cts = mockAmounts w cts'
  /\ callMockCoprocessor lib w cts op = callMockCoprocessor lib w cts' op
  /\ mockAmounts w cts = map (fun i => (random_floor w i + 10)%Z) (seq 0 (length cts)).
Proof.
  intros Hlen.
  assert (Hamounts : mockAmounts w cts = mockAmounts w cts').
  { by rewrite !mockAmounts_seq, Hlen. }
  split_and!; [done | | apply mockAmounts_seq].
  unfold callMockCoprocessor. by rewrite Hamounts, Hlen.
Qed.

Lemma mock_ignores_ciphertexts_witness :
  length ["AAAA"; "BBBB"] = length ["secret"; ""]
  /\ callMockCoprocessor Sample.lib Sample.engine_down ["AAAA"; "BBBB"] "max"
     = callMockCoprocessor Sample.lib Sample.engine_down ["secret"; ""] "max".
Proof.
  split; [reflexivity |].
  exact (proj1 (proj2 (mock_ignores_ciphertexts Sample.lib Sample.engine_down
                         ["AAAA"; "BBBB"] ["secret"; ""] "max" eq_refl))).
Defined.

(** X13.  With every draw [Math.floor(Math.random() * 1000)] between 0
    and 999, each mock amount lies between 10 and 1009.  For a batch of
    [n] ciphertexts "sum", and any operation the switch does not know,
    give the total, between [10 n] and [1009 n]; "min", "avg" and "max"
    give values with [10 <= min <= avg <= max <= 1009], the average
    being the total divided by [n] and rounded down.  For no ciphertext
    at all the total is 0 and the other three results are not finite
    numbers. *)
Theorem mock_result_within_bounds (w : World) (cts : list string) :
  (forall i, (0 <= random_floor w i <= 999)%Z) ->
  let amounts := mockAmounts w cts in
  let n := Z.of_nat (length cts) in
  Forall (fun a => (10 <= a <= 1009)%Z) amounts
  /\ mock_result "sum" amounts = Some (reduce_sum amounts)
  /\ (10 * n <= reduce_sum amounts <= 1009 * n)%Z
  /\ (forall op, op ∉ valid_ops -> mock_result op amounts = Some (reduce_sum amounts))
  /\ (cts = [] ->
      reduce_sum amounts = 0%Z /\ mock_result "max" amounts = None
      /\ mock_result "min" amounts = None /\ mock_result "avg" amounts = None)
  /\ (cts <> [] ->
      exists lo av hi,
        mock_result "min" amounts = Some lo /\ mock_result "avg" amounts = Some av
        /\ mock_result "max" amounts = Some hi
        /\ (10 <= lo)%Z /\ (lo <= av)%Z /\ (av <= hi)%Z /\ (hi <= 1009)%Z
        /\ av = (reduce_sum amounts / n)%Z
        /\ (lo ∈ amounts) /\ (hi ∈ amounts)
        /\ Forall (fun a => (lo <= a <= hi)%Z) amounts).
Proof.
  intros Hdraw amounts n.
  assert (Hlen : length amounts = length cts).
  { subst amounts. by rewrite mockAmounts_seq, length_fmap, length_seq. }
  assert (Hall : Forall (fun a => (10 <= a <= 1009)%Z) amounts).
  { subst amounts. rewrite mockAmounts_seq. apply Forall_fmap, Forall_forall.
    intros i _. simpl. specialize (Hdraw i). lia. }
  assert (Hsum : (10 * n <= reduce_sum amounts <= 1009 * n)%Z).
  { subst n. rewrite <- Hlen. by apply sum_bounds. }
  split; [done |]. split; [done |]. split; [done |]. split; [| split].
  - intros op Hop. unfold mock_result, valid_ops in *.
    repeat case_bool_decide; try done; subst; destruct Hop; set_solver.
  - intros ->. by subst amounts.
  - intros Hcts.
    destruct amounts as [| a rest] eqn:Hamounts.
    { destruct cts; [done | simpl in Hlen; lia]. }
    destruct (fold_max_spec rest a) as [Hmax_in Hmax].
    destruct (fold_min_spec rest a) as [Hmin_in Hmin].
    exists (fold_left Z.min rest a), (reduce_sum (a :: rest) / n)%Z, (fold_left Z.max rest a).
    assert (Hpos : (0 < n)%Z).
    { subst n. destruct cts; [done | simpl; lia]. }
    assert (Hbetween : Forall (fun x => (fold_left Z.min rest a <= x <= fold_left Z.max rest a)%Z)
                              (a :: rest)).
    { apply Forall_forall. intros x Hx.
      rewrite Forall_forall in Hmax, Hmin. split; [by apply Hmin | by apply Hmax]. }
    pose proof (sum_bounds _ _ _ Hbetween) as Hbounds.
    rewrite Hlen in Hbounds. fold n in Hbounds.
    rewrite Forall_forall in Hall.
    split_and!.
    + reflexivity.
    + change (mock_result "avg" (a :: rest))
        with (Some (reduce_sum (a :: rest) / Z.of_nat (length (a :: rest)))%Z).
      by rewrite Hlen.
    + reflexivity.
    + by apply Hall.
    + apply Z.div_le_lower_bound; lia.
    + apply Z.div_le_upper_bound; lia.
    + by apply Hall.
    + reflexivity.
    + done.
    + done.
    + done.
Qed.

Lemma mock_result_within_bounds_witness :
  (forall i, (0 <= random_floor Sample.offline i <= 999)%Z)
  /\ Forall (fun a => (10 <= a <= 1009)%Z) (mockAmounts Sample.offline ["a"; "b"; "c"]).
Proof.
  assert (Hdraw : forall i, (0 <= random_floor Sample.offline i <= 999)%Z).
  { intros i. simpl. lia. }
  split; [exact Hdraw |].
  exact (proj1 (mock_result_within_bounds Sample.offline ["a"; "b"; "c"] Hdraw)).
Defined.

(** ** A batch that is fetched and sent to a live coprocessor *)

Lemma omap_all_none {A B} (f : A -> option B) (l : list A) :
  (forall a, a ∈ l -> f a = None) -> omap f l = [].
Proof.
  induction l as [| a l IH]; intros Hall; [done |]. simpl.
  rewrite (Hall a) by by left. simpl. apply IH. intros b Hb. apply Hall. by right.
Qed.

Lemma promise_all_fetched {X} (cids : list X) (url : X -> string) (text : X -> string) :
  promise_all (map (fun c => ([HttpGet (url c)], Resolved (text c))) cids)
  = (map (fun c => HttpGet (url c)) cids, Resolved (map text cids)).
Proof.
  unfold promise_all. f_equal.
  - induction cids as [| c cids IH]; [done |]. simpl. by rewrite IH.
  - rewrite (omap_all_none immediate_rejection), (omap_all_none rejection).
    + simpl. f_equal. induction cids as [| c cids IH]; [done |].
      change (omap resolution (map (fun c => ([HttpGet (url c)], Resolved (text c))) (c :: cids)))
        with (text c :: omap resolution
                          (map (fun c => ([HttpGet (url c)], Resolved (text c))) cids)).
      by rewrite IH.
    + by intros p (c & -> & _)%list_elem_of_fmap.
    + by intros p (c & -> & _)%list_elem_of_fmap.
Qed.

(** X14.  When every content address of the batch is fetched and the
    coprocessor answers, [aggregate] makes one GET per content address
    at [IPFS_GATEWAY_URL/cid], in the order of the request, and then
    one POST to [COPROCESSOR_URL].  The payload holds the base64 text
    of each blob in that order, the operation, "euint64" and
    "ciphertext", and is signed with the HMAC of its JSON text under
    [COPROC_HMAC_KEY] ("demo-secret" when none is set).  The result
    passes on the coprocessor's ciphertext and version as they are; the
    operation and the item count of the result are those of the request,
    whatever the coprocessor's own [meta] says. *)
Theorem live_engine_answer_passed_on (lib : Lib) (env : gmap string string) (w : World)
    (cids : list string) (op : string) (blob : string -> string)
    (data : CoprocessorResponse) :
  COPROCESSOR_URL env <> "" ->
  (forall c, c ∈ cids ->
     is_mock_cid c = false
     /\ http_get w (IPFS_GATEWAY_URL env +:+ "/" +:+ c) = Resolved (blob c)) ->
  let ciphertexts := map (fun c => base64_encode lib (blob c)) cids in
  let payload :=
    JObj [("ciphertexts", JArr (map JStr ciphertexts));
          ("op", JStr op);
          ("targetType", JStr "euint64");
          ("outputFormat", JStr "ciphertext")] in
  let signature := hmac_sha256_hex lib (HMAC_SECRET env) (JSON_stringify lib payload) in
  engine_post w (COPROCESSOR_URL env) payload signature = Resolved data ->
  aggregate lib env w cids op
  = (map (fun c => HttpGet (IPFS_GATEWAY_URL env +:+ "/" +:+ c)) cids
       ++ [EnginePost (COPROCESSOR_URL env) payload signature],
     Resolved {| outputCiphertext := resultCiphertext data;
                 agg_op := op;
                 agg_itemsCount := Z.of_nat (length cids);
                 coprocessorVersion := coprocVersion data |})
  /\ (env !! "COPROC_HMAC_KEY" = None -> env !! "VITE_COPROC_HMAC_KEY" = None ->
      signature = hmac_sha256_hex lib "demo-secret" (JSON_stringify lib payload)).
Proof.
  intros Hurl Hfetch ciphertexts payload signature Hpost.
  subst signature payload ciphertexts. split.
  - assert (Htruthy : truthy (COPROCESSOR_URL env) = true).
    { destruct (COPROCESSOR_URL env); [done | reflexivity]. }
    assert (Hall : promise_all (map (retrieve lib env w) cids)
                   = (map (fun c => HttpGet (IPFS_GATEWAY_URL env +:+ "/" +:+ c)) cids,
                      Resolved (map (fun c => base64_encode lib (blob c)) cids))).
    { rewrite <- (promise_all_fetched cids (fun c => IPFS_GATEWAY_URL env +:+ "/" +:+ c)
                    (fun c => base64_encode lib (blob c))).
      f_equal. apply map_ext_in. intros c Hc%list_elem_of_In.
      destruct (Hfetch c Hc) as [Hmock Hget]. unfold retrieve, gateway_get. by rewrite Hmock, Hget. }
    unfold aggregate, aggregate_with. rewrite Hall.
    unfold mbind, async_bind, callRealCoprocessor, request_payload.
    rewrite Htruthy. simpl negb. cbv iota. rewrite Hpost. reflexivity.
  - intros Hkey Hvite. unfold HMAC_SECRET. by rewrite Hkey, Hvite.
Qed.

Lemma live_engine_answer_passed_on_witness :
  COPROCESSOR_URL Sample.env_with_engine <> ""
  /\ (aggregate Sample.lib Sample.env_with_engine Sample.engine_up ["QmOne"; "QmTwo"] "sum").2
     = Resolved {| outputCiphertext := "sealed"; agg_op := "sum"; agg_itemsCount := 2;
                   coprocessorVersion := "v1.0" |}.
Proof.
  assert (Hurl : COPROCESSOR_URL Sample.env_with_engine <> "") by (vm_compute; discriminate).
  split; [exact Hurl |].
  refine (f_equal snd
            (proj1 (live_engine_answer_passed_on Sample.lib Sample.env_with_engine
                      Sample.engine_up ["QmOne"; "QmTwo"] "sum" (fun _ => "blob")
                      (mkCoprocResponse "sealed" None "v1.0" "max" 7) Hurl _ eq_refl))).
  intros c Hc.
  apply elem_of_cons in Hc as [-> | Hc]; [by split |].
  apply elem_of_cons in Hc as [-> | Hc]; [by split |].
  by apply elem_of_nil in Hc.
Defined.

(** ** What [POST /aggregate] can answer *)

Lemma gateway_get_effects lib env w cid : engine_posts (gateway_get lib env w cid).1 = [].
Proof. unfold gateway_get. by destruct (http_get w _). Qed.

Lemma retrieve_item_effects lib env w item :
  engine_posts (retrieve_item lib env w item).1 = [].
Proof.
  destruct item as [| | | cid | | items |]; try done; [apply retrieve_effects |].
  simpl. destruct (existsb _ items); [done | apply gateway_get_effects].
Qed.

Lemma callReal_posts lib env w cts op t o :
  callRealCoprocessor lib env w cts op = (t, o) -> length (engine_posts t) <= 1.
Proof.
  intros Hcall.
  destruct (callReal_cases lib env w cts op) as [[_ Heq] | [_ (resp & Heq & _)]];
    rewrite Heq in Hcall.
  - destruct (callMock_resolves lib w cts op) as (mock & Hmock & _).
    rewrite Hmock in Hcall. injection Hcall as <- _. simpl. lia.
  - injection Hcall as <- _. simpl. lia.
Qed.

Lemma aggregate_with_outcome {X} lib env w (fetch : X -> Async string) cids op :
  (forall x, engine_posts (fetch x).1 = []) ->
  let run := aggregate_with lib env w fetch cids op in
  length (engine_posts run.1) <= 1
  /\ match run.2 with
     | Resolved r =>
         agg_op r = op /\ agg_itemsCount r = Z.of_nat (length cids)
         /\ forall x, x ∈ cids -> exists text, (fetch x).2 = Resolved text
     | Rejected m =>
         engine_posts run.1 = []
         /\ exists x m', x ∈ cids /\ (fetch x).2 = Rejected m'
              /\ m = "Coprocessor aggregation failed: " +:+ m'
     end.
Proof.
  intros Hfetch run. subst run.
  pose proof (fetches_no_engine_post fetch cids Hfetch) as Hquiet.
  destruct (promise_all (map fetch cids)) as [t [cts | m]] eqn:Hall.
  - destruct (aggregate_with_resolved lib env w fetch cids op t cts Hall)
      as (t' & resp & Hcall & ->). simpl.
    rewrite engine_posts_app. simpl in Hquiet. rewrite Hquiet. simpl.
    split; [by eapply callReal_posts |]. split_and!; [done | done |].
    intros x Hx. destruct (fetch x) as [tx [text | m]] eqn:Hx'; [by exists text |].
    destruct (promise_all_some_rejected (map fetch cids) (fetch x) m) as [m' Hm'].
    + by apply list_elem_of_fmap_2.
    + by rewrite Hx'.
    + rewrite Hall in Hm'. discriminate.
  - pose proof (aggregate_with_rejected lib env w fetch cids op t m Hall) as Hrun.
    rewrite Hrun. simpl. simpl in Hquiet. rewrite Hquiet. split; [simpl; lia |].
    split; [done |].
    apply (aggregate_with_rejection lib env w fetch cids op). by rewrite Hrun.
Qed.

(** X15.  [POST /aggregate] answers 200, 400 or 500 and nothing else,
    and one call sends the coprocessor at most one request, whatever
    the world does.  With 400 it has made no request.  When it answers
    500 without having asked the coprocessor, an element of [cids]
    could not be retrieved, and the message is "Coprocessor aggregation
    failed: " followed by the error of that retrieval.  With 200 every
    element of [cids] was retrieved, [meta.op] is the operation of the
    request ("sum" when the body has none) and [meta.itemsCount] the
    number of elements.  The elements need not be text: an array is
    retrieved under the text a template literal makes of it, unless
    "Mock" is one of its elements; [null], a number, a boolean or an
    object makes the retrieval fail with a type error before any
    request. *)
Theorem aggregate_route_answers (lib : Lib) (env : gmap string string) (w : World)
    (body : JSON) :
  let reply := post_aggregate lib env w body in
  let items := items_of (default JNull (field "cids" body)) in
  (res_status reply.2 = 200%Z \/ res_status reply.2 = 400%Z \/ res_status reply.2 = 500%Z)
  /\ length (engine_posts reply.1) <= 1
  /\ (res_status reply.2 = 400%Z -> reply.1 = [])
  /\ (res_status reply.2 = 500%Z -> engine_posts reply.1 = [] ->
      exists item m, item ∈ items /\ (retrieve_item lib env w item).2 = Rejected m
        /\ reply.2 = failure 500 ("Coprocessor aggregation failed: " +:+ m))
  /\ (res_status reply.2 = 200%Z ->
      (forall item, item ∈ items -> exists text, (retrieve_item lib env w item).2 = Resolved text)
      /\ exists meta,
           field "meta" (res_body reply.2) = Some meta
           /\ field "op" meta = Some (default (JStr "sum") (field "op" body))
           /\ field "itemsCount" meta = Some (JNum (Z.of_nat (length items))))
  /\ (forall items' : list JSON,
        retrieve_item lib env w (JArr items')
        = if existsb (is_text "Mock") items' then ([], Rejected "Mock CID detected - skipping")
          else gateway_get lib env w (String_of lib (JArr items')))
  /\ retrieve_item lib env w JNull
     = ([], Rejected "Cannot read properties of null (reading 'includes')")
  /\ (forall item, (forall items', item <> JArr items') -> (forall cid, item <> JStr cid) ->
        exists m, retrieve_item lib env w item = ([], Rejected m)).
Proof.
  intros reply items. subst reply.
  assert (Harrays : forall items' : list JSON,
            retrieve_item lib env w (JArr items')
            = if existsb (is_text "Mock") items'
              then ([], Rejected "Mock CID detected - skipping")
              else gateway_get lib env w (String_of lib (JArr items'))).
  { intros items'. simpl. by destruct (existsb _ items'). }
  assert (Hothers : forall item, (forall items', item <> JArr items') ->
            (forall cid, item <> JStr cid) ->
            exists m, retrieve_item lib env w item = ([], Rejected m)).
  { intros item Harr Hstr. destruct item as [| | | cid | | items' |];
      first [by eexists | by destruct (Hstr cid) | by destruct (Harr items')]. }
  unfold post_aggregate.
  destruct (cids_rejected (field "cids" body)).
  { simpl. split_and!; try done; [by right; left | lia]. }
  destruct (op_allowed (default (JStr "sum") (field "op" body))) as [op_text |] eqn:Hop.
  2:{ simpl. split_and!; try done; [by right; left | lia]. }
  assert (Hop_text : default (JStr "sum") (field "op" body) = JStr op_text).
  { unfold op_allowed in Hop.
    destruct (default (JStr "sum") (field "op" body)); try done.
    case_bool_decide; congruence. }
  fold items.
  pose proof (aggregate_with_outcome lib env w (retrieve_item lib env w) items op_text
                (retrieve_item_effects lib env w)) as [Hposts Hrun].
  destruct (aggregate_with lib env w (retrieve_item lib env w) items op_text)
    as [t [r | m]]; simpl in *.
  - destruct Hrun as (Hr_op & Hr_count & Hfetched).
    split_and!; try done; [by left |].
    intros _. split; [done |].
    eexists. split; [reflexivity |]. rewrite Hr_op, Hr_count, Hop_text. by split.
  - destruct Hrun as (Hquiet & item & m' & Hitem & Hrej & ->).
    split_and!; try done; [by right; right |].
    intros _ _. by exists item, m'.
Qed.

(** A nested array is fetched like text, and [null] fails the batch
    with the engine's type error. *)
Remark elements_that_are_not_text :
  res_status (post_aggregate Sample.lib ∅ Sample.engine_down
                (JObj [("cids", JArr [JArr [JStr "QmOne"; JStr "QmTwo"]])])).2 = 200%Z
  /\ (post_aggregate Sample.lib ∅ Sample.engine_down
        (JObj [("cids", JArr [JArr [JStr "QmOne"; JStr "QmTwo"]])])).1
     = [HttpGet "https://gateway.pinata.cloud/ipfs/QmOne,QmTwo"]
  /\ post_aggregate Sample.lib ∅ Sample.engine_down (JObj [("cids", JArr [JNull])])
     = ([], failure 500 ("Coprocessor aggregation failed: "
                         +:+ "Cannot read properties of null (reading 'includes')")).
Proof. split_and!; reflexivity. Qed.

(** ** Health checks *)

(** X16.  Neither health check ever fails.  The coprocessor's makes no
    request at all: it runs the mock on one dummy item and reports
    [success: true], status "mock", version "v0.9-mock", and so does
    [GET /health], with status 200, whether or not a coprocessor is
    configured or reachable.  The content store's makes exactly one
    GET, for a fixed content address at the gateway, and resolves to
    whether that request was answered. *)
Theorem health_checks_never_fail (lib : Lib) (env : gmap string string) (w : World) :
  get_coproc_health lib w
    = ([], mkResponse 200 (JObj [("success", JBool true);
                                 ("status", JStr "mock");
                                 ("version", JStr "v0.9-mock");
                                 ("message", JStr "Using mock coprocessor for demo")]))
  /\ (let url := IPFS_GATEWAY_URL env
                  +:+ "/QmYjtig7VJQ6XsnUjqqJvj7QaMcCAwtrgNdahSiFofrE7o" in
      exists ok, ipfs_healthCheck env w = ([HttpGet url], Resolved ok)
        /\ (ok = true <-> exists data, http_get w url = Resolved data)).
Proof.
  split; [reflexivity |].
  unfold ipfs_healthCheck, health_probe.
  change (IPFS_GATEWAY_URL env +:+ "/" +:+ "QmYjtig7VJQ6XsnUjqqJvj7QaMcCAwtrgNdahSiFofrE7o")
    with (IPFS_GATEWAY_URL env +:+ "/QmYjtig7VJQ6XsnUjqqJvj7QaMcCAwtrgNdahSiFofrE7o").
  destruct (http_get w _) as [data | m]; simpl.
  - exists true. split; [done |]. split; [by exists data | done].
  - exists false. split; [done |]. split; [done | by intros [? ?]].
Qed.

End CoprocFacts.

(* ================================================================== *)
(** * Properties of the content-store service and its routes *)
(* ================================================================== *)

Module ContentFacts.
Import Js Services ServicesFacts Client.

Lemma append_assoc a b c : (a +:+ b) +:+ c = a +:+ (b +:+ c).
Proof. induction a as [| x a IH]; [done |]. rewrite !append_cons. by rewrite IH. Qed.

Lemma includes_trans s t u : includes s t = true -> includes t u = true -> includes s u = true.
Proof.
  intros (a & b & ->)%includes_spec (a' & b' & ->)%includes_spec.
  apply includes_spec. exists (a +:+ a'), (b' +:+ b).
  by rewrite !append_assoc.
Qed.

(** X17.  [retrieve] refuses exactly the content addresses that contain
    the text "Mock": its second test, equality with
    "QmYwAPJzv5CZsnAMockCID12345", adds nothing, since that text
    contains "Mock" itself.  The guard of the records page, which tests
    for "Mock", "QmMock" and "QmYwAPJzv5CZsnAMockCID", refuses the very
    same addresses, so the page never asks the backend for an address
    the backend would turn down as a mock, and never holds back one it
    would fetch. *)
Theorem mock_test_is_one_substring_test (lib : Lib) (env : gmap string string) (w : World)
    (cid : string) :
  is_mock_cid cid = includes cid "Mock"
  /\ refuses_decrypt cid = includes cid "Mock"
  /\ ((retrieve lib env w cid = ([], Rejected "Mock CID detected - skipping"))
      <-> exists a b, cid = a +:+ "Mock" +:+ b)
  /\ (refuses_decrypt cid = false ->
      exists o, retrieve lib env w cid
                = ([HttpGet (IPFS_GATEWAY_URL env +:+ "/" +:+ cid)], o)).
Proof.
  assert (Hserver : is_mock_cid cid = includes cid "Mock").
  { unfold is_mock_cid. destruct (includes cid "Mock") eqn:Hinc; [done |]. simpl.
    apply bool_decide_eq_false. intros ->. by vm_compute in Hinc. }
  assert (Hclient : refuses_decrypt cid = includes cid "Mock").
  { unfold refuses_decrypt. destruct (includes cid "Mock") eqn:Hinc; [done |]. simpl.
    destruct (includes cid "QmMock") eqn:H1.
    { rewrite (includes_trans cid "QmMock" "Mock" H1 eq_refl) in Hinc. discriminate. }
    destruct (includes cid "QmYwAPJzv5CZsnAMockCID") eqn:H2; [| done].
    rewrite (includes_trans cid "QmYwAPJzv5CZsnAMockCID" "Mock" H2 eq_refl) in Hinc.
    discriminate. }
  split_and!; [done | done | |].
  - rewrite <- includes_spec, <- Hserver. unfold retrieve, gateway_get.
    destruct (is_mock_cid cid); [done |].
    split; [| done]. by destruct (http_get w _).
  - rewrite Hclient, <- Hserver. intros Hreal. unfold retrieve, gateway_get. rewrite Hreal.
    destruct (http_get w _); eauto.
Qed.

(** ** Uploading *)

Lemma truthy_true x : truthy x = true <-> x <> "".
Proof. destruct x; simpl; split; congruence. Qed.

Lemma upload_value_text lib env w from_value c :
  upload_value lib env w from_value (JStr c) = upload lib env w c.
Proof. reflexivity. Qed.

(** How [upload] ends: with the mock address and no request, or after
    one request to the pinning service with the address it returned,
    or with the mock address if that request failed. *)
Lemma upload_cases lib env w c :
  let buffer := base64_decode lib c in
  (upload lib env w c = ([], Resolved (getMockCid w))
   /\ (PINATA_API_KEY env = "" \/ PINATA_SECRET_API_KEY env = ""))
  \/ (PINATA_API_KEY env <> "" /\ PINATA_SECRET_API_KEY env <> ""
      /\ ((exists h, pinata_pin w buffer = Resolved (Some h) /\ h <> ""
             /\ upload lib env w c = ([PinataPost buffer], Resolved h))
          \/ ((forall h, pinata_pin w buffer = Resolved (Some h) -> h = "")
              /\ upload lib env w c = ([PinataPost buffer], Resolved (getMockCid w))))).
Proof.
  intros buffer. unfold upload.
  destruct (truthy (PINATA_API_KEY env)) eqn:Hkey; simpl.
  2:{ left. split; [done |]. left. by apply ListenerFacts.truthy_empty. }
  destruct (truthy (PINATA_SECRET_API_KEY env)) eqn:Hsecret; simpl.
  2:{ left. split; [done |]. right. by apply ListenerFacts.truthy_empty. }
  right. apply truthy_true in Hkey, Hsecret. split; [done |]. split; [done |].
  unfold uploadToPinata. fold buffer.
  destruct (pinata_pin w buffer) as [[h |] | m] eqn:Hpin.
  - destruct (truthy h) eqn:Hh; simpl.
    + left. exists h. split_and!; [done | by apply truthy_true | done].
    + right. split; [| done]. intros h' [= <-]. by apply ListenerFacts.truthy_empty.
  - right. by split.
  - right. by split.
Qed.

Lemma post_upload_text lib env w from_value body c :
  field "ciphertext" body = Some (JStr c) -> c <> "" ->
  let reply := post_upload lib env w from_value body in
  let buffer := base64_decode lib c in
  let size := Z.of_nat (String.length buffer) in
  ((2097152 < size)%Z -> reply = ([], failure 400 (too_large size)))
  /\ ((size <= 2097152)%Z ->
      exists cid,
        reply.2 = mkResponse 200 (JObj [("success", JBool true); ("cid", JStr cid)])
        /\ ((reply.1 = [] /\ cid = getMockCid w)
            \/ (reply.1 = [PinataPost buffer]
                /\ (cid = getMockCid w
                    \/ (pinata_pin w buffer = Resolved (Some cid) /\ cid <> ""))))).
Proof.
  intros Hc Hne reply buffer size. subst reply. unfold post_upload. rewrite Hc.
  assert (Hfalsy : falsy (JStr c) = false).
  { simpl. apply negb_false_iff. by apply truthy_true. }
  rewrite Hfalsy. cbn [Buffer_from]. fold buffer. fold size.
  change maxSize with 2097152%Z.
  destruct (2097152 <? size)%Z eqn:Hsize.
  - apply Z.ltb_lt in Hsize. split; [done | lia].
  - apply Z.ltb_ge in Hsize. rewrite upload_value_text.
    split; [lia |]. intros _.
    destruct (upload_cases lib env w c)
      as [[-> _] | (_ & _ & [(h & Hpin & Hh & ->) | [_ ->]])]; simpl.
    + exists (getMockCid w). split; [done |]. by left.
    + exists h. split; [done |]. right. split; [done |]. by right.
    + exists (getMockCid w). split; [done |]. right. split; [done |]. by left.
Qed.

(** X18.  What [POST /upload] answers.  Without a ciphertext, or with
    an empty one, it answers 400 "ciphertext is required".  For a text
    whose decoded size is above 2097152 bytes it answers 400 and names
    the size; in both cases no request is made.  Otherwise it answers
    200 with a content address, after at most one request to the
    pinning service: the address the service returned, or the mock
    address when credentials are missing or the service failed.  A
    ciphertext sent as text never gets a 500. *)
Theorem upload_route_answers (lib : Lib) (env : gmap string string) (w : World)
    (from_value : JSON -> Outcome string) (body : JSON) :
  let reply := post_upload lib env w from_value body in
  (field "ciphertext" body = None -> reply = ([], failure 400 "ciphertext is required"))
  /\ (field "ciphertext" body = Some (JStr "") ->
      reply = ([], failure 400 "ciphertext is required"))
  /\ (forall c, field "ciphertext" body = Some (JStr c) -> c <> "" ->
        let buffer := base64_decode lib c in
        let size := Z.of_nat (String.length buffer) in
        ((2097152 < size)%Z ->
           reply = ([], failure 400 ("Ciphertext too large: " +:+ pretty size
                                     +:+ " bytes (max: 2097152)")))
        /\ ((size <= 2097152)%Z ->
            exists cid,
              reply.2 = mkResponse 200 (JObj [("success", JBool true); ("cid", JStr cid)])
              /\ ((reply.1 = [] /\ cid = getMockCid w)
                  \/ (reply.1 = [PinataPost buffer]
                      /\ (cid = getMockCid w
                          \/ (pinata_pin w buffer = Resolved (Some cid) /\ cid <> "")))))
        /\ (res_status reply.2 = 200%Z \/ res_status reply.2 = 400%Z)).
Proof.
  intros reply. subst reply. split_and!.
  - intros Hnone. unfold post_upload. by rewrite Hnone.
  - intros Hempty. unfold post_upload. by rewrite Hempty.
  - intros c Hc Hne.
    destruct (post_upload_text lib env w from_value body c Hc Hne) as [Hlarge Hfits].
    split_and!.
    + intros Hsize. by rewrite (Hlarge Hsize).
    + done.
    + destruct (Z.lt_ge_cases 2097152 (Z.of_nat (String.length (base64_decode lib c))))
        as [Hsize | Hsize].
      * right. by rewrite (Hlarge Hsize).
      * left. destruct (Hfits Hsize) as (cid & -> & _). done.
Qed.

(** X19.  Uploading and fetching back through the two routes.  When
    the pinning service is not configured, or fails, [POST /upload]
    still answers 200, with the mock address, and [GET /:cid] for that
    address always answers 500 "Mock CID detected - skipping" without
    asking the gateway: what was uploaded cannot be fetched.  When the
    service pins the blob under an address that the gateway serves,
    [GET /:cid] returns the blob in base64; for a ciphertext in
    canonical base64 that is the very text that was uploaded. *)
Theorem upload_then_fetch (lib : Lib) (env : gmap string string) (w : World)
    (from_value : JSON -> Outcome string) (c : string) :
  c <> "" ->
  (Z.of_nat (String.length (base64_decode lib c)) <= 2097152)%Z ->
  let posted := post_upload lib env w from_value (JObj [("ciphertext", JStr c)]) in
  let buffer := base64_decode lib c in
  ((PINATA_API_KEY env = "" \/ PINATA_SECRET_API_KEY env = ""
    \/ exists m, (uploadToPinata w buffer).2 = Rejected m) ->
     posted.2 = mkResponse 200 (JObj [("success", JBool true);
                                      ("cid", JStr (getMockCid w))])
     /\ forall w', get_content lib env w' (getMockCid w)
                   = ([], failure 500 "Mock CID detected - skipping"))
  /\ (forall h, PINATA_API_KEY env <> "" -> PINATA_SECRET_API_KEY env <> "" ->
        pinata_pin w buffer = Resolved (Some h) -> h <> "" ->
        posted = ([PinataPost buffer],
                  mkResponse 200 (JObj [("success", JBool true); ("cid", JStr h)]))
        /\ forall w', is_mock_cid h = false ->
             http_get w' (IPFS_GATEWAY_URL env +:+ "/" +:+ h) = Resolved buffer ->
             get_content lib env w' h
             = ([HttpGet (IPFS_GATEWAY_URL env +:+ "/" +:+ h)],
                mkResponse 200 (JObj [("success", JBool true);
                                      ("cid", JStr h);
                                      ("encrypted", JBool true);
                                      ("data", JStr (base64_encode lib buffer))]))
             /\ (base64_encode lib buffer = c ->
                 field "data" (res_body (get_content lib env w' h).2) = Some (JStr c))).
Proof.
  intros Hne Hsize posted buffer.
  assert (Hposted : posted = match upload lib env w c with
                             | (t, Resolved cid) =>
                                 (t, mkResponse 200 (JObj [("success", JBool true);
                                                           ("cid", JStr cid)]))
                             | (t, Rejected message) => (t, failure 500 message)
                             end).
  { subst posted. unfold post_upload.
    change (field "ciphertext" (JObj [("ciphertext", JStr c)])) with (Some (JStr c)).
    assert (Hfalsy : falsy (JStr c) = false).
    { simpl. apply negb_false_iff. by apply truthy_true. }
    cbv beta iota. rewrite Hfalsy. cbn [Buffer_from]. change maxSize with 2097152%Z.
    rewrite (proj2 (Z.ltb_ge _ _) Hsize). by rewrite upload_value_text. }
  split.
  - intros Hfallback. split.
    + rewrite Hposted.
      pose proof (upload_falls_back lib env w c Hfallback) as Hup.
      destruct (upload lib env w c) as [t o]. simpl in Hup. by rewrite Hup.
    + intros w'. unfold get_content. by rewrite (retrieve_mock _ _ _ _ (mock_cid_is_mock w)).
  - intros h Hkey Hsecret Hpin Hh. split.
    + rewrite Hposted.
      destruct (upload_cases lib env w c)
        as [[_ [? | ?]] | (_ & _ & [(h' & Hpin' & _ & ->) | [Hempty _]])]; try done.
      * fold buffer in Hpin'. rewrite Hpin in Hpin'. by injection Hpin' as <-.
      * destruct Hh. by apply Hempty.
    + intros w' Hreal Hget. unfold get_content, retrieve, gateway_get. rewrite Hreal, Hget.
      split; [done |]. by intros ->.
Qed.

Lemma upload_then_fetch_witness :
  "AAAA" <> ""
  /\ (Z.of_nat (String.length (base64_decode Sample.lib "AAAA")) <= 2097152)%Z
  /\ (post_upload Sample.lib ∅ Sample.engine_down (fun _ => Rejected "not text")
        (JObj [("ciphertext", JStr "AAAA")])).2
     = mkResponse 200 (JObj [("success", JBool true);
                             ("cid", JStr "QmMockDemo1700000000000k3x9ab")]).
Proof.
  assert (Hne : "AAAA" <> "") by discriminate.
  assert (Hsize : (Z.of_nat (String.length (base64_decode Sample.lib "AAAA")) <= 2097152)%Z).
  { vm_compute. discriminate. }
  split; [exact Hne |]. split; [exact Hsize |].
  refine (proj1 (proj1 (upload_then_fetch Sample.lib ∅ Sample.engine_down
                          (fun _ => Rejected "not text") "AAAA" Hne Hsize) _)).
  left. reflexivity.
Defined.

End ContentFacts.

(* ================================================================== *)
(** * Properties of the application and of the client's calls *)
(* ================================================================== *)

Module ClientFacts.
Import Js Db Api Services App Client.
Import LedgerFacts LedgerLogFacts ApiFacts ServicesFacts ContentFacts.

(** ** Routing *)

(** X20.  The verification page asks the backend for
    [/api/proof/<cid>], but the proof route lives in the router mounted
    at [/api/records], so no route serves that path: the backend answers
    with the framework's 404 page (or the limiter's 429), which is not
    JSON, and the page reports "Failed to verify attestation".  Whatever
    the table holds, and whether or not the request gets through, the
    page never shows an attestation as verified.  The proof of a stored
    content address is served at [/api/records/proof/<cid>]. *)
Theorem verify_page_never_verifies (db : Database) (lib : Lib) (env : gmap string string)
    (w : World) (from_value : JSON -> Outcome string) (s : Store) (cid : string)
    (online limited : bool) :
  let backend := fun path =>
    if online then Some (app db lib env w from_value (get path limited) s).2 else None in
  app db lib env w from_value (get ["api"; "proof"; cid] limited) s
    = ([], if limited then TooManyRequests else CannotServe)
  /\ (handleVerify backend cid = Refused "Please enter a CID"
      \/ handleVerify backend cid = Refused "Invalid CID format"
      \/ handleVerify backend cid = NotVerified "Failed to verify attestation")
  /\ (isValidCID cid = true ->
      handleVerify backend cid = NotVerified "Failed to verify attestation")
  /\ (forall proofData, handleVerify backend cid <> Verified proofData)
  /\ app db lib env w from_value (get ["api"; "records"; "proof"; cid] false) s
     = ([], Sent (getProof cid s)).
Proof.
  intros backend.
  assert (Happ : app db lib env w from_value (get ["api"; "proof"; cid] limited) s
                 = ([], if limited then TooManyRequests else CannotServe)).
  { unfold app. simpl. by destruct limited. }
  assert (Hvalid : isValidCID cid = true ->
            handleVerify backend cid = NotVerified "Failed to verify attestation").
  { intros Hcid. unfold handleVerify. rewrite Hcid.
    assert (Htruthy : truthy cid = true).
    { destruct cid; [done | reflexivity]. }
    rewrite Htruthy. simpl. subst backend. simpl.
    destruct online; [| done]. rewrite Happ. by destruct limited. }
  assert (Hcases : handleVerify backend cid = Refused "Please enter a CID"
                   \/ handleVerify backend cid = Refused "Invalid CID format"
                   \/ handleVerify backend cid = NotVerified "Failed to verify attestation").
  { destruct (isValidCID cid) eqn:Hcid; [right; right; by apply Hvalid |].
    unfold handleVerify. rewrite Hcid. destruct (truthy cid); simpl; auto. }
  split_and!; [done | done | done | | done].
  intros proofData Hverified.
  destruct Hcases as [H | [H | H]]; rewrite H in Hverified; discriminate.
Qed.

(** ** The records hook *)

(** X21.  The hook that feeds the pages never fails: when the backend
    cannot be reached, or the limiter turns the request away, it
    returns the empty list.  Otherwise it returns the records of
    [GET /api/records?limit=50]: fifty rows of the table, or all of
    them when there are fewer, newest first by [timestamp].  They are
    the latest: no row left out has a later [timestamp] than a row
    shown.  Among rows of equal [timestamp] the database decides which
    are shown and in which order.  A row beyond those fifty is never
    shown by any page. *)
Theorem records_hook_shows_fifty_latest (db : Database) (lib : Lib)
    (env : gmap string string) (w : World)
    (from_value : JSON -> Outcome string) (s : Store) (online limited : bool) :
  let fetched :=
    if online then Some (app db lib env w from_value (records_request limited) s).2
    else None in
  let records := findMany db (mkQuery (Some "50") None None) 50 s in
  (online = true -> limited = false -> queryFn fetched = JArr (map expense_json records))
  /\ (online = false \/ limited = true -> queryFn fetched = JArr [])
  /\ length records = Nat.min 50 (length (rows s))
  /\ StronglySorted newer_first records
  /\ (exists rest,
        records ++ rest ≡ₚ rows s
        /\ forall r r', r ∈ records -> r' ∈ rest -> (timestamp r' <= timestamp r)%Z)
  /\ (length (rows s) <= 50 -> records ≡ₚ rows s).
Proof.
  intros fetched records.
  assert (Happ : app db lib env w from_value (records_request limited) s
                 = ([], if limited then TooManyRequests
                        else Sent (listRecords db (mkQuery (Some "50") None None) s))).
  { unfold app. simpl. by destruct limited. }
  assert (Hlist : listRecords db (mkQuery (Some "50") None None) s
                  = mkResponse 200 (JObj [("success", JBool true);
                                          ("count", JNum (Z.of_nat (length records)));
                                          ("records", JArr (map expense_json records))])).
  { unfold listRecords. change (take_arg (mkQuery (Some "50") None None)) with (Finite 50).
    by rewrite read_take_exact. }
  assert (Hall : List.filter (matches (mkQuery (Some "50") None None)) (rows s) = rows s).
  { clear. induction (rows s) as [| r l IH]; [done |]. simpl. by rewrite IH. }
  split_and!.
  - intros -> ->. subst fetched. rewrite Happ, Hlist. reflexivity.
  - intros [-> | ->]; subst fetched; [done |]. destruct online; [| done]. by rewrite Happ.
  - subst records. by rewrite findMany_length, Hall.
  - apply findMany_sorted.
  - destruct (findMany_rest db (mkQuery (Some "50") None None) 50 s) as (rest & Hperm & Hlate).
    exists rest. rewrite Hall in Hperm. split; [done |]. exact Hlate.
  - intros Hsmall. subst records. rewrite findMany_all; rewrite Hall; [done | lia].
Qed.

(** ** The admin page *)

Lemma aggregate_body_cids records :
  aggregate_body (map expense_json records)
  = JObj [("cids", JArr (map JStr (map cid records)))].
Proof.
  unfold aggregate_body. rewrite !map_map.
  by rewrite (map_ext (fun x => default JNull (field "cid" (expense_json x)))
                      (fun x => JStr (cid x))).
Qed.

(** X22.  The admin page asks for the aggregate of every record the
    hook returned, naming no operation.  With no record the backend
    answers 400.  If one of the records has a mock content address, as
    every record uploaded without pinning credentials has, the whole
    request fails with 500 and the coprocessor is not asked.  When the
    request succeeds the operation was "sum"; the response has no
    [encryptedTotal], so the page shows its placeholder in place of a
    total in every case. *)
Theorem admin_aggregate_over_all_records (lib : Lib) (env : gmap string string) (w : World)
    (records : list Expense) :
  let reply := post_aggregate lib env w (aggregate_body (map expense_json records)) in
  (records = [] -> reply = ([], failure 400 "cids array is required and must not be empty"))
  /\ (forall r, r ∈ records -> includes (cid r) "Mock" = true ->
        reply.2 = failure 500 "Coprocessor aggregation failed: Mock CID detected - skipping"
        /\ engine_posts reply.1 = [])
  /\ (records <> [] ->
      reply = match aggregate lib env w (map cid records) "sum" with
              | (t, Resolved result) => (t, mkResponse 200 (aggregate_result_json result))
              | (t, Rejected message) => (t, failure 500 message)
              end)
  /\ shown_total (res_body reply.2) = None.
Proof.
  intros reply.
  assert (Hsome : records <> [] ->
            reply = match aggregate lib env w (map cid records) "sum" with
                    | (t, Resolved result) => (t, mkResponse 200 (aggregate_result_json result))
                    | (t, Rejected message) => (t, failure 500 message)
                    end).
  { intros Hne. subst reply. rewrite aggregate_body_cids. unfold post_aggregate.
    change (field "cids" (JObj [("cids", JArr (map JStr (map cid records)))]))
      with (Some (JArr (map JStr (map cid records)))).
    change (field "op" (JObj [("cids", JArr (map JStr (map cid records)))])) with (@None JSON).
    assert (Haccepted : cids_rejected (Some (JArr (map JStr (map cid records)))) = false).
    { unfold cids_rejected. simpl. apply bool_decide_eq_false.
      rewrite !length_map. by destruct records. }
    rewrite Haccepted. simpl default. cbv beta iota.
    change (op_allowed (JStr "sum")) with (Some "sum"). cbv beta iota.
    change (items_of (JArr (map JStr (map cid records)))) with (map JStr (map cid records)).
    by rewrite aggregate_items_texts. }
  split_and!.
  - intros ->. reflexivity.
  - intros r Hr Hmock.
    assert (Hne : records <> []) by (intros ->; by apply elem_of_nil in Hr).
    rewrite (Hsome Hne).
    destruct (aggregate_mock_batch lib env w (cid r) (map cid records) "sum") as [Hrej Hquiet].
    { unfold is_mock_cid. by rewrite Hmock. }
    { by apply list_elem_of_fmap_2. }
    destruct (aggregate lib env w (map cid records) "sum") as [t o].
    simpl in Hrej, Hquiet. by rewrite Hrej.
  - done.
  - destruct records as [| r records]; [reflexivity |].
    rewrite Hsome by done.
    by destruct (aggregate lib env w (map cid (r :: records)) "sum") as [t [result | m]].
Qed.

(** ** Well-formed content addresses *)

Lemma append_length a b : String.length (a +:+ b) = String.length a + String.length b.
Proof. induction a as [| c a IH]; [done |]. rewrite append_cons. simpl. by rewrite IH. Qed.

Lemma pretty_N_go_length k x s :
  (x < 10 ^ N.of_nat k)%N -> String.length (pretty_N_go x s) <= k + String.length s.
Proof.
  revert x s. induction k as [| k IH]; intros x s Hx.
  - assert (x = 0%N) as -> by (simpl in Hx; lia). by rewrite pretty_N_go_0.
  - destruct (decide (x = 0%N)) as [-> | Hpos]; [rewrite pretty_N_go_0; lia |].
    rewrite pretty_N_go_step by lia.
    etrans; [apply IH |]; [| simpl; lia].
    apply N.Div0.div_lt_upper_bound.
    replace (N.of_nat (S k)) with (N.succ (N.of_nat k)) in Hx by lia.
    by rewrite N.pow_succ_r' in Hx.
Qed.

Lemma pretty_Z_length k z :
  (0 <= z < 10 ^ Z.of_nat (S k))%Z -> String.length (pretty z) <= S k.
Proof.
  intros [Hlo Hhi]. destruct z as [| p | p]; [simpl; lia | | lia].
  unfold pretty, pretty_Z, pretty, pretty_positive, pretty, pretty_N.
  rewrite decide_False by done.
  etrans; [apply (pretty_N_go_length (S k)) |]; [| simpl; lia].
  apply N2Z.inj_lt. rewrite N2Z.inj_pow, nat_N_Z. simpl Z.of_N at 1. exact Hhi.
Qed.

Lemma mock_address_too_short now suffix :
  (0 <= now < 10 ^ 15)%Z -> String.length suffix <= 13 ->
  isValidCID ("QmMockDemo" +:+ pretty now +:+ suffix) = false.
Proof.
  intros Hnow Hsuffix.
  pose proof (pretty_Z_length 14 now Hnow) as Hdigits.
  rewrite !append_cons. unfold isValidCID.
  replace (44 <=? _)%nat with false; [done |].
  symmetry. apply Nat.leb_gt. simpl String.length.
  change ("" +:+ pretty now +:+ suffix) with (pretty now +:+ suffix).
  rewrite append_length. lia.
Qed.

(** X23.  A mock address never passes the client's own test of a
    content address.  [Date.now()] has at most fifteen digits and the
    random suffix at most thirteen characters, so "QmMockDemo" followed
    by both stays below the forty-six characters that [isValidCID] asks
    of an address starting with "Qm".  The verification page therefore
    turns down every address that an upload without pinning
    credentials has handed out, as "Invalid CID format" and before any
    request; the same holds for the mock address the client makes up
    itself when the backend is out of reach. *)
Theorem mock_addresses_fail_isValidCID (w : World) :
  (0 <= date_now w < 10 ^ 15)%Z -> String.length (random_suffix w) <= 13 ->
  isValidCID (getMockCid w) = false
  /\ (forall fetched, handleVerify fetched (getMockCid w) = Refused "Invalid CID format")
  /\ (forall suffix, String.length suffix <= 7 ->
        isValidCID (mockCid (date_now w) suffix) = false).
Proof.
  intros Hnow Hsuffix.
  assert (Hinvalid : isValidCID (getMockCid w) = false).
  { by apply mock_address_too_short. }
  split_and!; [done | |].
  - intros fetched. unfold handleVerify. rewrite Hinvalid.
    unfold getMockCid. by rewrite append_cons.
  - intros suffix Hshort. apply mock_address_too_short; [done | lia].
Qed.

Lemma mock_addresses_fail_isValidCID_witness :
  (0 <= date_now Sample.engine_down < 10 ^ 15)%Z
  /\ String.length (random_suffix Sample.engine_down) <= 13
  /\ isValidCID "QmMockDemo1700000000000k3x9ab" = false.
Proof.
  assert (Hnow : (0 <= date_now Sample.engine_down < 10 ^ 15)%Z) by (simpl; lia).
  assert (Hsuffix : String.length (random_suffix Sample.engine_down) <= 13) by (simpl; lia).
  split; [exact Hnow |]. split; [exact Hsuffix |].
  exact (proj1 (mock_addresses_fail_isValidCID Sample.engine_down Hnow Hsuffix)).
Defined.

(** ** Attestations made through the form *)

Section Form.
Variable keccak256 : string -> N.

Lemma form_events txs a :
  Forall (from_form keccak256) txs ->
  a ∈ Ledger.attested_events (Ledger.run txs Ledger.initial) ->
  Ledger.ev_submissionHash a = keccak256 (Ledger.ev_cid a) /\ Ledger.ev_txMeta a = "".
Proof.
  induction txs as [| t txs IH] using rev_ind; [by intros _ ?%elem_of_nil |].
  intros [Htxs [Ht _]%Forall_cons]%Forall_app. rewrite run_snoc.
  destruct (step_cases (Ledger.run txs Ledger.initial) t)
    as [(ctx & h & cid & meta & _ & _ & ->)
       | [(ctx & h & cid & meta & -> & _ & ->) | (ctx & pk & _ & ->)]].
  - by apply IH.
  - rewrite attested_events_attest.
    intros [Hin | ->%list_elem_of_singleton]%elem_of_app; [by apply IH |].
    destruct (Ht eq_refl) as (ctx' & cid' & Heq). unfold submit in Heq.
    injection Heq as _ -> -> ->. done.
  - rewrite attested_events_register. by apply IH.
Qed.

End Form.

(** X24.  The form computes the fingerprint from the content address
    alone ([keccak256] of its bytes).  In a history in which every
    attestation comes from the form, each content address is attested
    at most once, by whomever: the event log names no content address
    twice, no user's list holds an address twice, and submitting an
    address that has been attested reverts with "Already attested"
    even for another user. *)
Theorem form_attests_each_address_once (keccak256 : string -> N) (txs : list Ledger.Tx) :
  Forall (from_form keccak256) txs ->
  let s := Ledger.run txs Ledger.initial in
  NoDup (map Ledger.ev_cid (Ledger.attested_events s))
  /\ (forall u, NoDup (Ledger.getUserCids s u))
  /\ (forall a, a ∈ Ledger.attested_events s ->
        Ledger.ev_submissionHash a = keccak256 (Ledger.ev_cid a) /\ Ledger.ev_txMeta a = "")
  /\ (forall ctx cid, cid ∈ map Ledger.ev_cid (Ledger.attested_events s) ->
        Ledger.transact (submit keccak256 ctx cid) s = (s, Some "Already attested")).
Proof.
  intros Hform s.
  assert (Hhashes : Ledger.hashes s
                    = map keccak256 (map Ledger.ev_cid (Ledger.attested_events s))).
  { unfold Ledger.hashes. rewrite map_map. apply map_ext_in.
    intros a Ha%list_elem_of_In. by destruct (form_events keccak256 txs a Hform Ha). }
  assert (Hcids : NoDup (map Ledger.ev_cid (Ledger.attested_events s))).
  { apply (NoDup_fmap_1 keccak256).
    change (NoDup (map keccak256 (map Ledger.ev_cid (Ledger.attested_events s)))).
    rewrite <- Hhashes. apply attested_hashes_NoDup. }
  split_and!.
  - done.
  - intros u. subst s. rewrite user_cids_logged. unfold Ledger.logged_cids.
    eapply sublist_NoDup; [exact Hcids |].
    apply fmap_sublist, RecordsFacts.filter_sublist.
  - intros a Ha. by apply (form_events keccak256 txs).
  - intros ctx cid (a & -> & Ha)%list_elem_of_fmap.
    unfold submit, computeSubmissionHash. apply transact_attest_duplicate.
    apply (log_inv_run txs Ledger.initial log_inv_initial).
    destruct (form_events keccak256 txs a Hform Ha) as [<- _].
    unfold Ledger.hashes. by apply list_elem_of_fmap_2.
Qed.

Lemma form_attests_each_address_once_witness :
  Forall (from_form (fun cid => N.of_nat (String.length cid)))
         [submit (fun cid => N.of_nat (String.length cid)) (Ledger.mkCtx 1 100) "QmA";
          submit (fun cid => N.of_nat (String.length cid)) (Ledger.mkCtx 2 101) "QmA"]
  /\ NoDup (map Ledger.ev_cid
              (Ledger.attested_events
                 (Ledger.run
                    [submit (fun cid => N.of_nat (String.length cid)) (Ledger.mkCtx 1 100) "QmA";
                     submit (fun cid => N.of_nat (String.length cid)) (Ledger.mkCtx 2 101) "QmA"]
                    Ledger.initial))).
Proof.
  assert (Hform : Forall (from_form (fun cid => N.of_nat (String.length cid)))
            [submit (fun cid => N.of_nat (String.length cid)) (Ledger.mkCtx 1 100) "QmA";
             submit (fun cid => N.of_nat (String.length cid)) (Ledger.mkCtx 2 101) "QmA"]).
  { repeat constructor; intros _; eauto. }
  split; [exact Hform |].
  exact (proj1 (form_attests_each_address_once _ _ Hform)).
Defined.

(** ** The size limits of an upload *)

Lemma substring_length n s : String.length (substring 0 n s) <= n.
Proof.
  revert s. induction n as [| n IH]; intros [| c s]; simpl; try lia.
  specialize (IH s). lia.
Qed.

(** X26.  An upload passes the JSON parser of the application before
    it reaches [POST /upload], and the parser turns away every body of
    more than 2097152 bytes with 413.  The ciphertext is base64 text
    inside that body, and base64 yields at most three bytes for four
    characters, so a ciphertext that reaches the route decodes to at
    most 1572864 bytes.  The route's own test against 2097152 bytes can
    therefore never fail: behind the application, [POST
    /api/ipfs/upload] with a text ciphertext answers 413, 429, 400
    "ciphertext is required" or 200, and never "Ciphertext too
    large". *)
Theorem upload_size_test_never_fails (db : Database) (lib : Lib) (env : gmap string string)
    (w : World) (from_value : JSON -> Outcome string) (req : Request) (s : Store)
    (c : string) :
  (forall text, (4 * Z.of_nat (String.length (base64_decode lib text))
                 <= 3 * Z.of_nat (String.length text))%Z) ->
  method req = POST -> path req = ["api"; "ipfs"; "upload"] ->
  field "ciphertext" (body req) = Some (JStr c) ->
  (Z.of_nat (String.length c) <= contentLength req)%Z ->
  let reply := (app db lib env w from_value req s).2 in
  ((2097152 < contentLength req)%Z ->
     reply = Sent (mkResponse 413 (JObj [("error", JStr "request entity too large")])))
  /\ ((contentLength req <= 2097152)%Z ->
      (Z.of_nat (String.length (base64_decode lib c)) <= 1572864)%Z
      /\ (reply = TooManyRequests
          \/ reply = Sent (failure 400 "ciphertext is required")
          \/ exists cid, reply = Sent (mkResponse 200 (JObj [("success", JBool true);
                                                             ("cid", JStr cid)]))))
  /\ (forall size, reply <> Sent (failure 400 (too_large size))).
Proof.
  intros Hbase64 Hmethod Hpath Hfield Hinside reply.
  assert (Hbig : (2097152 < contentLength req)%Z ->
            reply = Sent (mkResponse 413 (JObj [("error", JStr "request entity too large")]))).
  { intros Hlen. subst reply. unfold app. change bodyLimit with 2097152%Z.
    by rewrite (proj2 (Z.ltb_lt _ _) Hlen). }
  assert (Hsmall : (contentLength req <= 2097152)%Z ->
            (Z.of_nat (String.length (base64_decode lib c)) <= 1572864)%Z
            /\ (reply = TooManyRequests
                \/ reply = Sent (failure 400 "ciphertext is required")
                \/ exists cid, reply = Sent (mkResponse 200 (JObj [("success", JBool true);
                                                                   ("cid", JStr cid)])))).
  { intros Hlen.
    assert (Hsize : (Z.of_nat (String.length (base64_decode lib c)) <= 1572864)%Z).
    { specialize (Hbase64 c). lia. }
    split; [done |].
    subst reply. unfold app. change bodyLimit with 2097152%Z.
    rewrite (proj2 (Z.ltb_ge _ _) Hlen), Hpath.
    change (negb (lit "api" "api")) with false. cbv beta iota.
    destruct (limited req); [by left | right].
    change (lit "health" "ipfs") with false. change (lit "records" "ipfs") with false.
    change (lit "ipfs" "ipfs") with true. cbv beta iota. simpl andb. cbv beta iota.
    unfold ipfsRouter. rewrite Hmethod. change (lit "upload" "upload") with true.
    cbv beta iota.
    destruct (decide (c = "")) as [-> | Hne].
    - left. unfold post_upload. by rewrite Hfield.
    - right. destruct (post_upload_text lib env w from_value (body req) c Hfield Hne)
        as [_ Hfits].
      destruct Hfits as (cid & Hreply & _); [lia |].
      exists cid. destruct (post_upload lib env w from_value (body req)) as [t response].
      simpl in *. by rewrite Hreply. }
  split_and!; [done | done |].
  intros size Hlarge.
  destruct (Z.lt_ge_cases 2097152 (contentLength req)) as [Hlen | Hlen].
  - rewrite (Hbig Hlen) in Hlarge. discriminate.
  - destruct (Hsmall Hlen) as [_ [H | [H | [cid H]]]]; rewrite H in Hlarge; discriminate.
Qed.

Lemma upload_size_test_never_fails_witness :
  (forall text, (4 * Z.of_nat (String.length (base64_decode Sample.packed_lib text))
                 <= 3 * Z.of_nat (String.length text))%Z)
  /\ (app Sample.db Sample.packed_lib ∅ Sample.engine_down (fun _ => Rejected "not text")
        Sample.upload_request Db.empty).2
     <> Sent (failure 400 (too_large 3)).
Proof.
  assert (Hbase64 : forall text,
            (4 * Z.of_nat (String.length (base64_decode Sample.packed_lib text))
             <= 3 * Z.of_nat (String.length text))%Z).
  { intros text.
    change (base64_decode Sample.packed_lib text)
      with (substring 0 (3 * (String.length text / 4)) text).
    pose proof (substring_length (3 * (String.length text / 4)) text).
    pose proof (Nat.Div0.mul_div_le (String.length text) 4). lia. }
  split; [exact Hbase64 |].
  refine (proj2 (proj2 (upload_size_test_never_fails Sample.db Sample.packed_lib ∅
                          Sample.engine_down
                          (fun _ => Rejected "not text") Sample.upload_request Db.empty
                          "QUJD" Hbase64 eq_refl eq_refl eq_refl _)) 3%Z).
  simpl. lia.
Defined.

(** ** The verification hook *)

(** X25.  The verification hook asks the contract for
    [verifyAttestation(bytes32)].  The contract has no function of that
    selector (it names the test [isAttested]) and no fallback, so the
    call reverts and the hook reports [false] for every fingerprint, in
    every state of the ledger, attested or not; a call to [isAttested]
    would have told. *)
Theorem verification_hook_is_always_false (to_bytes32 : string -> option N)
    (s : Ledger.State) (submissionHash : option string) :
  verifyAttestation to_bytes32 s submissionHash = false
  /\ (forall word, Ledger.staticcall s selector_verifyAttestation word = None)
  /\ (forall word, Ledger.staticcall s Ledger.selector_isAttested word
                   = Some (Ledger.ReturnedBool (Ledger.isAttested s word)))
  /\ (forall h word, to_bytes32 h = Some word -> Ledger.isAttested s word = true ->
        verifyAttestation to_bytes32 s (Some h) = false).
Proof.
  assert (Hrevert : forall word, Ledger.staticcall s selector_verifyAttestation word = None).
  { intros word. reflexivity. }
  assert (Hfalse : forall h, verifyAttestation to_bytes32 s h = false).
  { intros [h |]; [| done]. unfold verifyAttestation.
    destruct (truthy h); [| done]. cbn [negb].
    destruct (to_bytes32 h) as [word |]; [| done]. by rewrite Hrevert. }
  split_and!; [apply Hfalse | done | done | intros; apply Hfalse].
Qed.

End ClientFacts.
